(** * Weak-form term library (WeakFormsH1) and the Newton driver

    A shallow embedding of [hermes2d/src/weakform_library/weakforms_h1.cpp]
    and of the Newton loop of the elliptic benchmark's [main].

    The C++ classes are templates over [Scalar]; the embedding is generic
    over the same parameter, given as a type class carrying the arithmetic
    the formulas use.  Coefficient objects live in a store addressed by
    pointers, because constructors allocate them and destructors release
    them. *)

From Stdlib Require Import ZArith String Lia.
From Stdlib Require Floats.PrimFloat.
From stdpp Require Import base option gmap.

Local Open Scope Z_scope.

(** ** Scalars *)

(** The operations the templates require of [Scalar] (instantiated with
    [double] in the benchmark): the literals [0] and [1.0], [+] and [*]. *)
Class ScalarOps (Scalar : Type) := {
  zero : Scalar;
  one : Scalar;
  add : Scalar -> Scalar -> Scalar;
  mul : Scalar -> Scalar -> Scalar
}.

Declare Scope scalar_scope.
Delimit Scope scalar_scope with sc.
Infix "+" := add : scalar_scope.
Infix "*" := mul : scalar_scope.

(** Integers: the instance used to run the formulas on concrete data.
    Small integers are doubles on which [+] and [*] are exact. *)
#[export] Instance Z_ScalarOps : ScalarOps Z :=
  {| zero := 0; one := 1; add := Z.add; mul := Z.mul |}.

(** [double]: IEEE 754 binary64 with its rounded sum and product, its
    infinities and NaN. *)
#[export] Instance double_ScalarOps : ScalarOps PrimFloat.float :=
  {| zero := PrimFloat.zero; one := PrimFloat.one;
     add := PrimFloat.add; mul := PrimFloat.mul |}.

(** ** Arrays and loops *)

(** A C array read at non-negative indices: [a i] is [a[i]]. *)
Definition array (A : Type) := nat -> A.

(** An array given by its first cells, [d] elsewhere. *)
Definition array_of {A} (d : A) (l : list A) : array A :=
  fun i => nth i l d.

(** [for (int i = i0; i < i0 + k; i++) acc = body i acc]. *)
Fixpoint for_loop {A} (k : nat) (i0 : nat) (body : nat -> A -> A) (acc : A) : A :=
  match k with
  | O => acc
  | S k' => for_loop k' (S i0) body (body i0 acc)
  end.

(** [for (int i = 0; i < n; i++) acc = body i acc], with [n] an [int]:
    the body is not run when [n <= 0]. *)
Definition for_upto {A} (n : Z) (body : nat -> A -> A) (acc : A) : A :=
  for_loop (Z.to_nat n) 0 body acc.

(** The mathematical sum of [f 0 .. f (k-1)], taken from the left. *)
Fixpoint sum_below `{ScalarOps Scalar} (k : nat) (f : nat -> Scalar) : Scalar :=
  match k with
  | O => zero
  | S k' => (sum_below k' f + f k')%sc
  end.

(** Sum over the [n] quadrature points. *)
Definition quad_sum `{ScalarOps Scalar} (n : Z) (f : nat -> Scalar) : Scalar :=
  sum_below (Z.to_nat n) f.

(** ** Geometry and sampled functions *)

(** [enum GeomType]. *)
Inductive GeomType := HERMES_PLANAR | HERMES_AXISYM_X | HERMES_AXISYM_Y.

#[export] Instance GeomType_eq_dec : EqDecision GeomType.
Proof. solve_decision. Defined.

(** [enum SymFlag]. *)
Inductive SymFlag := HERMES_ANTISYM | HERMES_NONSYM | HERMES_SYM.

(** [Func<T>]: samples of a function and of its gradient at the
    quadrature points. *)
Record Func (T : Type) := {
  val : array T;
  dx : array T;
  dy : array T
}.
Arguments val {T}.
Arguments dx {T}.
Arguments dy {T}.

(** [Geom<T>]: physical coordinates of the quadrature points. *)
Record Geom (T : Type) := {
  x : array T;
  y : array T
}.
Arguments x {T}.
Arguments y {T}.

(** The factor of the integration measure named by the specification:
    1 in planar mode, [y] about the x axis, [x] about the y axis. *)
Definition geometry_factor `{ScalarOps Scalar} (gt : GeomType) (e : Geom Scalar) (i : nat) : Scalar :=
  match gt with
  | HERMES_PLANAR => one
  | HERMES_AXISYM_X => y e i
  | HERMES_AXISYM_Y => x e i
  end.

(** ** Pointers and the store of coefficient objects *)

(** A pointer to a coefficient object: the default marker or the address
    of an object. *)
Inductive ptr := Sentinel | Addr (a : nat).

#[export] Instance ptr_eq_dec : EqDecision ptr.
Proof. solve_decision. Defined.

(** Modelled from the spec: the macros [HERMES_DEFAULT_FUNCTION] and
    [HERMES_DEFAULT_SPLINE] are defined outside the library file; they are
    the sentinel marker that asks a term for a constant-1.0 coefficient, and
    no allocated object has that address. *)
Definition HERMES_DEFAULT_FUNCTION : ptr := Sentinel.
Definition HERMES_DEFAULT_SPLINE : ptr := Sentinel.

(** [p->...]: reading through a pointer that holds no live object is
    undefined, rendered as [None]. *)
Definition deref {A} (h : gmap nat A) (p : ptr) : option A :=
  match p with
  | Sentinel => None
  | Addr a => h !! a
  end.

(** [new A(...)]: the object is placed at an address that was free. *)
Definition new {A} (o : A) (h : gmap nat A) : nat * gmap nat A :=
  let a := fresh (dom h) in (a, <[a := o]> h).

(** [delete p] for a pointer that is not the marker: the object is
    released; releasing an address that holds no live object (a second
    [delete]) is undefined, rendered as [None]. *)
Definition delete_obj {A} (p : ptr) (h : gmap nat A) : option (gmap nat A) :=
  match p with
  | Sentinel => Some h
  | Addr a => match h !! a with
              | Some _ => Some (delete a h)
              | None => None
              end
  end.

(** An object is released by a step from [h] to [h'] when it was live
    before and is not after. *)
Definition released {A} (p : ptr) (h h' : gmap nat A) : Prop :=
  is_Some (deref h p) /\ deref h' p = None.

(** ** Fatal errors *)

(** Modelled from the spec: the macro [error(...)] is defined outside the
    two files; it reports the message and aborts (a fatal signal), so the
    statements after it are not run. *)
Inductive result (A : Type) :=
  | Ok (a : A)
  | Fatal (msg : string).
Arguments Ok {A}.
Arguments Fatal {A}.

Definition error {A} (msg : string) : result A := Fatal msg.

(** ** The degree algebra *)

(** Modelled from the spec: class [Ord] is declared outside the library
    file.  An order is a polynomial degree; addition is the maximum of the
    degrees, multiplication their sum, and a floating-point constant has
    degree 0. *)
Module Ord.
Record t := mk { order : Z }.

(** [Ord(int o)] and [Ord(double d)]. *)
Definition of_int (o : Z) : t := mk o.
Definition of_double {Scalar} (d : Scalar) : t := mk 0.
Definition add (a b : t) : t := mk (Z.max (order a) (order b)).
Definition mul (a b : t) : t := mk (order a + order b).
(** [double * Ord]. *)
Definition scale {Scalar} (d : Scalar) (a : t) : t := mul (of_double d) a.
End Ord.

(** ** Coefficient models *)

(** [DefaultFunction<Scalar>]: a function of the physical point, with its
    order estimate.  The class is declared outside the library file; the
    terms only call these two members. *)
Module DefaultFunction.
Record t (Scalar : Type) := {
  value : Scalar -> Scalar -> Scalar;
  ord : Ord.t -> Ord.t -> Ord.t
}.
Arguments value {Scalar}.
Arguments ord {Scalar}.

(** Modelled from the spec: [DefaultFunction<Scalar>(c)] is the constant
    function [c]. *)
Definition const {Scalar} (c : Scalar) : t Scalar :=
  {| value := fun _ _ => c; ord := fun _ _ => Ord.of_double c |}.
End DefaultFunction.

(** [CubicSpline]: a function of the field value with its derivative, and
    the overloads used for order estimation.  The class is declared outside
    the library file; the terms only call these members. *)
Module CubicSpline.
Record t (Scalar : Type) := {
  get_value : Scalar -> Scalar;
  get_derivative : Scalar -> Scalar;
  get_value_ord : Ord.t -> Ord.t;
  get_derivative_ord : Ord.t -> Ord.t
}.
Arguments get_value {Scalar}.
Arguments get_derivative {Scalar}.
Arguments get_value_ord {Scalar}.
Arguments get_derivative_ord {Scalar}.

(** Modelled from the spec: [CubicSpline(c)] is the constant coefficient
    [c], whose derivative is 0. *)
Definition const `{ScalarOps Scalar} (c : Scalar) : t Scalar :=
  {| get_value := fun _ => c;
     get_derivative := fun _ => zero;
     get_value_ord := fun _ => Ord.of_double c;
     get_derivative_ord := fun _ => Ord.of_double c |}.
End CubicSpline.

(** ** Base classes of the terms *)

(** Modelled from the spec: the base classes are declared outside the
    library file.  They hold the row and column indices, the regions the
    term is restricted to, and for volume matrix terms the symmetry flag;
    the single-area constructor restricts the term to that one region. *)
Record MatrixFormVol := {
  mfv_i : Z; mfv_j : Z; mfv_areas : list string; mfv_sym : SymFlag
}.
Record VectorFormVol := { vfv_i : Z; vfv_areas : list string }.
Record MatrixFormSurf := { mfs_i : Z; mfs_j : Z; mfs_areas : list string }.
Record VectorFormSurf := { vfs_i : Z; vfs_areas : list string }.

(** Loop whose body reads through a pointer: it stops being defined at the
    first undefined read. *)
Definition for_upto_m {A} (n : Z) (body : nat -> A -> option A) (acc : A) : option A :=
  for_upto n (fun i r => r ≫= body i) (Some acc).

(** * The terms *)

(** The evaluators take the store that holds the coefficient objects.  The
    parameter [ext] of the C++ evaluators is not read by any of them and is
    left out.  With [Scalar = double] the weights and the samples of the
    trial and test functions have the scalar type. *)

(** ** [DefaultMatrixFormVol] *)
Module DefaultMatrixFormVol.
Section WithScalar.
Context `{ScalarOps Scalar}.

Record t := {
  base : MatrixFormVol;
  const_coeff : Scalar;
  function_coeff : ptr;
  gt : GeomType
}.

Definition set_function_coeff (this : t) (p : ptr) : t :=
  {| base := base this; const_coeff := const_coeff this;
     function_coeff := p; gt := gt this |}.

(** Constructor body shared by both overloads, after the member
    initialisers. *)
Definition ctor_body (this : t) (f_coeff : ptr) (h : gmap nat (DefaultFunction.t Scalar))
  : t * gmap nat (DefaultFunction.t Scalar) :=
  if decide (f_coeff = HERMES_DEFAULT_FUNCTION)
  then let '(a, h') := new (DefaultFunction.const one) h in
       (set_function_coeff this (Addr a), h')
  else (this, h).

(** [DefaultMatrixFormVol(i, j, area, const_coeff, f_coeff, sym, gt)]. *)
Definition ctor_area (i j : Z) (area : string) (const_coeff : Scalar)
    (f_coeff : ptr) (sym : SymFlag) (gt : GeomType)
    (h : gmap nat (DefaultFunction.t Scalar)) :=
  ctor_body {| base := {| mfv_i := i; mfv_j := j; mfv_areas := [area]; mfv_sym := sym |};
               const_coeff := const_coeff; function_coeff := f_coeff; gt := gt |}
            f_coeff h.

(** [DefaultMatrixFormVol(i, j, areas, const_coeff, f_coeff, sym, gt)]. *)
Definition ctor_areas (i j : Z) (areas : list string) (const_coeff : Scalar)
    (f_coeff : ptr) (sym : SymFlag) (gt : GeomType)
    (h : gmap nat (DefaultFunction.t Scalar)) :=
  ctor_body {| base := {| mfv_i := i; mfv_j := j; mfv_areas := areas; mfv_sym := sym |};
               const_coeff := const_coeff; function_coeff := f_coeff; gt := gt |}
            f_coeff h.

(** [~DefaultMatrixFormVol()]. *)
Definition dtor (this : t) (h : gmap nat (DefaultFunction.t Scalar))
  : option (gmap nat (DefaultFunction.t Scalar)) :=
  if decide (function_coeff this <> HERMES_DEFAULT_FUNCTION)
  then delete_obj (function_coeff this) h
  else Some h.

(** [value(n, wt, u_ext, u, v, e, ext)]. *)
Definition value (h : gmap nat (DefaultFunction.t Scalar)) (this : t)
    (n : Z) (wt : array Scalar) (u_ext : Z -> Func Scalar)
    (u v : Func Scalar) (e : Geom Scalar) : option Scalar :=
  let fc := deref h (function_coeff this) in
  result ←
    match gt this with
    | HERMES_PLANAR =>
        for_upto_m n (fun i result => f ← fc;
          Some (result + wt i * DefaultFunction.value f (x e i) (y e i) * val u i * val v i)%sc) zero
    | HERMES_AXISYM_X =>
        for_upto_m n (fun i result => f ← fc;
          Some (result + wt i * y e i * DefaultFunction.value f (x e i) (y e i) * val u i * val v i)%sc) zero
    | HERMES_AXISYM_Y =>
        for_upto_m n (fun i result => f ← fc;
          Some (result + wt i * x e i * DefaultFunction.value f (x e i) (y e i) * val u i * val v i)%sc) zero
    end;
  Some (const_coeff this * result)%sc.

(** [ord(n, wt, u_ext, u, v, e, ext)]: the loops of [value] on orders;
    the result is returned without the constant. *)
Definition ord (h : gmap nat (DefaultFunction.t Scalar)) (this : t)
    (n : Z) (wt : array Scalar) (u_ext : Z -> Func Ord.t)
    (u v : Func Ord.t) (e : Geom Ord.t) : option Ord.t :=
  let fc := deref h (function_coeff this) in
  match gt this with
  | HERMES_PLANAR =>
      for_upto_m n (fun i result => f ← fc;
        Some (Ord.add result
          (Ord.mul (Ord.mul (Ord.scale (wt i) (DefaultFunction.ord f (x e i) (y e i))) (val u i)) (val v i)))) (Ord.of_int 0)
  | HERMES_AXISYM_X =>
      for_upto_m n (fun i result => f ← fc;
        Some (Ord.add result
          (Ord.mul (Ord.mul (Ord.mul (Ord.scale (wt i) (y e i)) (DefaultFunction.ord f (x e i) (y e i))) (val u i)) (val v i)))) (Ord.of_int 0)
  | HERMES_AXISYM_Y =>
      for_upto_m n (fun i result => f ← fc;
        Some (Ord.add result
          (Ord.mul (Ord.mul (Ord.mul (Ord.scale (wt i) (x e i)) (DefaultFunction.ord f (x e i) (y e i))) (val u i)) (val v i)))) (Ord.of_int 0)
  end.

(** The term in another geometry mode. *)
Definition with_gt (this : t) (g : GeomType) : t :=
  {| base := base this; const_coeff := const_coeff this;
     function_coeff := function_coeff this; gt := g |}.

(** [clone()]: the copy constructor copies the members, the pointer
    included. *)
Definition clone (this : t) : t := this.

End WithScalar.
Arguments t Scalar : clear implicits.
End DefaultMatrixFormVol.

(** ** [DefaultJacobianDiffusion] *)
Module DefaultJacobianDiffusion.
Section WithScalar.
Context `{ScalarOps Scalar}.

Record t := {
  base : MatrixFormVol;
  idx_j : Z;
  const_coeff : Scalar;
  spline_coeff : ptr;
  gt : GeomType
}.

Definition set_spline_coeff (this : t) (p : ptr) : t :=
  {| base := base this; idx_j := idx_j this; const_coeff := const_coeff this;
     spline_coeff := p; gt := gt this |}.

Definition ctor_body (this : t) (c_spline : ptr) (h : gmap nat (CubicSpline.t Scalar))
  : t * gmap nat (CubicSpline.t Scalar) :=
  if decide (c_spline = HERMES_DEFAULT_SPLINE)
  then let '(a, h') := new (CubicSpline.const one) h in
       (set_spline_coeff this (Addr a), h')
  else (this, h).

(** [DefaultJacobianDiffusion(i, j, area, const_coeff, c_spline, sym, gt)]. *)
Definition ctor_area (i j : Z) (area : string) (const_coeff : Scalar)
    (c_spline : ptr) (sym : SymFlag) (gt : GeomType)
    (h : gmap nat (CubicSpline.t Scalar)) :=
  ctor_body {| base := {| mfv_i := i; mfv_j := j; mfv_areas := [area]; mfv_sym := sym |};
               idx_j := j; const_coeff := const_coeff; spline_coeff := c_spline; gt := gt |}
            c_spline h.

(** [DefaultJacobianDiffusion(i, j, areas, const_coeff, c_spline, sym, gt)]. *)
Definition ctor_areas (i j : Z) (areas : list string) (const_coeff : Scalar)
    (c_spline : ptr) (sym : SymFlag) (gt : GeomType)
    (h : gmap nat (CubicSpline.t Scalar)) :=
  ctor_body {| base := {| mfv_i := i; mfv_j := j; mfv_areas := areas; mfv_sym := sym |};
               idx_j := j; const_coeff := const_coeff; spline_coeff := c_spline; gt := gt |}
            c_spline h.

(** [~DefaultJacobianDiffusion()]. *)
Definition dtor (this : t) (h : gmap nat (CubicSpline.t Scalar))
  : option (gmap nat (CubicSpline.t Scalar)) :=
  if decide (spline_coeff this <> HERMES_DEFAULT_SPLINE)
  then delete_obj (spline_coeff this) h
  else Some h.

(** [value(n, wt, u_ext, u, v, e, ext)]. *)
Definition value (h : gmap nat (CubicSpline.t Scalar)) (this : t)
    (n : Z) (wt : array Scalar) (u_ext : Z -> Func Scalar)
    (u v : Func Scalar) (e : Geom Scalar) : option Scalar :=
  let sc := deref h (spline_coeff this) in
  match gt this with
  | HERMES_PLANAR =>
      for_upto_m n (fun i result => s ← sc;
        Some (result + wt i *
       (const_coeff this * CubicSpline.get_derivative s (val (u_ext (idx_j this)) i) * val u i *
          (dx (u_ext (idx_j this)) i * dx v i + dy (u_ext (idx_j this)) i * dy v i)
        + const_coeff this * CubicSpline.get_value s (val (u_ext (idx_j this)) i)
          * (dx u i * dx v i + dy u i * dy v i)))%sc) zero
  | HERMES_AXISYM_X =>
      for_upto_m n (fun i result => s ← sc;
        Some (result + wt i * y e i *
       (const_coeff this * CubicSpline.get_derivative s (val (u_ext (idx_j this)) i) * val u i *
          (dx (u_ext (idx_j this)) i * dx v i + dy (u_ext (idx_j this)) i * dy v i)
        + const_coeff this * CubicSpline.get_value s (val (u_ext (idx_j this)) i)
          * (dx u i * dx v i + dy u i * dy v i)))%sc) zero
  | HERMES_AXISYM_Y =>
      for_upto_m n (fun i result => s ← sc;
        Some (result + wt i * x e i *
       (const_coeff this * CubicSpline.get_derivative s (val (u_ext (idx_j this)) i) * val u i *
          (dx (u_ext (idx_j this)) i * dx v i + dy (u_ext (idx_j this)) i * dy v i)
        + const_coeff this * CubicSpline.get_value s (val (u_ext (idx_j this)) i)
          * (dx u i * dx v i + dy u i * dy v i)))%sc) zero
  end.

(** [ord(n, wt, u_ext, u, v, e, ext)]: the loops of [value] on orders. *)
Definition ord (h : gmap nat (CubicSpline.t Scalar)) (this : t)
    (n : Z) (wt : array Scalar) (u_ext : Z -> Func Ord.t)
    (u v : Func Ord.t) (e : Geom Ord.t) : option Ord.t :=
  let sc := deref h (spline_coeff this) in
  match gt this with
  | HERMES_PLANAR =>
      for_upto_m n (fun i result => s ← sc;
        Some (Ord.add result
          (Ord.scale (wt i)
          (Ord.add
             (Ord.mul
                (Ord.mul
                   (Ord.scale (const_coeff this)
                      (CubicSpline.get_derivative_ord s (val (u_ext (idx_j this)) i)))
                   (val u i))
                (Ord.add (Ord.mul (dx (u_ext (idx_j this)) i) (dx v i))
                         (Ord.mul (dy (u_ext (idx_j this)) i) (dy v i))))
             (Ord.mul
                (Ord.scale (const_coeff this)
                   (CubicSpline.get_value_ord s (val (u_ext (idx_j this)) i)))
                (Ord.add (Ord.mul (dx u i) (dx v i)) (Ord.mul (dy u i) (dy v i)))))))) (Ord.of_int 0)
  | HERMES_AXISYM_X =>
      for_upto_m n (fun i result => s ← sc;
        Some (Ord.add result
          (Ord.mul (Ord.scale (wt i) (y e i))
          (Ord.add
             (Ord.mul
                (Ord.mul
                   (Ord.scale (const_coeff this)
                      (CubicSpline.get_derivative_ord s (val (u_ext (idx_j this)) i)))
                   (val u i))
                (Ord.add (Ord.mul (dx (u_ext (idx_j this)) i) (dx v i))
                         (Ord.mul (dy (u_ext (idx_j this)) i) (dy v i))))
             (Ord.mul
                (Ord.scale (const_coeff this)
                   (CubicSpline.get_value_ord s (val (u_ext (idx_j this)) i)))
                (Ord.add (Ord.mul (dx u i) (dx v i)) (Ord.mul (dy u i) (dy v i)))))))) (Ord.of_int 0)
  | HERMES_AXISYM_Y =>
      for_upto_m n (fun i result => s ← sc;
        Some (Ord.add result
          (Ord.mul (Ord.scale (wt i) (x e i))
          (Ord.add
             (Ord.mul
                (Ord.mul
                   (Ord.scale (const_coeff this)
                      (CubicSpline.get_derivative_ord s (val (u_ext (idx_j this)) i)))
                   (val u i))
                (Ord.add (Ord.mul (dx (u_ext (idx_j this)) i) (dx v i))
                         (Ord.mul (dy (u_ext (idx_j this)) i) (dy v i))))
             (Ord.mul
                (Ord.scale (const_coeff this)
                   (CubicSpline.get_value_ord s (val (u_ext (idx_j this)) i)))
                (Ord.add (Ord.mul (dx u i) (dx v i)) (Ord.mul (dy u i) (dy v i)))))))) (Ord.of_int 0)
  end.

(** The term in another geometry mode. *)
Definition with_gt (this : t) (g : GeomType) : t :=
  {| base := base this; idx_j := idx_j this; const_coeff := const_coeff this;
     spline_coeff := spline_coeff this; gt := g |}.

Definition clone (this : t) : t := this.

End WithScalar.
Arguments t Scalar : clear implicits.
End DefaultJacobianDiffusion.

(** ** [DefaultJacobianAdvection] *)
Module DefaultJacobianAdvection.
Section WithScalar.
Context `{ScalarOps Scalar}.

Record t := {
  base : MatrixFormVol;
  idx_j : Z;
  const_coeff1 : Scalar;
  const_coeff2 : Scalar;
  spline_coeff1 : ptr;
  spline_coeff2 : ptr;
  gt : GeomType
}.

Definition set_spline_coeff1 (this : t) (p : ptr) : t :=
  {| base := base this; idx_j := idx_j this;
     const_coeff1 := const_coeff1 this; const_coeff2 := const_coeff2 this;
     spline_coeff1 := p; spline_coeff2 := spline_coeff2 this; gt := gt this |}.

Definition set_spline_coeff2 (this : t) (p : ptr) : t :=
  {| base := base this; idx_j := idx_j this;
     const_coeff1 := const_coeff1 this; const_coeff2 := const_coeff2 this;
     spline_coeff1 := spline_coeff1 this; spline_coeff2 := p; gt := gt this |}.

(** Constructor body shared by both overloads: the geometry check, then
    the two default splines. *)
Definition ctor_body (this : t) (c_spline1 c_spline2 : ptr) (gt : GeomType)
    (h : gmap nat (CubicSpline.t Scalar))
  : result (t * gmap nat (CubicSpline.t Scalar)) :=
  if decide (gt <> HERMES_PLANAR)
  then error "Axisymmetric advection forms not implemented yet."
  else
    let '(this, h) :=
      if decide (c_spline1 = HERMES_DEFAULT_SPLINE)
      then let '(a, h') := new (CubicSpline.const one) h in
           (set_spline_coeff1 this (Addr a), h')
      else (this, h) in
    let '(this, h) :=
      if decide (c_spline2 = HERMES_DEFAULT_SPLINE)
      then let '(a, h') := new (CubicSpline.const one) h in
           (set_spline_coeff2 this (Addr a), h')
      else (this, h) in
    Ok (this, h).

(** [DefaultJacobianAdvection(i, j, area, const_coeff1, const_coeff2,
    c_spline1, c_spline2, gt)]. *)
Definition ctor_area (i j : Z) (area : string) (const_coeff1 const_coeff2 : Scalar)
    (c_spline1 c_spline2 : ptr) (gt : GeomType)
    (h : gmap nat (CubicSpline.t Scalar)) :=
  ctor_body {| base := {| mfv_i := i; mfv_j := j; mfv_areas := [area]; mfv_sym := HERMES_NONSYM |};
               idx_j := j; const_coeff1 := const_coeff1; const_coeff2 := const_coeff2;
               spline_coeff1 := c_spline1; spline_coeff2 := c_spline2; gt := gt |}
            c_spline1 c_spline2 gt h.

(** [DefaultJacobianAdvection(i, j, areas, const_coeff1, const_coeff2,
    c_spline1, c_spline2, gt)].  The initialisers read
    [spline_coeff1(spline_coeff1), spline_coeff2(spline_coeff2)]: each
    member is initialised from itself, that is from the content [raw] the
    storage of the object had before construction. *)
Definition ctor_areas (raw : t) (i j : Z) (areas : list string)
    (const_coeff1 const_coeff2 : Scalar)
    (c_spline1 c_spline2 : ptr) (gt : GeomType)
    (h : gmap nat (CubicSpline.t Scalar)) :=
  ctor_body {| base := {| mfv_i := i; mfv_j := j; mfv_areas := areas; mfv_sym := HERMES_NONSYM |};
               idx_j := j; const_coeff1 := const_coeff1; const_coeff2 := const_coeff2;
               spline_coeff1 := spline_coeff1 raw; spline_coeff2 := spline_coeff2 raw;
               gt := gt |}
            c_spline1 c_spline2 gt h.

(** [~DefaultJacobianAdvection()]. *)
Definition dtor (this : t) (h : gmap nat (CubicSpline.t Scalar))
  : option (gmap nat (CubicSpline.t Scalar)) :=
  h ← (if decide (spline_coeff1 this <> HERMES_DEFAULT_SPLINE)
       then delete_obj (spline_coeff1 this) h else Some h);
  if decide (spline_coeff2 this <> HERMES_DEFAULT_SPLINE)
  then delete_obj (spline_coeff2 this) h else Some h.

(** [value(n, wt, u_ext, u, v, e, ext)]. *)
Definition value (h : gmap nat (CubicSpline.t Scalar)) (this : t)
    (n : Z) (wt : array Scalar) (u_ext : Z -> Func Scalar)
    (u v : Func Scalar) (e : Geom Scalar) : option Scalar :=
  let sc1 := deref h (spline_coeff1 this) in
  let sc2 := deref h (spline_coeff2 this) in
  for_upto_m n (fun i result => s1 ← sc1; s2 ← sc2;
    Some (result + wt i *
      (const_coeff1 this * CubicSpline.get_derivative s1 (val (u_ext (idx_j this)) i) * val u i
         * dx (u_ext (idx_j this)) i * val v i
       + const_coeff1 this * CubicSpline.get_value s1 (val (u_ext (idx_j this)) i) * dx u i * val v i
       + const_coeff2 this * CubicSpline.get_derivative s2 (val (u_ext (idx_j this)) i) * val u i
         * dy (u_ext (idx_j this)) i * val v i
       + const_coeff2 this * CubicSpline.get_value s2 (val (u_ext (idx_j this)) i) * dy u i * val v i))%sc) zero.

(** [ord(n, wt, u_ext, u, v, e, ext)]: the loop of [value] on orders. *)
Definition ord (h : gmap nat (CubicSpline.t Scalar)) (this : t)
    (n : Z) (wt : array Scalar) (u_ext : Z -> Func Ord.t)
    (u v : Func Ord.t) (e : Geom Ord.t) : option Ord.t :=
  let sc1 := deref h (spline_coeff1 this) in
  let sc2 := deref h (spline_coeff2 this) in
  for_upto_m n (fun i result => s1 ← sc1; s2 ← sc2;
    Some (Ord.add result
      (Ord.scale (wt i)
        (Ord.add
          (Ord.add
            (Ord.add
              (Ord.mul (Ord.mul (Ord.mul
                 (Ord.scale (const_coeff1 this)
                    (CubicSpline.get_derivative_ord s1 (val (u_ext (idx_j this)) i)))
                 (val u i)) (dx (u_ext (idx_j this)) i)) (val v i))
              (Ord.mul (Ord.mul
                 (Ord.scale (const_coeff1 this)
                    (CubicSpline.get_value_ord s1 (val (u_ext (idx_j this)) i)))
                 (dx u i)) (val v i)))
            (Ord.mul (Ord.mul (Ord.mul
               (Ord.scale (const_coeff2 this)
                  (CubicSpline.get_derivative_ord s2 (val (u_ext (idx_j this)) i)))
               (val u i)) (dy (u_ext (idx_j this)) i)) (val v i)))
          (Ord.mul (Ord.mul
             (Ord.scale (const_coeff2 this)
                (CubicSpline.get_value_ord s2 (val (u_ext (idx_j this)) i)))
             (dy u i)) (val v i)))))) (Ord.of_int 0).

Definition clone (this : t) : t := this.

End WithScalar.
Arguments t Scalar : clear implicits.
End DefaultJacobianAdvection.

(** ** [DefaultVectorFormVol] *)
Module DefaultVectorFormVol.
Section WithScalar.
Context `{ScalarOps Scalar}.

Record t := {
  base : VectorFormVol;
  const_coeff : Scalar;
  function_coeff : ptr;
  gt : GeomType
}.

Definition set_function_coeff (this : t) (p : ptr) : t :=
  {| base := base this; const_coeff := const_coeff this;
     function_coeff := p; gt := gt this |}.

Definition ctor_body (this : t) (f_coeff : ptr) (h : gmap nat (DefaultFunction.t Scalar))
  : t * gmap nat (DefaultFunction.t Scalar) :=
  if decide (f_coeff = HERMES_DEFAULT_FUNCTION)
  then let '(a, h') := new (DefaultFunction.const one) h in
       (set_function_coeff this (Addr a), h')
  else (this, h).

(** [DefaultVectorFormVol(i, area, const_coeff, f_coeff, gt)]. *)
Definition ctor_area (i : Z) (area : string) (const_coeff : Scalar)
    (f_coeff : ptr) (gt : GeomType)
    (h : gmap nat (DefaultFunction.t Scalar)) :=
  ctor_body {| base := {| vfv_i := i; vfv_areas := [area] |};
               const_coeff := const_coeff; function_coeff := f_coeff; gt := gt |}
            f_coeff h.

(** [DefaultVectorFormVol(i, areas, const_coeff, f_coeff, gt)]. *)
Definition ctor_areas (i : Z) (areas : list string) (const_coeff : Scalar)
    (f_coeff : ptr) (gt : GeomType)
    (h : gmap nat (DefaultFunction.t Scalar)) :=
  ctor_body {| base := {| vfv_i := i; vfv_areas := areas |};
               const_coeff := const_coeff; function_coeff := f_coeff; gt := gt |}
            f_coeff h.

(** [~DefaultVectorFormVol()]. *)
Definition dtor (this : t) (h : gmap nat (DefaultFunction.t Scalar))
  : option (gmap nat (DefaultFunction.t Scalar)) :=
  if decide (function_coeff this <> HERMES_DEFAULT_FUNCTION)
  then delete_obj (function_coeff this) h
  else Some h.

(** [value(n, wt, u_ext, v, e, ext)]. *)
Definition value (h : gmap nat (DefaultFunction.t Scalar)) (this : t)
    (n : Z) (wt : array Scalar) (u_ext : Z -> Func Scalar)
    (v : Func Scalar) (e : Geom Scalar) : option Scalar :=
  let fc := deref h (function_coeff this) in
  result ←
    match gt this with
    | HERMES_PLANAR =>
        for_upto_m n (fun i result => f ← fc;
          Some (result + wt i * DefaultFunction.value f (x e i) (y e i) * val v i)%sc) zero
    | HERMES_AXISYM_X =>
        for_upto_m n (fun i result => f ← fc;
          Some (result + wt i * y e i * DefaultFunction.value f (x e i) (y e i) * val v i)%sc) zero
    | HERMES_AXISYM_Y =>
        for_upto_m n (fun i result => f ← fc;
          Some (result + wt i * x e i * DefaultFunction.value f (x e i) (y e i) * val v i)%sc) zero
    end;
  Some (const_coeff this * result)%sc.

(** [ord(n, wt, u_ext, v, e, ext)]: the loops of [value] on orders;
    the result is returned without the constant. *)
Definition ord (h : gmap nat (DefaultFunction.t Scalar)) (this : t)
    (n : Z) (wt : array Scalar) (u_ext : Z -> Func Ord.t)
    (v : Func Ord.t) (e : Geom Ord.t) : option Ord.t :=
  let fc := deref h (function_coeff this) in
  match gt this with
  | HERMES_PLANAR =>
      for_upto_m n (fun i result => f ← fc;
        Some (Ord.add result
          (Ord.mul (Ord.scale (wt i) (DefaultFunction.ord f (x e i) (y e i))) (val v i)))) (Ord.of_int 0)
  | HERMES_AXISYM_X =>
      for_upto_m n (fun i result => f ← fc;
        Some (Ord.add result
          (Ord.mul (Ord.mul (Ord.scale (wt i) (y e i)) (DefaultFunction.ord f (x e i) (y e i))) (val v i)))) (Ord.of_int 0)
  | HERMES_AXISYM_Y =>
      for_upto_m n (fun i result => f ← fc;
        Some (Ord.add result
          (Ord.mul (Ord.mul (Ord.scale (wt i) (x e i)) (DefaultFunction.ord f (x e i) (y e i))) (val v i)))) (Ord.of_int 0)
  end.

(** The term in another geometry mode. *)
Definition with_gt (this : t) (g : GeomType) : t :=
  {| base := base this; const_coeff := const_coeff this;
     function_coeff := function_coeff this; gt := g |}.

Definition clone (this : t) : t := this.

End WithScalar.
Arguments t Scalar : clear implicits.
End DefaultVectorFormVol.

(** ** [DefaultResidualVol] *)
Module DefaultResidualVol.
Section WithScalar.
Context `{ScalarOps Scalar}.

Record t := {
  base : VectorFormVol;
  idx_i : Z;
  const_coeff : Scalar;
  function_coeff : ptr;
  gt : GeomType
}.

Definition set_function_coeff (this : t) (p : ptr) : t :=
  {| base := base this; idx_i := idx_i this; const_coeff := const_coeff this;
     function_coeff := p; gt := gt this |}.

Definition ctor_body (this : t) (f_coeff : ptr) (h : gmap nat (DefaultFunction.t Scalar))
  : t * gmap nat (DefaultFunction.t Scalar) :=
  if decide (f_coeff = HERMES_DEFAULT_FUNCTION)
  then let '(a, h') := new (DefaultFunction.const one) h in
       (set_function_coeff this (Addr a), h')
  else (this, h).

(** [DefaultResidualVol(i, area, const_coeff, f_coeff, gt)]. *)
Definition ctor_area (i : Z) (area : string) (const_coeff : Scalar)
    (f_coeff : ptr) (gt : GeomType)
    (h : gmap nat (DefaultFunction.t Scalar)) :=
  ctor_body {| base := {| vfv_i := i; vfv_areas := [area] |}; idx_i := i;
               const_coeff := const_coeff; function_coeff := f_coeff; gt := gt |}
            f_coeff h.

(** [DefaultResidualVol(i, areas, const_coeff, f_coeff, gt)]. *)
Definition ctor_areas (i : Z) (areas : list string) (const_coeff : Scalar)
    (f_coeff : ptr) (gt : GeomType)
    (h : gmap nat (DefaultFunction.t Scalar)) :=
  ctor_body {| base := {| vfv_i := i; vfv_areas := areas |}; idx_i := i;
               const_coeff := const_coeff; function_coeff := f_coeff; gt := gt |}
            f_coeff h.

(** [~DefaultResidualVol()]. *)
Definition dtor (this : t) (h : gmap nat (DefaultFunction.t Scalar))
  : option (gmap nat (DefaultFunction.t Scalar)) :=
  if decide (function_coeff this <> HERMES_DEFAULT_FUNCTION)
  then delete_obj (function_coeff this) h
  else Some h.

(** [value(n, wt, u_ext, v, e, ext)]. *)
Definition value (h : gmap nat (DefaultFunction.t Scalar)) (this : t)
    (n : Z) (wt : array Scalar) (u_ext : Z -> Func Scalar)
    (v : Func Scalar) (e : Geom Scalar) : option Scalar :=
  let fc := deref h (function_coeff this) in
  result ←
    match gt this with
    | HERMES_PLANAR =>
        for_upto_m n (fun i result => f ← fc;
          Some (result + wt i * DefaultFunction.value f (x e i) (y e i) * val (u_ext (idx_i this)) i * val v i)%sc) zero
    | HERMES_AXISYM_X =>
        for_upto_m n (fun i result => f ← fc;
          Some (result + wt i * y e i * DefaultFunction.value f (x e i) (y e i) * val (u_ext (idx_i this)) i * val v i)%sc) zero
    | HERMES_AXISYM_Y =>
        for_upto_m n (fun i result => f ← fc;
          Some (result + wt i * x e i * DefaultFunction.value f (x e i) (y e i) * val (u_ext (idx_i this)) i * val v i)%sc) zero
    end;
  Some (const_coeff this * result)%sc.

(** [ord(n, wt, u_ext, v, e, ext)]: the loops of [value] on orders;
    the result is returned without the constant. *)
Definition ord (h : gmap nat (DefaultFunction.t Scalar)) (this : t)
    (n : Z) (wt : array Scalar) (u_ext : Z -> Func Ord.t)
    (v : Func Ord.t) (e : Geom Ord.t) : option Ord.t :=
  let fc := deref h (function_coeff this) in
  match gt this with
  | HERMES_PLANAR =>
      for_upto_m n (fun i result => f ← fc;
        Some (Ord.add result
          (Ord.mul (Ord.mul (Ord.scale (wt i) (DefaultFunction.ord f (x e i) (y e i))) (val (u_ext (idx_i this)) i)) (val v i)))) (Ord.of_int 0)
  | HERMES_AXISYM_X =>
      for_upto_m n (fun i result => f ← fc;
        Some (Ord.add result
          (Ord.mul (Ord.mul (Ord.mul (Ord.scale (wt i) (y e i)) (DefaultFunction.ord f (x e i) (y e i))) (val (u_ext (idx_i this)) i)) (val v i)))) (Ord.of_int 0)
  | HERMES_AXISYM_Y =>
      for_upto_m n (fun i result => f ← fc;
        Some (Ord.add result
          (Ord.mul (Ord.mul (Ord.mul (Ord.scale (wt i) (x e i)) (DefaultFunction.ord f (x e i) (y e i))) (val (u_ext (idx_i this)) i)) (val v i)))) (Ord.of_int 0)
  end.

(** The term in another geometry mode. *)
Definition with_gt (this : t) (g : GeomType) : t :=
  {| base := base this; idx_i := idx_i this; const_coeff := const_coeff this;
     function_coeff := function_coeff this; gt := g |}.

Definition clone (this : t) : t := this.

End WithScalar.
Arguments t Scalar : clear implicits.
End DefaultResidualVol.

(** ** [DefaultResidualDiffusion] *)
Module DefaultResidualDiffusion.
Section WithScalar.
Context `{ScalarOps Scalar}.

Record t := {
  base : VectorFormVol;
  idx_i : Z;
  const_coeff : Scalar;
  spline_coeff : ptr;
  gt : GeomType
}.

Definition set_spline_coeff (this : t) (p : ptr) : t :=
  {| base := base this; idx_i := idx_i this; const_coeff := const_coeff this;
     spline_coeff := p; gt := gt this |}.

Definition ctor_body (this : t) (c_spline : ptr) (h : gmap nat (CubicSpline.t Scalar))
  : t * gmap nat (CubicSpline.t Scalar) :=
  if decide (c_spline = HERMES_DEFAULT_SPLINE)
  then let '(a, h') := new (CubicSpline.const one) h in
       (set_spline_coeff this (Addr a), h')
  else (this, h).

(** [DefaultResidualDiffusion(i, area, const_coeff, c_spline, gt)]. *)
Definition ctor_area (i : Z) (area : string) (const_coeff : Scalar)
    (c_spline : ptr) (gt : GeomType)
    (h : gmap nat (CubicSpline.t Scalar)) :=
  ctor_body {| base := {| vfv_i := i; vfv_areas := [area] |}; idx_i := i;
               const_coeff := const_coeff; spline_coeff := c_spline; gt := gt |}
            c_spline h.

(** [DefaultResidualDiffusion(i, areas, const_coeff, c_spline, gt)]. *)
Definition ctor_areas (i : Z) (areas : list string) (const_coeff : Scalar)
    (c_spline : ptr) (gt : GeomType)
    (h : gmap nat (CubicSpline.t Scalar)) :=
  ctor_body {| base := {| vfv_i := i; vfv_areas := areas |}; idx_i := i;
               const_coeff := const_coeff; spline_coeff := c_spline; gt := gt |}
            c_spline h.

(** [~DefaultResidualDiffusion()]. *)
Definition dtor (this : t) (h : gmap nat (CubicSpline.t Scalar))
  : option (gmap nat (CubicSpline.t Scalar)) :=
  if decide (spline_coeff this <> HERMES_DEFAULT_SPLINE)
  then delete_obj (spline_coeff this) h
  else Some h.

(** [value(n, wt, u_ext, v, e, ext)]. *)
Definition value (h : gmap nat (CubicSpline.t Scalar)) (this : t)
    (n : Z) (wt : array Scalar) (u_ext : Z -> Func Scalar)
    (v : Func Scalar) (e : Geom Scalar) : option Scalar :=
  let sc := deref h (spline_coeff this) in
  match gt this with
  | HERMES_PLANAR =>
      for_upto_m n (fun i result => s ← sc;
        Some (result + wt i * const_coeff this
                * CubicSpline.get_value s (val (u_ext (idx_i this)) i)
                * (dx (u_ext (idx_i this)) i * dx v i + dy (u_ext (idx_i this)) i * dy v i))%sc) zero
  | HERMES_AXISYM_X =>
      for_upto_m n (fun i result => s ← sc;
        Some (result + wt i * y e i * const_coeff this
                * CubicSpline.get_value s (val (u_ext (idx_i this)) i)
                * (dx (u_ext (idx_i this)) i * dx v i + dy (u_ext (idx_i this)) i * dy v i))%sc) zero
  | HERMES_AXISYM_Y =>
      for_upto_m n (fun i result => s ← sc;
        Some (result + wt i * x e i * const_coeff this
                * CubicSpline.get_value s (val (u_ext (idx_i this)) i)
                * (dx (u_ext (idx_i this)) i * dx v i + dy (u_ext (idx_i this)) i * dy v i))%sc) zero
  end.

(** [ord(n, wt, u_ext, v, e, ext)]: the samples are orders; the weight and
    the constant are still floating-point numbers. *)
Definition ord (h : gmap nat (CubicSpline.t Scalar)) (this : t)
    (n : Z) (wt : array Scalar) (u_ext : Z -> Func Ord.t)
    (v : Func Ord.t) (e : Geom Ord.t) : option Ord.t :=
  let sc := deref h (spline_coeff this) in
  result ←
    for_upto_m n (fun i result => s ← sc;
      Some (Ord.add result
        (Ord.mul
           (Ord.scale (wt i * const_coeff this)%sc
              (CubicSpline.get_value_ord s (val (u_ext (idx_i this)) i)))
           (Ord.add (Ord.mul (dx (u_ext (idx_i this)) i) (dx v i))
                    (Ord.mul (dy (u_ext (idx_i this)) i) (dy v i)))))) (Ord.of_int 0);
  Some (if decide (gt this <> HERMES_PLANAR) then Ord.mul result (Ord.of_int 1) else result).

(** The term in another geometry mode. *)
Definition with_gt (this : t) (g : GeomType) : t :=
  {| base := base this; idx_i := idx_i this; const_coeff := const_coeff this;
     spline_coeff := spline_coeff this; gt := g |}.

Definition clone (this : t) : t := this.

End WithScalar.
Arguments t Scalar : clear implicits.
End DefaultResidualDiffusion.

(** ** [DefaultResidualAdvection] *)
Module DefaultResidualAdvection.
Section WithScalar.
Context `{ScalarOps Scalar}.

Record t := {
  base : VectorFormVol;
  idx_i : Z;
  const_coeff1 : Scalar;
  const_coeff2 : Scalar;
  spline_coeff1 : ptr;
  spline_coeff2 : ptr;
  gt : GeomType
}.

Definition set_spline_coeff1 (this : t) (p : ptr) : t :=
  {| base := base this; idx_i := idx_i this;
     const_coeff1 := const_coeff1 this; const_coeff2 := const_coeff2 this;
     spline_coeff1 := p; spline_coeff2 := spline_coeff2 this; gt := gt this |}.

Definition set_spline_coeff2 (this : t) (p : ptr) : t :=
  {| base := base this; idx_i := idx_i this;
     const_coeff1 := const_coeff1 this; const_coeff2 := const_coeff2 this;
     spline_coeff1 := spline_coeff1 this; spline_coeff2 := p; gt := gt this |}.

Definition ctor_body (this : t) (c_spline1 c_spline2 : ptr) (gt : GeomType)
    (h : gmap nat (CubicSpline.t Scalar))
  : result (t * gmap nat (CubicSpline.t Scalar)) :=
  if decide (gt <> HERMES_PLANAR)
  then error "Axisymmetric advection forms not implemented yet."
  else
    let '(this, h) :=
      if decide (c_spline1 = HERMES_DEFAULT_SPLINE)
      then let '(a, h') := new (CubicSpline.const one) h in
           (set_spline_coeff1 this (Addr a), h')
      else (this, h) in
    let '(this, h) :=
      if decide (c_spline2 = HERMES_DEFAULT_SPLINE)
      then let '(a, h') := new (CubicSpline.const one) h in
           (set_spline_coeff2 this (Addr a), h')
      else (this, h) in
    Ok (this, h).

(** [DefaultResidualAdvection(i, area, const_coeff1, const_coeff2,
    c_spline1, c_spline2, gt)]. *)
Definition ctor_area (i : Z) (area : string) (const_coeff1 const_coeff2 : Scalar)
    (c_spline1 c_spline2 : ptr) (gt : GeomType)
    (h : gmap nat (CubicSpline.t Scalar)) :=
  ctor_body {| base := {| vfv_i := i; vfv_areas := [area] |};
               idx_i := i; const_coeff1 := const_coeff1; const_coeff2 := const_coeff2;
               spline_coeff1 := c_spline1; spline_coeff2 := c_spline2; gt := gt |}
            c_spline1 c_spline2 gt h.

(** [DefaultResidualAdvection(i, areas, const_coeff1, const_coeff2,
    c_spline1, c_spline2, gt)].  As in [DefaultJacobianAdvection], the
    initialisers read [spline_coeff1(spline_coeff1),
    spline_coeff2(spline_coeff2)]: the members keep the content [raw] of the
    storage before construction. *)
Definition ctor_areas (raw : t) (i : Z) (areas : list string)
    (const_coeff1 const_coeff2 : Scalar)
    (c_spline1 c_spline2 : ptr) (gt : GeomType)
    (h : gmap nat (CubicSpline.t Scalar)) :=
  ctor_body {| base := {| vfv_i := i; vfv_areas := areas |};
               idx_i := i; const_coeff1 := const_coeff1; const_coeff2 := const_coeff2;
               spline_coeff1 := spline_coeff1 raw; spline_coeff2 := spline_coeff2 raw;
               gt := gt |}
            c_spline1 c_spline2 gt h.

(** [~DefaultResidualAdvection()]. *)
Definition dtor (this : t) (h : gmap nat (CubicSpline.t Scalar))
  : option (gmap nat (CubicSpline.t Scalar)) :=
  h ← (if decide (spline_coeff1 this <> HERMES_DEFAULT_SPLINE)
       then delete_obj (spline_coeff1 this) h else Some h);
  if decide (spline_coeff2 this <> HERMES_DEFAULT_SPLINE)
  then delete_obj (spline_coeff2 this) h else Some h.

(** [value(n, wt, u_ext, v, e, ext)]. *)
Definition value (h : gmap nat (CubicSpline.t Scalar)) (this : t)
    (n : Z) (wt : array Scalar) (u_ext : Z -> Func Scalar)
    (v : Func Scalar) (e : Geom Scalar) : option Scalar :=
  let sc1 := deref h (spline_coeff1 this) in
  let sc2 := deref h (spline_coeff2 this) in
  let u_prev := u_ext (idx_i this) in
  for_upto_m n (fun i result => s1 ← sc1; s2 ← sc2;
    Some (result + wt i *
      (const_coeff1 this * CubicSpline.get_value s1 (val u_prev i) * (dx u_prev i * val v i)
       + const_coeff2 this * CubicSpline.get_value s2 (val u_prev i) * (dy u_prev i * val v i)))%sc) zero.

Definition clone (this : t) : t := this.

End WithScalar.
Arguments t Scalar : clear implicits.
End DefaultResidualAdvection.

(** ** [DefaultMatrixFormSurf] *)
Module DefaultMatrixFormSurf.
Section WithScalar.
Context `{ScalarOps Scalar}.

Record t := {
  base : MatrixFormSurf;
  const_coeff : Scalar;
  function_coeff : ptr;
  gt : GeomType
}.

Definition set_function_coeff (this : t) (p : ptr) : t :=
  {| base := base this; const_coeff := const_coeff this;
     function_coeff := p; gt := gt this |}.

Definition ctor_body (this : t) (f_coeff : ptr) (h : gmap nat (DefaultFunction.t Scalar))
  : t * gmap nat (DefaultFunction.t Scalar) :=
  if decide (f_coeff = HERMES_DEFAULT_FUNCTION)
  then let '(a, h') := new (DefaultFunction.const one) h in
       (set_function_coeff this (Addr a), h')
  else (this, h).

(** [DefaultMatrixFormSurf(i, j, area, const_coeff, f_coeff, gt)]. *)
Definition ctor_area (i j : Z) (area : string) (const_coeff : Scalar)
    (f_coeff : ptr) (gt : GeomType)
    (h : gmap nat (DefaultFunction.t Scalar)) :=
  ctor_body {| base := {| mfs_i := i; mfs_j := j; mfs_areas := [area] |};
               const_coeff := const_coeff; function_coeff := f_coeff; gt := gt |}
            f_coeff h.

(** [DefaultMatrixFormSurf(i, j, areas, const_coeff, f_coeff, gt)]. *)
Definition ctor_areas (i j : Z) (areas : list string) (const_coeff : Scalar)
    (f_coeff : ptr) (gt : GeomType)
    (h : gmap nat (DefaultFunction.t Scalar)) :=
  ctor_body {| base := {| mfs_i := i; mfs_j := j; mfs_areas := areas |};
               const_coeff := const_coeff; function_coeff := f_coeff; gt := gt |}
            f_coeff h.

(** [~DefaultMatrixFormSurf()]. *)
Definition dtor (this : t) (h : gmap nat (DefaultFunction.t Scalar))
  : option (gmap nat (DefaultFunction.t Scalar)) :=
  if decide (function_coeff this <> HERMES_DEFAULT_FUNCTION)
  then delete_obj (function_coeff this) h
  else Some h.

(** [value(n, wt, u_ext, u, v, e, ext)]. *)
Definition value (h : gmap nat (DefaultFunction.t Scalar)) (this : t)
    (n : Z) (wt : array Scalar) (u_ext : Z -> Func Scalar)
    (u v : Func Scalar) (e : Geom Scalar) : option Scalar :=
  let fc := deref h (function_coeff this) in
  result ←
    match gt this with
    | HERMES_PLANAR =>
        for_upto_m n (fun i result => f ← fc;
          Some (result + wt i * DefaultFunction.value f (x e i) (y e i) * val u i * val v i)%sc) zero
    | HERMES_AXISYM_X =>
        for_upto_m n (fun i result => f ← fc;
          Some (result + wt i * y e i * DefaultFunction.value f (x e i) (y e i) * val u i * val v i)%sc) zero
    | HERMES_AXISYM_Y =>
        for_upto_m n (fun i result => f ← fc;
          Some (result + wt i * x e i * DefaultFunction.value f (x e i) (y e i) * val u i * val v i)%sc) zero
    end;
  Some (const_coeff this * result)%sc.

(** [ord(n, wt, u_ext, u, v, e, ext)]: the loops of [value] on orders;
    the result is returned without the constant. *)
Definition ord (h : gmap nat (DefaultFunction.t Scalar)) (this : t)
    (n : Z) (wt : array Scalar) (u_ext : Z -> Func Ord.t)
    (u v : Func Ord.t) (e : Geom Ord.t) : option Ord.t :=
  let fc := deref h (function_coeff this) in
  match gt this with
  | HERMES_PLANAR =>
      for_upto_m n (fun i result => f ← fc;
        Some (Ord.add result
          (Ord.mul (Ord.mul (Ord.scale (wt i) (DefaultFunction.ord f (x e i) (y e i))) (val u i)) (val v i)))) (Ord.of_int 0)
  | HERMES_AXISYM_X =>
      for_upto_m n (fun i result => f ← fc;
        Some (Ord.add result
          (Ord.mul (Ord.mul (Ord.mul (Ord.scale (wt i) (y e i)) (DefaultFunction.ord f (x e i) (y e i))) (val u i)) (val v i)))) (Ord.of_int 0)
  | HERMES_AXISYM_Y =>
      for_upto_m n (fun i result => f ← fc;
        Some (Ord.add result
          (Ord.mul (Ord.mul (Ord.mul (Ord.scale (wt i) (x e i)) (DefaultFunction.ord f (x e i) (y e i))) (val u i)) (val v i)))) (Ord.of_int 0)
  end.

(** The term in another geometry mode. *)
Definition with_gt (this : t) (g : GeomType) : t :=
  {| base := base this; const_coeff := const_coeff this;
     function_coeff := function_coeff this; gt := g |}.

Definition clone (this : t) : t := this.

End WithScalar.
Arguments t Scalar : clear implicits.
End DefaultMatrixFormSurf.

(** ** [DefaultJacobianFormSurf] *)
Module DefaultJacobianFormSurf.
Section WithScalar.
Context `{ScalarOps Scalar}.

Record t := {
  base : MatrixFormSurf;
  idx_j : Z;
  const_coeff : Scalar;
  spline_coeff : ptr;
  gt : GeomType
}.

Definition set_spline_coeff (this : t) (p : ptr) : t :=
  {| base := base this; idx_j := idx_j this; const_coeff := const_coeff this;
     spline_coeff := p; gt := gt this |}.

Definition ctor_body (this : t) (c_spline : ptr) (h : gmap nat (CubicSpline.t Scalar))
  : t * gmap nat (CubicSpline.t Scalar) :=
  if decide (c_spline = HERMES_DEFAULT_SPLINE)
  then let '(a, h') := new (CubicSpline.const one) h in
       (set_spline_coeff this (Addr a), h')
  else (this, h).

(** [DefaultJacobianFormSurf(i, j, area, const_coeff, c_spline, gt)]. *)
Definition ctor_area (i j : Z) (area : string) (const_coeff : Scalar)
    (c_spline : ptr) (gt : GeomType)
    (h : gmap nat (CubicSpline.t Scalar)) :=
  ctor_body {| base := {| mfs_i := i; mfs_j := j; mfs_areas := [area] |};
               idx_j := j; const_coeff := const_coeff; spline_coeff := c_spline; gt := gt |}
            c_spline h.

(** [DefaultJacobianFormSurf(i, j, areas, const_coeff, c_spline, gt)].
    The initialisers are [const_coeff(const_coeff),
    spline_coeff(spline_coeff), gt(gt)]: [idx_j] has no initialiser and
    [spline_coeff] is initialised from itself, so both keep the content
    [raw] of the storage before construction. *)
Definition ctor_areas (raw : t) (i j : Z) (areas : list string) (const_coeff : Scalar)
    (c_spline : ptr) (gt : GeomType)
    (h : gmap nat (CubicSpline.t Scalar)) :=
  ctor_body {| base := {| mfs_i := i; mfs_j := j; mfs_areas := areas |};
               idx_j := idx_j raw; const_coeff := const_coeff;
               spline_coeff := spline_coeff raw; gt := gt |}
            c_spline h.

(** [~DefaultJacobianFormSurf()]. *)
Definition dtor (this : t) (h : gmap nat (CubicSpline.t Scalar))
  : option (gmap nat (CubicSpline.t Scalar)) :=
  if decide (spline_coeff this <> HERMES_DEFAULT_SPLINE)
  then delete_obj (spline_coeff this) h
  else Some h.

(** [value(n, wt, u_ext, u, v, e, ext)]: one loop, whatever [gt] is. *)
Definition value (h : gmap nat (CubicSpline.t Scalar)) (this : t)
    (n : Z) (wt : array Scalar) (u_ext : Z -> Func Scalar)
    (u v : Func Scalar) (e : Geom Scalar) : option Scalar :=
  let sc := deref h (spline_coeff this) in
  for_upto_m n (fun i result => s ← sc;
    Some (result + wt i *
      (const_coeff this * CubicSpline.get_derivative s (val (u_ext (idx_j this)) i)
         * val (u_ext (idx_j this)) i
       + const_coeff this * CubicSpline.get_value s (val (u_ext (idx_j this)) i))
      * val u i * val v i)%sc) zero.

(** [ord(n, wt, u_ext, u, v, e, ext)]: the loop of [value] on orders. *)
Definition ord (h : gmap nat (CubicSpline.t Scalar)) (this : t)
    (n : Z) (wt : array Scalar) (u_ext : Z -> Func Ord.t)
    (u v : Func Ord.t) (e : Geom Ord.t) : option Ord.t :=
  let sc := deref h (spline_coeff this) in
  for_upto_m n (fun i result => s ← sc;
    Some (Ord.add result
      (Ord.mul (Ord.mul
        (Ord.scale (wt i)
          (Ord.add
            (Ord.mul
               (Ord.scale (const_coeff this)
                  (CubicSpline.get_derivative_ord s (val (u_ext (idx_j this)) i)))
               (val (u_ext (idx_j this)) i))
            (Ord.scale (const_coeff this)
               (CubicSpline.get_value_ord s (val (u_ext (idx_j this)) i)))))
        (val u i)) (val v i)))) (Ord.of_int 0).

Definition clone (this : t) : t := this.

End WithScalar.
Arguments t Scalar : clear implicits.
End DefaultJacobianFormSurf.

(** ** [DefaultVectorFormSurf] *)
Module DefaultVectorFormSurf.
Section WithScalar.
Context `{ScalarOps Scalar}.

Record t := {
  base : VectorFormSurf;
  const_coeff : Scalar;
  function_coeff : ptr;
  gt : GeomType
}.

Definition set_function_coeff (this : t) (p : ptr) : t :=
  {| base := base this; const_coeff := const_coeff this;
     function_coeff := p; gt := gt this |}.

Definition ctor_body (this : t) (f_coeff : ptr) (h : gmap nat (DefaultFunction.t Scalar))
  : t * gmap nat (DefaultFunction.t Scalar) :=
  if decide (f_coeff = HERMES_DEFAULT_FUNCTION)
  then let '(a, h') := new (DefaultFunction.const one) h in
       (set_function_coeff this (Addr a), h')
  else (this, h).

(** [DefaultVectorFormSurf(i, area, const_coeff, f_coeff, gt)]. *)
Definition ctor_area (i : Z) (area : string) (const_coeff : Scalar)
    (f_coeff : ptr) (gt : GeomType)
    (h : gmap nat (DefaultFunction.t Scalar)) :=
  ctor_body {| base := {| vfs_i := i; vfs_areas := [area] |};
               const_coeff := const_coeff; function_coeff := f_coeff; gt := gt |}
            f_coeff h.

(** [DefaultVectorFormSurf(i, areas, const_coeff, f_coeff, gt)]. *)
Definition ctor_areas (i : Z) (areas : list string) (const_coeff : Scalar)
    (f_coeff : ptr) (gt : GeomType)
    (h : gmap nat (DefaultFunction.t Scalar)) :=
  ctor_body {| base := {| vfs_i := i; vfs_areas := areas |};
               const_coeff := const_coeff; function_coeff := f_coeff; gt := gt |}
            f_coeff h.

(** [~DefaultVectorFormSurf()]. *)
Definition dtor (this : t) (h : gmap nat (DefaultFunction.t Scalar))
  : option (gmap nat (DefaultFunction.t Scalar)) :=
  if decide (function_coeff this <> HERMES_DEFAULT_FUNCTION)
  then delete_obj (function_coeff this) h
  else Some h.

(** [value(n, wt, u_ext, v, e, ext)]. *)
Definition value (h : gmap nat (DefaultFunction.t Scalar)) (this : t)
    (n : Z) (wt : array Scalar) (u_ext : Z -> Func Scalar)
    (v : Func Scalar) (e : Geom Scalar) : option Scalar :=
  let fc := deref h (function_coeff this) in
  result ←
    match gt this with
    | HERMES_PLANAR =>
        for_upto_m n (fun i result => f ← fc;
          Some (result + wt i * DefaultFunction.value f (x e i) (y e i) * val v i)%sc) zero
    | HERMES_AXISYM_X =>
        for_upto_m n (fun i result => f ← fc;
          Some (result + wt i * y e i * DefaultFunction.value f (x e i) (y e i) * val v i)%sc) zero
    | HERMES_AXISYM_Y =>
        for_upto_m n (fun i result => f ← fc;
          Some (result + wt i * x e i * DefaultFunction.value f (x e i) (y e i) * val v i)%sc) zero
    end;
  Some (const_coeff this * result)%sc.

(** [ord(n, wt, u_ext, v, e, ext)]: the loops of [value] on orders;
    the result is returned without the constant. *)
Definition ord (h : gmap nat (DefaultFunction.t Scalar)) (this : t)
    (n : Z) (wt : array Scalar) (u_ext : Z -> Func Ord.t)
    (v : Func Ord.t) (e : Geom Ord.t) : option Ord.t :=
  let fc := deref h (function_coeff this) in
  match gt this with
  | HERMES_PLANAR =>
      for_upto_m n (fun i result => f ← fc;
        Some (Ord.add result
          (Ord.mul (Ord.scale (wt i) (DefaultFunction.ord f (x e i) (y e i))) (val v i)))) (Ord.of_int 0)
  | HERMES_AXISYM_X =>
      for_upto_m n (fun i result => f ← fc;
        Some (Ord.add result
          (Ord.mul (Ord.mul (Ord.scale (wt i) (y e i)) (DefaultFunction.ord f (x e i) (y e i))) (val v i)))) (Ord.of_int 0)
  | HERMES_AXISYM_Y =>
      for_upto_m n (fun i result => f ← fc;
        Some (Ord.add result
          (Ord.mul (Ord.mul (Ord.scale (wt i) (x e i)) (DefaultFunction.ord f (x e i) (y e i))) (val v i)))) (Ord.of_int 0)
  end.

(** The term in another geometry mode. *)
Definition with_gt (this : t) (g : GeomType) : t :=
  {| base := base this; const_coeff := const_coeff this;
     function_coeff := function_coeff this; gt := g |}.

Definition clone (this : t) : t := this.

End WithScalar.
Arguments t Scalar : clear implicits.
End DefaultVectorFormSurf.

(** ** [DefaultResidualSurf] *)
Module DefaultResidualSurf.
Section WithScalar.
Context `{ScalarOps Scalar}.

Record t := {
  base : VectorFormSurf;
  idx_i : Z;
  const_coeff : Scalar;
  function_coeff : ptr;
  gt : GeomType
}.

Definition set_function_coeff (this : t) (p : ptr) : t :=
  {| base := base this; idx_i := idx_i this; const_coeff := const_coeff this;
     function_coeff := p; gt := gt this |}.

Definition ctor_body (this : t) (f_coeff : ptr) (h : gmap nat (DefaultFunction.t Scalar))
  : t * gmap nat (DefaultFunction.t Scalar) :=
  if decide (f_coeff = HERMES_DEFAULT_FUNCTION)
  then let '(a, h') := new (DefaultFunction.const one) h in
       (set_function_coeff this (Addr a), h')
  else (this, h).

(** [DefaultResidualSurf(i, area, const_coeff, f_coeff, gt)]. *)
Definition ctor_area (i : Z) (area : string) (const_coeff : Scalar)
    (f_coeff : ptr) (gt : GeomType)
    (h : gmap nat (DefaultFunction.t Scalar)) :=
  ctor_body {| base := {| vfs_i := i; vfs_areas := [area] |}; idx_i := i;
               const_coeff := const_coeff; function_coeff := f_coeff; gt := gt |}
            f_coeff h.

(** [DefaultResidualSurf(i, areas, const_coeff, f_coeff, gt)]. *)
Definition ctor_areas (i : Z) (areas : list string) (const_coeff : Scalar)
    (f_coeff : ptr) (gt : GeomType)
    (h : gmap nat (DefaultFunction.t Scalar)) :=
  ctor_body {| base := {| vfs_i := i; vfs_areas := areas |}; idx_i := i;
               const_coeff := const_coeff; function_coeff := f_coeff; gt := gt |}
            f_coeff h.

(** [~DefaultResidualSurf()]. *)
Definition dtor (this : t) (h : gmap nat (DefaultFunction.t Scalar))
  : option (gmap nat (DefaultFunction.t Scalar)) :=
  if decide (function_coeff this <> HERMES_DEFAULT_FUNCTION)
  then delete_obj (function_coeff this) h
  else Some h.

(** [value(n, wt, u_ext, v, e, ext)]. *)
Definition value (h : gmap nat (DefaultFunction.t Scalar)) (this : t)
    (n : Z) (wt : array Scalar) (u_ext : Z -> Func Scalar)
    (v : Func Scalar) (e : Geom Scalar) : option Scalar :=
  let fc := deref h (function_coeff this) in
  result ←
    match gt this with
    | HERMES_PLANAR =>
        for_upto_m n (fun i result => f ← fc;
          Some (result + wt i * DefaultFunction.value f (x e i) (y e i) * val (u_ext (idx_i this)) i * val v i)%sc) zero
    | HERMES_AXISYM_X =>
        for_upto_m n (fun i result => f ← fc;
          Some (result + wt i * y e i * DefaultFunction.value f (x e i) (y e i) * val (u_ext (idx_i this)) i * val v i)%sc) zero
    | HERMES_AXISYM_Y =>
        for_upto_m n (fun i result => f ← fc;
          Some (result + wt i * x e i * DefaultFunction.value f (x e i) (y e i) * val (u_ext (idx_i this)) i * val v i)%sc) zero
    end;
  Some (const_coeff this * result)%sc.

(** [ord(n, wt, u_ext, v, e, ext)]: the loops of [value] on orders;
    the result is returned without the constant. *)
Definition ord (h : gmap nat (DefaultFunction.t Scalar)) (this : t)
    (n : Z) (wt : array Scalar) (u_ext : Z -> Func Ord.t)
    (v : Func Ord.t) (e : Geom Ord.t) : option Ord.t :=
  let fc := deref h (function_coeff this) in
  match gt this with
  | HERMES_PLANAR =>
      for_upto_m n (fun i result => f ← fc;
        Some (Ord.add result
          (Ord.mul (Ord.mul (Ord.scale (wt i) (DefaultFunction.ord f (x e i) (y e i))) (val (u_ext (idx_i this)) i)) (val v i)))) (Ord.of_int 0)
  | HERMES_AXISYM_X =>
      for_upto_m n (fun i result => f ← fc;
        Some (Ord.add result
          (Ord.mul (Ord.mul (Ord.mul (Ord.scale (wt i) (y e i)) (DefaultFunction.ord f (x e i) (y e i))) (val (u_ext (idx_i this)) i)) (val v i)))) (Ord.of_int 0)
  | HERMES_AXISYM_Y =>
      for_upto_m n (fun i result => f ← fc;
        Some (Ord.add result
          (Ord.mul (Ord.mul (Ord.mul (Ord.scale (wt i) (x e i)) (DefaultFunction.ord f (x e i) (y e i))) (val (u_ext (idx_i this)) i)) (val v i)))) (Ord.of_int 0)
  end.

(** The term in another geometry mode. *)
Definition with_gt (this : t) (g : GeomType) : t :=
  {| base := base this; idx_i := idx_i this; const_coeff := const_coeff this;
     function_coeff := function_coeff this; gt := g |}.

Definition clone (this : t) : t := this.

End WithScalar.
Arguments t Scalar : clear implicits.
End DefaultResidualSurf.

(** ** [DefaultMultiComponentVectorFormSurf] *)

(** The integrals [int_v], [int_y_v] and [int_x_v] are declared outside the
    library file; they are parameters.  The base class holds the
    [coordinates]; [coeffs] is indexed by position, and reading it past its
    end is undefined. *)
Module DefaultMultiComponentVectorFormSurf.
Section WithScalar.
Context `{ScalarOps Scalar}.
Variable int_v : Z -> array Scalar -> Func Scalar -> Scalar.
Variable int_y_v : Z -> array Scalar -> Func Scalar -> Geom Scalar -> Scalar.
Variable int_x_v : Z -> array Scalar -> Func Scalar -> Geom Scalar -> Scalar.

Record t := {
  coordinates : list N;
  areas : list string;
  coeffs : list Scalar;
  gt : GeomType
}.

(** [DefaultMultiComponentVectorFormSurf(coordinates, area, coeffs, gt)]. *)
Definition ctor_area (coordinates : list N) (area : string) (coeffs : list Scalar)
    (gt : GeomType) : t :=
  {| coordinates := coordinates; areas := [area]; coeffs := coeffs; gt := gt |}.

(** [DefaultMultiComponentVectorFormSurf(coordinates, areas, coeffs, gt)]. *)
Definition ctor_areas (coordinates : list N) (areas : list string) (coeffs : list Scalar)
    (gt : GeomType) : t :=
  {| coordinates := coordinates; areas := areas; coeffs := coeffs; gt := gt |}.

(** The shared base integral of [value]. *)
Definition result_base (this : t) (n : Z) (wt : array Scalar) (v : Func Scalar)
    (e : Geom Scalar) : Scalar :=
  match gt this with
  | HERMES_PLANAR => int_v n wt v
  | HERMES_AXISYM_X => int_y_v n wt v e
  | HERMES_AXISYM_Y => int_x_v n wt v e
  end.

(** [value(n, wt, u_ext, v, e, ext, result)]: one [push_back] on the
    caller's vector [result] per coordinate. *)
Definition value (this : t) (n : Z) (wt : array Scalar) (u_ext : Z -> Func Scalar)
    (v : Func Scalar) (e : Geom Scalar) (result : list Scalar) : option (list Scalar) :=
  let result_base := result_base this n wt v e in
  for_upto_m (Z.of_nat (length (coordinates this)))
    (fun result_i result =>
       c ← coeffs this !! result_i;
       Some (result ++ [(result_base * c)%sc]))
    result.

End WithScalar.
Arguments t Scalar : clear implicits.
End DefaultMultiComponentVectorFormSurf.

(** ** Composite weak forms *)

(** [DefaultWeakFormLaplace(area, const_coeff, spline_coeff, gt)]: the
    forms it registers, in order.  Both terms are built from the same
    [spline_coeff] argument. *)
Module DefaultWeakFormLaplace.
Section WithScalar.
Context `{ScalarOps Scalar}.

Record t := {
  mfvol : list (DefaultJacobianDiffusion.t Scalar);
  vfvol : list (DefaultResidualDiffusion.t Scalar)
}.

Definition ctor (area : string) (const_coeff : Scalar) (spline_coeff : ptr)
    (gt : GeomType) (h : gmap nat (CubicSpline.t Scalar))
  : t * gmap nat (CubicSpline.t Scalar) :=
  let '(jac, h) :=
    DefaultJacobianDiffusion.ctor_area 0 0 area const_coeff spline_coeff HERMES_SYM gt h in
  let '(res, h) :=
    DefaultResidualDiffusion.ctor_area 0 area const_coeff spline_coeff gt h in
  ({| mfvol := [jac]; vfvol := [res] |}, h).

End WithScalar.
Arguments t Scalar : clear implicits.
End DefaultWeakFormLaplace.

(** * The Newton driver *)

(** The loop of [main].  Mesh, space, assembly, vector operations and the
    linear solver are collaborators declared outside the two files; they
    are the parameters of the section.  The mesh and the space are fixed,
    so assembly is a function of the coefficient vector. *)
Module Newton.

(** Return codes of [main]. *)
Inductive exit_code := ERR_SUCCESS | ERR_FAILURE.

Definition solver_failed_msg : string :=
  String.append "Matrix solver failed." (String (Ascii.ascii_of_nat 10) EmptyString).
Definition not_converged_msg : string := "Newton method did not converge.".

Section Driver.
Context `{ScalarOps Scalar}.

(** [SparseMatrix] contents. *)
Variable Matrix : Type.
(** [dp.assemble(coeff_vec, matrix, rhs, false)]: the Jacobian matrix and
    the residual vector at [coeff_vec]. *)
Variable assemble : array Scalar -> Matrix * array Scalar.
(** [rhs->change_sign()]. *)
Variable change_sign : array Scalar -> array Scalar.
(** [get_l2_norm(rhs)]. *)
Variable get_l2_norm : array Scalar -> Scalar.
(** [<] on [double]. *)
Variable lt : Scalar -> Scalar -> bool.
(** [solver->solve()] and [solver->get_solution()]: [None] when the solver
    returns [false], the solution vector otherwise. *)
Variable solve : Matrix -> array Scalar -> option (array Scalar).
(** [Space::get_num_dofs(&space)]. *)
Variable get_num_dofs : Z.
(** The constants [NEWTON_TOL] (1e-6) and [NEWTON_MAX_ITER] (7). *)
Variable NEWTON_TOL : Scalar.
Variable NEWTON_MAX_ITER : Z.

(** [a[i] = x]. *)
Definition array_set (a : array Scalar) (i : nat) (x0 : Scalar) : array Scalar :=
  fun k => if decide (k = i) then x0 else a k.

(** [for (int i = 0; i < ndof; i++) coeff_vec[i] += solver->get_solution()[i]]. *)
Definition add_correction (ndof : Z) (coeff_vec sln : array Scalar) : array Scalar :=
  for_upto ndof (fun i c => array_set c i (c i + sln i)%sc) coeff_vec.

(** The [while (1)] loop, entered with the current values of [it],
    [success] and [coeff_vec].  [Some (Ok _)] is leaving the loop by
    [break], [Some (Fatal _)] is a call of [error], [None] is running out of
    [fuel]. *)
Fixpoint newton_loop (fuel : nat) (it : Z) (success : bool) (coeff_vec : array Scalar)
  : option (result (Z * bool * array Scalar)) :=
  match fuel with
  | O => None
  | S fuel' =>
      let ndof := get_num_dofs in
      let '(matrix, rhs) := assemble coeff_vec in
      let rhs := change_sign rhs in
      let res_l2_norm := get_l2_norm rhs in
      if lt res_l2_norm NEWTON_TOL || (NEWTON_MAX_ITER <? it)
      then Some (Ok (it, success, coeff_vec))
      else
        match solve matrix rhs with
        | None => Some (error solver_failed_msg)
        | Some sln =>
            let success := true in
            let coeff_vec := add_correction ndof coeff_vec sln in
            if NEWTON_MAX_ITER <=? it
            then Some (error not_converged_msg)
            else newton_loop fuel' (it + 1) success coeff_vec
        end
  end.

(** [main], from the projected initial vector [coeff_vec] on: the loop,
    then [Solution::vector_to_solution] and the return code.  The field
    returned is the coefficient vector as the space interprets it. *)
Definition main (fuel : nat) (coeff_vec : array Scalar)
  : option (result (array Scalar * exit_code)) :=
  let it := 1 in
  let success := false in
  r ← newton_loop fuel it success coeff_vec;
  Some match r with
       | Fatal msg => Fatal msg
       | Ok (_, success, coeff_vec) =>
           Ok (coeff_vec, if success : bool then ERR_SUCCESS else ERR_FAILURE)
       end.

(** The convergence test at a coefficient vector. *)
Definition below_tolerance (coeff_vec : array Scalar) : bool :=
  lt (get_l2_norm (change_sign (snd (assemble coeff_vec)))) NEWTON_TOL.

(** One linear solve and update at a coefficient vector. *)
Definition newton_step (coeff_vec : array Scalar) : option (array Scalar) :=
  sln ← solve (fst (assemble coeff_vec)) (change_sign (snd (assemble coeff_vec)));
  Some (add_correction get_num_dofs coeff_vec sln).

(** The iterate after [k] solves, when they all succeed. *)
Fixpoint iterate (k : nat) (coeff_vec : array Scalar) : option (array Scalar) :=
  match k with
  | O => Some coeff_vec
  | S k' => newton_step coeff_vec ≫= iterate k'
  end.

(** The first [k] convergence tests fail and the first [k] solves succeed:
    the run reaches its test number [k + 1]. *)
Definition reaches_test (k : nat) (coeff_vec : array Scalar) : Prop :=
  forall j, (j < k)%nat ->
    exists c, iterate j coeff_vec = Some c /\ below_tolerance c = false /\
              is_Some (newton_step c).


End Driver.
End Newton.

(** * Formulas of the specification *)

Section SpecFormulas.
Context `{ScalarOps Scalar}.

(** The coefficient-linearisation piece at point [i]:
    [const_coeff * kappa'(u_prev) * u * (grad u_prev . grad v)]. *)
Definition linearization_term (c : Scalar) (kappa : CubicSpline.t Scalar)
    (u_prev u v : Func Scalar) (i : nat) : Scalar :=
  (c * CubicSpline.get_derivative kappa (val u_prev i) * val u i
   * (dx u_prev i * dx v i + dy u_prev i * dy v i))%sc.

(** The frozen-coefficient stiffness piece at point [i]:
    [const_coeff * kappa(u_prev) * (grad u . grad v)]. *)
Definition stiffness_term (c : Scalar) (kappa : CubicSpline.t Scalar)
    (u_prev u v : Func Scalar) (i : nat) : Scalar :=
  (c * CubicSpline.get_value kappa (val u_prev i)
   * (dx u i * dx v i + dy u i * dy v i))%sc.

(** The sum of the specification: over the [n] quadrature points, weight
    times geometry factor times integrand. *)
Definition weighted_sum (gt : GeomType) (n : Z) (wt : array Scalar) (e : Geom Scalar)
    (integrand : nat -> Scalar) : Scalar :=
  quad_sum n (fun i => (wt i * geometry_factor gt e i * integrand i)%sc).

(** The integrand of the surface Jacobian term at point [i]:
    [(const_coeff * kappa'(u_prev) * u_prev + const_coeff * kappa(u_prev)) * u * v]. *)
Definition surf_jacobian_integrand (c : Scalar) (kappa : CubicSpline.t Scalar)
    (u_prev u v : Func Scalar) (i : nat) : Scalar :=
  ((c * CubicSpline.get_derivative kappa (val u_prev i) * val u_prev i
    + c * CubicSpline.get_value kappa (val u_prev i)) * val u i * val v i)%sc.

(** The largest of [0] and [f 0 .. f (k-1)]: a sum in the degree
    algebra, started at degree 0. *)
Fixpoint max_below (k : nat) (f : nat -> Z) : Z :=
  match k with
  | O => 0
  | S k' => Z.max (max_below k' f) (f k')
  end.

(** The degree of the planar diffusion residual
    [weight * const_coeff * kappa(u_prev) * (grad u_prev . grad v)] summed
    over the [n] quadrature points: weight and constant have degree 0, a
    product adds degrees and a sum takes the larger. *)
Definition planar_residual_order (kappa : CubicSpline.t Scalar) (u_prev v : Func Ord.t)
    (n : Z) : Z :=
  max_below (Z.to_nat n) (fun i =>
    0 + Ord.order (CubicSpline.get_value_ord kappa (val u_prev i))
    + Z.max (Ord.order (dx u_prev i) + Ord.order (dx v i))
            (Ord.order (dy u_prev i) + Ord.order (dy v i))).

(** A term kind is homogeneous in its constant when, for every constant
    [c] and every point count [n], the term built with [c] evaluates to [c]
    times what the term built with 1 evaluates to, and to 0 on no points.
    [build c] is a constructor applied to [c], [eval] an evaluator applied to
    the other inputs. *)
Definition homogeneous {T St : Type} (build : Scalar -> T * St)
    (eval : St -> T -> Z -> option Scalar) : Prop :=
  forall c : Scalar,
    (forall n, eval (build c).2 (build c).1 n
               = (fun r => c * r)%sc <$> eval (build one).2 (build one).1 n)
    /\ eval (build c).2 (build c).1 0 = Some zero.

(** The same with the value on no points as the product of the constant
    and the empty sum, which is 0 where [c * 0 = 0]. *)
Definition scales_with_constant {T St : Type} (build : Scalar -> T * St)
    (eval : St -> T -> Z -> option Scalar) : Prop :=
  forall c : Scalar,
    (forall n, eval (build c).2 (build c).1 n
               = (fun r => c * r)%sc <$> eval (build one).2 (build one).1 n)
    /\ eval (build c).2 (build c).1 0 = Some (c * zero)%sc
    /\ ((c * zero)%sc = zero -> eval (build c).2 (build c).1 0 = Some zero).

End SpecFormulas.

(** * Formulas shared by the two evaluators *)

(** The arithmetic an evaluator is written in: how a floating-point
    number enters it, its sum and its product. *)
Record Algebra (Scalar Num : Type) := {
  inj : Scalar -> Num;
  nadd : Num -> Num -> Num;
  nmul : Num -> Num -> Num
}.
Arguments inj {Scalar Num}.
Arguments nadd {Scalar Num}.
Arguments nmul {Scalar Num}.

(** Floating-point numbers themselves, and orders. *)
Definition scalar_algebra `{ScalarOps Scalar} : Algebra Scalar Scalar :=
  {| inj := fun a => a; nadd := add; nmul := mul |}.

Definition order_algebra {Scalar : Type} : Algebra Scalar Ord.t :=
  {| inj := Ord.of_double; nadd := Ord.add; nmul := Ord.mul |}.

Section SharedFormulas.
Context {Scalar Num : Type} (A : Algebra Scalar Num).

(** Weight times geometry factor at point [i], as the three branches
    write it. *)
Definition weight_times_factor (g : GeomType) (wt : array Scalar) (e : Geom Num)
    (i : nat) : Num :=
  match g with
  | HERMES_PLANAR => inj A (wt i)
  | HERMES_AXISYM_X => nmul A (inj A (wt i)) (y e i)
  | HERMES_AXISYM_Y => nmul A (inj A (wt i)) (x e i)
  end.

(** Sum over the points, from [0], of the terms [f i]. *)
Definition algebra_sum (zero_ : Scalar) (n : Z) (f : nat -> Num) : Num :=
  for_upto n (fun i r => nadd A r (f i)) (inj A zero_).

(** The formula of the diffusion Jacobian: [kv] and [kd] are the
    coefficient and its derivative. *)
Definition jacobian_diffusion_formula (zero_ : Scalar) (kv kd : Num -> Num)
    (g : GeomType) (c : Scalar) (n : Z) (wt : array Scalar)
    (u_prev u v : Func Num) (e : Geom Num) : Num :=
  algebra_sum zero_ n (fun i =>
    nmul A (weight_times_factor g wt e i)
      (nadd A
         (nmul A (nmul A (nmul A (inj A c) (kd (val u_prev i))) (val u i))
            (nadd A (nmul A (dx u_prev i) (dx v i)) (nmul A (dy u_prev i) (dy v i))))
         (nmul A (nmul A (inj A c) (kv (val u_prev i)))
            (nadd A (nmul A (dx u i) (dx v i)) (nmul A (dy u i) (dy v i)))))).

(** The formula of the mass-like matrix terms, with coefficient [f] of the
    point: the sum, then the constant. *)
Definition matrix_form_formula (zero_ : Scalar) (f : Num -> Num -> Num)
    (g : GeomType) (c : Scalar) (n : Z) (wt : array Scalar)
    (u v : Func Num) (e : Geom Num) : Num :=
  nmul A (inj A c)
    (algebra_sum zero_ n (fun i =>
       nmul A (nmul A (nmul A (weight_times_factor g wt e i) (f (x e i) (y e i)))
                 (val u i)) (val v i))).

(** The formula of the load-like vector terms. *)
Definition vector_form_formula (zero_ : Scalar) (f : Num -> Num -> Num)
    (g : GeomType) (c : Scalar) (n : Z) (wt : array Scalar)
    (v : Func Num) (e : Geom Num) : Num :=
  nmul A (inj A c)
    (algebra_sum zero_ n (fun i =>
       nmul A (nmul A (weight_times_factor g wt e i) (f (x e i) (y e i))) (val v i))).

(** The formula of the surface Jacobian term. *)
Definition jacobian_surf_formula (zero_ : Scalar) (kv kd : Num -> Num)
    (c : Scalar) (n : Z) (wt : array Scalar) (u_prev u v : Func Num) : Num :=
  algebra_sum zero_ n (fun i =>
    nmul A
      (nmul A
         (nmul A (inj A (wt i))
            (nadd A
               (nmul A (nmul A (inj A c) (kd (val u_prev i))) (val u_prev i))
               (nmul A (inj A c) (kv (val u_prev i)))))
         (val u i))
      (val v i)).

(** The formula of the advection Jacobian, with the coefficients of the
    two directions. *)
Definition jacobian_advection_formula (zero_ : Scalar) (kv1 kd1 kv2 kd2 : Num -> Num)
    (c1 c2 : Scalar) (n : Z) (wt : array Scalar) (u_prev u v : Func Num) : Num :=
  algebra_sum zero_ n (fun i =>
    nmul A (inj A (wt i))
      (nadd A
         (nadd A
            (nadd A
               (nmul A (nmul A (nmul A (nmul A (inj A c1) (kd1 (val u_prev i))) (val u i))
                          (dx u_prev i)) (val v i))
               (nmul A (nmul A (nmul A (inj A c1) (kv1 (val u_prev i))) (dx u i)) (val v i)))
            (nmul A (nmul A (nmul A (nmul A (inj A c2) (kd2 (val u_prev i))) (val u i))
                       (dy u_prev i)) (val v i)))
         (nmul A (nmul A (nmul A (inj A c2) (kv2 (val u_prev i))) (dy u i)) (val v i)))).

End SharedFormulas.

(** * Construction and the store *)

(** What a constructor may do to the store: [h] is the store before, [r]
    the term and the store after, [coeff] reads the term's coefficient
    pointer and [arg] is the coefficient argument.  Objects already in the
    store stay; a caller-supplied pointer is kept and nothing is allocated;
    for the sentinel one object is allocated at an address that was free and
    the term points to it. *)
Definition construction_frame {T A : Type} (coeff : T -> ptr) (arg : ptr)
    (h : gmap nat A) (r : T * gmap nat A) : Prop :=
  (forall a o, h !! a = Some o -> r.2 !! a = Some o)
  /\ match arg with
     | Sentinel =>
         exists a, coeff r.1 = Addr a /\ h !! a = None /\ is_Some (r.2 !! a)
                   /\ forall b, b <> a -> r.2 !! b = h !! b
     | Addr _ => r.2 = h /\ coeff r.1 = arg
     end.

(** A construction result [r] from the store [h] owns two default
    splines: the term holds two different addresses that were free in [h],
    each now holds the constant spline 1, and the destructor gives [h] back. *)
Definition owns_two_defaults `{ScalarOps Scalar} {T : Type}
    (h : gmap nat (CubicSpline.t Scalar)) (coeff1 coeff2 : T -> ptr)
    (dtor : T -> gmap nat (CubicSpline.t Scalar) -> option (gmap nat (CubicSpline.t Scalar)))
    (r : result (T * gmap nat (CubicSpline.t Scalar))) : Prop :=
  exists t h2 a1 a2,
    r = Ok (t, h2) /\ coeff1 t = Addr a1 /\ coeff2 t = Addr a2 /\ a1 <> a2
    /\ h !! a1 = None /\ h !! a2 = None
    /\ h2 !! a1 = Some (CubicSpline.const one) /\ h2 !! a2 = Some (CubicSpline.const one)
    /\ dtor t h2 = Some h.

(** The life of a term from the store [h]: [build p] constructs it on the
    coefficient argument [p].  Built on the sentinel and destroyed, it leaves
    the store as it was; built on a caller's live object and destroyed, it
    leaves the store without that object. *)
Definition lifecycle {T A : Type} (dtor : T -> gmap nat A -> option (gmap nat A))
    (build : ptr -> T * gmap nat A) (h : gmap nat A) : Prop :=
  dtor (build Sentinel).1 (build Sentinel).2 = Some h
  /\ forall a, is_Some (h !! a) ->
       dtor (build (Addr a)).1 (build (Addr a)).2 = Some (delete a h).

(** * Example data *)

(** The conductivity of the benchmark, [lam(u) = 1 + u^4] with derivative
    [4 u^3], on integers; its order overloads return fixed degrees. *)
Definition lam_spline : CubicSpline.t Z :=
  {| CubicSpline.get_value := fun u => 1 + u ^ 4;
     CubicSpline.get_derivative := fun u => 4 * u ^ 3;
     CubicSpline.get_value_ord := fun _ => Ord.of_int 3;
     CubicSpline.get_derivative_ord := fun _ => Ord.of_int 2 |}.

(** A store holding that spline at address 0, and one holding a function
    coefficient [f(x, y) = x + 2 y] at address 0. *)
Definition spline_store : gmap nat (CubicSpline.t Z) := {[ 0%nat := lam_spline ]}.

Definition function_store : gmap nat (DefaultFunction.t Z) :=
  {[ 0%nat := {| DefaultFunction.value := fun a b => a + 2 * b;
                 DefaultFunction.ord := fun _ _ => Ord.of_int 1 |} ]}.

(** Two quadrature points with their samples. *)
Definition wt2 : array Z := array_of 0 [1; 2].
Definition geom2 : Geom Z := {| x := array_of 0 [3; 4]; y := array_of 0 [5; 6] |}.
Definition u2 : Func Z :=
  {| val := array_of 0 [1; 2]; dx := array_of 0 [1; 0]; dy := array_of 0 [0; 1] |}.
Definition v2 : Func Z :=
  {| val := array_of 0 [2; 1]; dx := array_of 0 [1; 1]; dy := array_of 0 [2; 3] |}.
Definition u_prev2 : Func Z :=
  {| val := array_of 0 [1; 2]; dx := array_of 0 [2; 1]; dy := array_of 0 [1; 1] |}.

(** A surface Jacobian term on the example spline, in a given geometry
    mode. *)
Definition jacobian_surf_example (g : GeomType) : DefaultJacobianFormSurf.t Z :=
  {| DefaultJacobianFormSurf.base := {| mfs_i := 0; mfs_j := 0; mfs_areas := ["a"%string] |};
     DefaultJacobianFormSurf.idx_j := 0;
     DefaultJacobianFormSurf.const_coeff := 1;
     DefaultJacobianFormSurf.spline_coeff := Addr 0;
     DefaultJacobianFormSurf.gt := g |}.

(** A store with the example spline at address 0 and the constant spline
    1 at address 1. *)
Definition two_spline_store : gmap nat (CubicSpline.t Z) :=
  {[ 0%nat := lam_spline; 1%nat := CubicSpline.const 1 ]}.

(** Contents of the storage of a term before its constructor runs, with
    address 1 where the spline pointers will be. *)
Definition raw_jacobian_advection : DefaultJacobianAdvection.t Z :=
  {| DefaultJacobianAdvection.base :=
       {| mfv_i := 0; mfv_j := 0; mfv_areas := []; mfv_sym := HERMES_NONSYM |};
     DefaultJacobianAdvection.idx_j := 0;
     DefaultJacobianAdvection.const_coeff1 := 0;
     DefaultJacobianAdvection.const_coeff2 := 0;
     DefaultJacobianAdvection.spline_coeff1 := Addr 1;
     DefaultJacobianAdvection.spline_coeff2 := Addr 1;
     DefaultJacobianAdvection.gt := HERMES_PLANAR |}.

Definition raw_residual_advection : DefaultResidualAdvection.t Z :=
  {| DefaultResidualAdvection.base := {| vfv_i := 0; vfv_areas := [] |};
     DefaultResidualAdvection.idx_i := 0;
     DefaultResidualAdvection.const_coeff1 := 0;
     DefaultResidualAdvection.const_coeff2 := 0;
     DefaultResidualAdvection.spline_coeff1 := Addr 1;
     DefaultResidualAdvection.spline_coeff2 := Addr 1;
     DefaultResidualAdvection.gt := HERMES_PLANAR |}.

Definition raw_jacobian_surf : DefaultJacobianFormSurf.t Z :=
  {| DefaultJacobianFormSurf.base := {| mfs_i := 0; mfs_j := 0; mfs_areas := [] |};
     DefaultJacobianFormSurf.idx_j := 0;
     DefaultJacobianFormSurf.const_coeff := 0;
     DefaultJacobianFormSurf.spline_coeff := Addr 1;
     DefaultJacobianFormSurf.gt := HERMES_PLANAR |}.

(** The value a constructor result evaluates to: the evaluator applied to
    the constructed term in the store the constructor leaves. *)
Definition value_of_constructed {T St R} (c : result (T * St)) (eval : St -> T -> option R)
  : option R :=
  match c with
  | Ok (t, h) => eval h t
  | Fatal _ => None
  end.

(** Volume matrix and diffusion Jacobian terms built on a caller-supplied
    coefficient at address 0. *)
Definition matrix_vol_example : DefaultMatrixFormVol.t Z * gmap nat (DefaultFunction.t Z) :=
  DefaultMatrixFormVol.ctor_area 0 0 "a" 1 (Addr 0) HERMES_NONSYM HERMES_PLANAR
    function_store.

Definition jacobian_diffusion_example
  : DefaultJacobianDiffusion.t Z * gmap nat (CubicSpline.t Z) :=
  DefaultJacobianDiffusion.ctor_area 0 0 "a" 1 (Addr 0) HERMES_SYM HERMES_PLANAR
    spline_store.

(** Orders of the samples of a quadratic function: degree 2, gradient of
    degree 1, at every point. *)
Definition quadratic_ord : Func Ord.t :=
  {| val := fun _ => Ord.of_int 2; dx := fun _ => Ord.of_int 1; dy := fun _ => Ord.of_int 1 |}.

Definition geom_ord : Geom Ord.t :=
  {| x := fun _ => Ord.of_int 1; y := fun _ => Ord.of_int 1 |}.

(** A diffusion residual term on the example spline, in a given geometry
    mode. *)
Definition residual_diffusion_example (g : GeomType) : DefaultResidualDiffusion.t Z :=
  {| DefaultResidualDiffusion.base := {| vfv_i := 0; vfv_areas := ["a"%string] |};
     DefaultResidualDiffusion.idx_i := 0;
     DefaultResidualDiffusion.const_coeff := 1;
     DefaultResidualDiffusion.spline_coeff := Addr 0;
     DefaultResidualDiffusion.gt := g |}.

(** A one-unknown problem with residual [F(c) = c] and Jacobian 1: the
    assembled right-hand side is the coefficient vector, the norm is the
    absolute value of its entry, and the tolerance is 1. *)
Definition toy_assemble (c : array Z) : unit * array Z := (tt, c).
Definition toy_change_sign (r : array Z) : array Z := fun i => - r i.
Definition toy_norm (r : array Z) : Z := Z.abs (r 0%nat).
(** Solvers for it: exact, returning a zero correction, and failing. *)
Definition toy_solve_exact (m : unit) (rhs : array Z) : option (array Z) := Some rhs.
Definition toy_solve_stalled (m : unit) (rhs : array Z) : option (array Z) :=
  Some (fun _ => 0).
Definition toy_solve_failing (m : unit) (rhs : array Z) : option (array Z) := None.

(** [main] on the toy problem with a given solver and iteration budget. *)
Definition toy_main (solve : unit -> array Z -> option (array Z)) (max_iter : Z)
    (fuel : nat) (c : array Z) :=
  Newton.main unit toy_assemble toy_change_sign toy_norm Z.ltb solve 1 1 max_iter fuel c.

(** A solver for the toy problem that halves the distance to the
    solution at each step. *)
Definition toy_solve_halving (m : unit) (rhs : array Z) : option (array Z) :=
  Some (fun i => rhs i / 2).

(** A geometry whose [y] coordinate is 1 at every point. *)
Definition geom_unit_y : Geom Z := {| x := array_of 0 [3; 4]; y := fun _ => 1 |}.

(** Terms of the remaining kinds on the example stores. *)
Definition vector_vol_example : DefaultVectorFormVol.t Z :=
  (DefaultVectorFormVol.ctor_area 0 "a" 2 (Addr 0) HERMES_AXISYM_X function_store).1.
Definition residual_vol_example : DefaultResidualVol.t Z :=
  (DefaultResidualVol.ctor_area 0 "a" 2 (Addr 0) HERMES_AXISYM_X function_store).1.
Definition matrix_surf_example : DefaultMatrixFormSurf.t Z :=
  (DefaultMatrixFormSurf.ctor_area 0 0 "a" 2 (Addr 0) HERMES_AXISYM_Y function_store).1.
Definition vector_surf_example : DefaultVectorFormSurf.t Z :=
  (DefaultVectorFormSurf.ctor_area 0 "a" 2 (Addr 0) HERMES_AXISYM_Y function_store).1.
Definition residual_surf_example : DefaultResidualSurf.t Z :=
  (DefaultResidualSurf.ctor_area 0 "a" 2 (Addr 0) HERMES_PLANAR function_store).1.

(** Integrals for the multi-component term on the example data: the
    weighted sums of the test function, bare and times a coordinate. *)
Definition toy_int_v (n : Z) (wt : array Z) (v : Func Z) : Z :=
  quad_sum n (fun i => wt i * val v i).
Definition toy_int_y_v (n : Z) (wt : array Z) (v : Func Z) (e : Geom Z) : Z :=
  quad_sum n (fun i => wt i * y e i * val v i).
Definition toy_int_x_v (n : Z) (wt : array Z) (v : Func Z) (e : Geom Z) : Z :=
  quad_sum n (fun i => wt i * x e i * val v i).

(** Data in [double]: weights, samples and coordinates equal to 1 at every
    point, and a store with the constant function 1 at address 0. *)
Definition double_ones : array PrimFloat.float := fun _ => PrimFloat.one.
Definition double_unit_func : Func PrimFloat.float :=
  {| val := double_ones; dx := double_ones; dy := double_ones |}.
Definition double_unit_geom : Geom PrimFloat.float :=
  {| x := double_ones; y := double_ones |}.
Definition double_unit_store : gmap nat (DefaultFunction.t PrimFloat.float) :=
  {[ 0%nat := DefaultFunction.const PrimFloat.one ]}.

(** * Loops and sums *)

Section Loops.
Context {A : Type}.

Lemma for_loop_snoc (k i0 : nat) (body : nat -> A -> A) (acc : A) :
  for_loop (S k) i0 body acc = body (i0 + k)%nat (for_loop k i0 body acc).
Proof.
  revert i0 acc. induction k as [|k IH]; intros i0 acc.
  - simpl. by rewrite Nat.add_0_r.
  - change (for_loop (S (S k)) i0 body acc)
      with (for_loop (S k) (S i0) body (body i0 acc)).
    rewrite IH. simpl. by rewrite Nat.add_succ_r.
Qed.

(** A loop whose reads are all defined computes what the loop without
    reads computes. *)
Lemma for_loop_defined (k i0 : nat) (g : nat -> A -> A) (acc : A) :
  for_loop k i0 (fun i r => r ≫= fun a => Some (g i a)) (Some acc)
  = Some (for_loop k i0 g acc).
Proof.
  revert i0 acc. induction k as [|k IH]; intros i0 acc; simpl; [done|apply IH].
Qed.

Lemma for_upto_m_defined (n : Z) (g : nat -> A -> A) (acc : A) :
  for_upto_m n (fun i a => Some (g i a)) acc = Some (for_upto n g acc).
Proof. apply for_loop_defined. Qed.

(** With no iteration the accumulator is returned, whatever the body. *)
Lemma for_upto_m_nonpos (n : Z) (body : nat -> A -> option A) (acc : A) :
  n <= 0 -> for_upto_m n body acc = Some acc.
Proof.
  intros Hn. unfold for_upto_m, for_upto.
  replace (Z.to_nat n) with 0%nat by lia. done.
Qed.

(** A loop that runs and whose reads are undefined is undefined. *)
Lemma for_loop_undefined (k i0 : nat) (body : nat -> A -> option A) :
  for_loop k i0 (fun i r => r ≫= body i) None = None.
Proof. revert i0. induction k as [|k IH]; intros i0; simpl; [done|apply IH]. Qed.

Lemma for_upto_m_undefined (n : Z) (body : nat -> A -> option A) (acc : A) :
  0 < n -> (forall i a, body i a = None) -> for_upto_m n body acc = None.
Proof.
  intros Hn Hb. unfold for_upto_m, for_upto.
  destruct (Z.to_nat n) as [|k] eqn:E; [lia|].
  simpl. rewrite Hb. apply for_loop_undefined.
Qed.

End Loops.

Section Sums.
Context `{ScalarOps Scalar}.

(** The accumulation loop [result = 0; for (...) result += f(i)] is the
    sum of the [f(i)]. *)
Lemma for_loop_sum (k : nat) (f : nat -> Scalar) :
  for_loop k 0 (fun i r => (r + f i)%sc) zero = sum_below k f.
Proof.
  induction k as [|k IH]; [done|].
  rewrite for_loop_snoc, IH. done.
Qed.

Lemma for_upto_sum (n : Z) (f : nat -> Scalar) :
  for_upto n (fun i r => (r + f i)%sc) zero = quad_sum n f.
Proof. apply for_loop_sum. Qed.

Lemma sum_below_ext (k : nat) (f g : nat -> Scalar) :
  (forall i, (i < k)%nat -> f i = g i) -> sum_below k f = sum_below k g.
Proof.
  induction k as [|k IH]; intros Hfg; [done|].
  simpl. rewrite IH, Hfg by (intros; try apply Hfg; lia). done.
Qed.

Lemma quad_sum_ext (n : Z) (f g : nat -> Scalar) :
  (forall i, f i = g i) -> quad_sum n f = quad_sum n g.
Proof. intros Hfg. apply sum_below_ext. auto. Qed.

(** An accumulation loop reading one coefficient object. *)
Lemma for_upto_m_sum {B} (o : option B) (b : B) (n : Z) (f : B -> nat -> Scalar) :
  o = Some b ->
  for_upto_m n (fun i result => s ← o; Some (result + f s i)%sc) zero
  = Some (quad_sum n (f b)).
Proof.
  intros ->. simpl.
  rewrite (for_upto_m_defined n (fun i r => (r + f b i)%sc)).
  by rewrite for_upto_sum.
Qed.

End Sums.

(** * The diffusion Jacobian *)

Section JacobianDiffusion.
Context `{ScalarOps Scalar}.
Import DefaultJacobianDiffusion.

(** C1.  Where the term's spline [kappa] is live in the store and
    multiplying by 1 changes nothing, the numeric value of
    [DefaultJacobianDiffusion] is the sum over the [n] quadrature points of
    weight times geometry factor times the sum of the linearisation piece and
    the stiffness piece, both carrying the same constant [const_coeff], with
    [u_prev = u_ext[idx_j]]. *)
Theorem DefaultJacobianDiffusion_value_formula
    (h : gmap nat (CubicSpline.t Scalar)) (this : t Scalar)
    (kappa : CubicSpline.t Scalar) (n : Z) (wt : array Scalar)
    (u_ext : Z -> Func Scalar) (u v : Func Scalar) (e : Geom Scalar) :
  (forall a : Scalar, (a * one)%sc = a) ->
  deref h (spline_coeff this) = Some kappa ->
  value h this n wt u_ext u v e
  = Some (quad_sum n (fun i =>
      (wt i * geometry_factor (gt this) e i
       * (linearization_term (const_coeff this) kappa (u_ext (idx_j this)) u v i
          + stiffness_term (const_coeff this) kappa (u_ext (idx_j this)) u v i))%sc)).
Proof.
  intros Hone Hlive. unfold value.
  destruct (gt this); simpl geometry_factor;
    rewrite (for_upto_m_sum _ kappa) by exact Hlive;
    f_equal; apply quad_sum_ext; intros i;
    unfold linearization_term, stiffness_term;
    rewrite ?Hone; reflexivity.
Qed.

End JacobianDiffusion.

(** The formula on the example data, about the x axis:
    [1*5*(1*4*1*(2*1+1*2) + 1*2*(1*1+0*2)) + 2*6*(1*32*2*(1*1+1*3) + 1*17*(0*1+1*3))]. *)
Lemma DefaultJacobianDiffusion_value_formula_witness :
  DefaultJacobianDiffusion.value spline_store
    {| DefaultJacobianDiffusion.base :=
         {| mfv_i := 0; mfv_j := 0; mfv_areas := ["a"%string]; mfv_sym := HERMES_SYM |};
       DefaultJacobianDiffusion.idx_j := 0;
       DefaultJacobianDiffusion.const_coeff := 1;
       DefaultJacobianDiffusion.spline_coeff := Addr 0;
       DefaultJacobianDiffusion.gt := HERMES_AXISYM_X |}
    2 wt2 (fun _ => u_prev2) u2 v2 geom2
  = Some 3774.
Proof.
  rewrite (DefaultJacobianDiffusion_value_formula spline_store _ lam_spline).
  - reflexivity.
  - intros a. apply Z.mul_1_r.
  - reflexivity.
Defined.

(** * The geometry factor in the terms *)

Section GeometryFactor.
Context `{ScalarOps Scalar}.
Hypothesis mul_one_r : forall a : Scalar, (a * one)%sc = a.

(** Closes a goal [value ... = Some (... quad_sum ...)] for a term whose
    loops read the coefficient object [b]. *)
Ltac value_by_sum b Hlive :=
  rewrite (for_upto_m_sum _ b) by exact Hlive;
  simpl; apply (f_equal Some); try apply (f_equal (mul _));
  apply quad_sum_ext; intros i; rewrite ?mul_one_r; reflexivity.

Lemma DefaultMatrixFormVol_value_geometry h (this : DefaultMatrixFormVol.t Scalar)
    f n wt u_ext u v e :
  deref h (DefaultMatrixFormVol.function_coeff this) = Some f ->
  DefaultMatrixFormVol.value h this n wt u_ext u v e
  = Some (DefaultMatrixFormVol.const_coeff this * quad_sum n (fun i =>
      wt i * geometry_factor (DefaultMatrixFormVol.gt this) e i
      * DefaultFunction.value f (x e i) (y e i) * val u i * val v i))%sc.
Proof.
  intros Hlive. unfold DefaultMatrixFormVol.value.
  destruct (DefaultMatrixFormVol.gt this); value_by_sum f Hlive.
Qed.

Lemma DefaultVectorFormVol_value_geometry h (this : DefaultVectorFormVol.t Scalar)
    f n wt u_ext v e :
  deref h (DefaultVectorFormVol.function_coeff this) = Some f ->
  DefaultVectorFormVol.value h this n wt u_ext v e
  = Some (DefaultVectorFormVol.const_coeff this * quad_sum n (fun i =>
      wt i * geometry_factor (DefaultVectorFormVol.gt this) e i
      * DefaultFunction.value f (x e i) (y e i) * val v i))%sc.
Proof.
  intros Hlive. unfold DefaultVectorFormVol.value.
  destruct (DefaultVectorFormVol.gt this); value_by_sum f Hlive.
Qed.

Lemma DefaultResidualVol_value_geometry h (this : DefaultResidualVol.t Scalar)
    f n wt u_ext v e :
  deref h (DefaultResidualVol.function_coeff this) = Some f ->
  DefaultResidualVol.value h this n wt u_ext v e
  = Some (DefaultResidualVol.const_coeff this * quad_sum n (fun i =>
      wt i * geometry_factor (DefaultResidualVol.gt this) e i
      * DefaultFunction.value f (x e i) (y e i)
      * val (u_ext (DefaultResidualVol.idx_i this)) i * val v i))%sc.
Proof.
  intros Hlive. unfold DefaultResidualVol.value.
  destruct (DefaultResidualVol.gt this); value_by_sum f Hlive.
Qed.

Lemma DefaultResidualDiffusion_value_geometry h (this : DefaultResidualDiffusion.t Scalar)
    kappa n wt u_ext v e :
  deref h (DefaultResidualDiffusion.spline_coeff this) = Some kappa ->
  DefaultResidualDiffusion.value h this n wt u_ext v e
  = Some (quad_sum n (fun i =>
      wt i * geometry_factor (DefaultResidualDiffusion.gt this) e i
      * DefaultResidualDiffusion.const_coeff this
      * CubicSpline.get_value kappa (val (u_ext (DefaultResidualDiffusion.idx_i this)) i)
      * (dx (u_ext (DefaultResidualDiffusion.idx_i this)) i * dx v i
         + dy (u_ext (DefaultResidualDiffusion.idx_i this)) i * dy v i)))%sc.
Proof.
  intros Hlive. unfold DefaultResidualDiffusion.value.
  destruct (DefaultResidualDiffusion.gt this); value_by_sum kappa Hlive.
Qed.

Lemma DefaultMatrixFormSurf_value_geometry h (this : DefaultMatrixFormSurf.t Scalar)
    f n wt u_ext u v e :
  deref h (DefaultMatrixFormSurf.function_coeff this) = Some f ->
  DefaultMatrixFormSurf.value h this n wt u_ext u v e
  = Some (DefaultMatrixFormSurf.const_coeff this * quad_sum n (fun i =>
      wt i * geometry_factor (DefaultMatrixFormSurf.gt this) e i
      * DefaultFunction.value f (x e i) (y e i) * val u i * val v i))%sc.
Proof.
  intros Hlive. unfold DefaultMatrixFormSurf.value.
  destruct (DefaultMatrixFormSurf.gt this); value_by_sum f Hlive.
Qed.

Lemma DefaultVectorFormSurf_value_geometry h (this : DefaultVectorFormSurf.t Scalar)
    f n wt u_ext v e :
  deref h (DefaultVectorFormSurf.function_coeff this) = Some f ->
  DefaultVectorFormSurf.value h this n wt u_ext v e
  = Some (DefaultVectorFormSurf.const_coeff this * quad_sum n (fun i =>
      wt i * geometry_factor (DefaultVectorFormSurf.gt this) e i
      * DefaultFunction.value f (x e i) (y e i) * val v i))%sc.
Proof.
  intros Hlive. unfold DefaultVectorFormSurf.value.
  destruct (DefaultVectorFormSurf.gt this); value_by_sum f Hlive.
Qed.

Lemma DefaultResidualSurf_value_geometry h (this : DefaultResidualSurf.t Scalar)
    f n wt u_ext v e :
  deref h (DefaultResidualSurf.function_coeff this) = Some f ->
  DefaultResidualSurf.value h this n wt u_ext v e
  = Some (DefaultResidualSurf.const_coeff this * quad_sum n (fun i =>
      wt i * geometry_factor (DefaultResidualSurf.gt this) e i
      * DefaultFunction.value f (x e i) (y e i)
      * val (u_ext (DefaultResidualSurf.idx_i this)) i * val v i))%sc.
Proof.
  intros Hlive. unfold DefaultResidualSurf.value.
  destruct (DefaultResidualSurf.gt this); value_by_sum f Hlive.
Qed.

(** The two advection terms have one loop and no factor; every
    constructed advection term is planar, where the factor is 1. *)
Lemma DefaultJacobianAdvection_value_geometry h (this : DefaultJacobianAdvection.t Scalar)
    s1 s2 n wt u_ext u v e :
  DefaultJacobianAdvection.gt this = HERMES_PLANAR ->
  deref h (DefaultJacobianAdvection.spline_coeff1 this) = Some s1 ->
  deref h (DefaultJacobianAdvection.spline_coeff2 this) = Some s2 ->
  DefaultJacobianAdvection.value h this n wt u_ext u v e
  = Some (quad_sum n (fun i =>
      wt i * geometry_factor (DefaultJacobianAdvection.gt this) e i *
      (DefaultJacobianAdvection.const_coeff1 this
         * CubicSpline.get_derivative s1 (val (u_ext (DefaultJacobianAdvection.idx_j this)) i)
         * val u i * dx (u_ext (DefaultJacobianAdvection.idx_j this)) i * val v i
       + DefaultJacobianAdvection.const_coeff1 this
         * CubicSpline.get_value s1 (val (u_ext (DefaultJacobianAdvection.idx_j this)) i)
         * dx u i * val v i
       + DefaultJacobianAdvection.const_coeff2 this
         * CubicSpline.get_derivative s2 (val (u_ext (DefaultJacobianAdvection.idx_j this)) i)
         * val u i * dy (u_ext (DefaultJacobianAdvection.idx_j this)) i * val v i
       + DefaultJacobianAdvection.const_coeff2 this
         * CubicSpline.get_value s2 (val (u_ext (DefaultJacobianAdvection.idx_j this)) i)
         * dy u i * val v i)))%sc.
Proof.
  intros Hgt Hlive1 Hlive2. unfold DefaultJacobianAdvection.value.
  rewrite Hgt, Hlive1, Hlive2. simpl.
  rewrite (for_upto_m_defined n (fun i r => (r + _)%sc)), for_upto_sum.
  apply (f_equal Some), quad_sum_ext. intros i. by rewrite mul_one_r.
Qed.

Lemma DefaultResidualAdvection_value_geometry h (this : DefaultResidualAdvection.t Scalar)
    s1 s2 n wt u_ext v e :
  DefaultResidualAdvection.gt this = HERMES_PLANAR ->
  deref h (DefaultResidualAdvection.spline_coeff1 this) = Some s1 ->
  deref h (DefaultResidualAdvection.spline_coeff2 this) = Some s2 ->
  DefaultResidualAdvection.value h this n wt u_ext v e
  = Some (quad_sum n (fun i =>
      wt i * geometry_factor (DefaultResidualAdvection.gt this) e i *
      (DefaultResidualAdvection.const_coeff1 this
         * CubicSpline.get_value s1 (val (u_ext (DefaultResidualAdvection.idx_i this)) i)
         * (dx (u_ext (DefaultResidualAdvection.idx_i this)) i * val v i)
       + DefaultResidualAdvection.const_coeff2 this
         * CubicSpline.get_value s2 (val (u_ext (DefaultResidualAdvection.idx_i this)) i)
         * (dy (u_ext (DefaultResidualAdvection.idx_i this)) i * val v i))))%sc.
Proof.
  intros Hgt Hlive1 Hlive2. unfold DefaultResidualAdvection.value.
  rewrite Hgt, Hlive1, Hlive2. simpl.
  rewrite (for_upto_m_defined n (fun i r => (r + _)%sc)), for_upto_sum.
  apply (f_equal Some), quad_sum_ext. intros i. by rewrite mul_one_r.
Qed.

(** What the surface Jacobian term computes: the planar sum in every
    mode. *)
Lemma DefaultJacobianFormSurf_value_planar_sum h (this : DefaultJacobianFormSurf.t Scalar)
    kappa n wt u_ext u v e :
  deref h (DefaultJacobianFormSurf.spline_coeff this) = Some kappa ->
  DefaultJacobianFormSurf.value h this n wt u_ext u v e
  = Some (quad_sum n (fun i =>
      wt i *
      (DefaultJacobianFormSurf.const_coeff this
         * CubicSpline.get_derivative kappa (val (u_ext (DefaultJacobianFormSurf.idx_j this)) i)
         * val (u_ext (DefaultJacobianFormSurf.idx_j this)) i
       + DefaultJacobianFormSurf.const_coeff this
         * CubicSpline.get_value kappa (val (u_ext (DefaultJacobianFormSurf.idx_j this)) i))
      * val u i * val v i))%sc.
Proof.
  intros Hlive. unfold DefaultJacobianFormSurf.value.
  by rewrite (for_upto_m_sum _ kappa) by exact Hlive.
Qed.

End GeometryFactor.

(** The surface Jacobian term runs the same loop in every geometry mode:
    its value does not depend on [gt]. *)
Lemma DefaultJacobianFormSurf_value_any_gt `{ScalarOps Scalar}
    (h : gmap nat (CubicSpline.t Scalar)) b j c p (g1 g2 : GeomType)
    n wt u_ext u v e :
  DefaultJacobianFormSurf.value h
    {| DefaultJacobianFormSurf.base := b; DefaultJacobianFormSurf.idx_j := j;
       DefaultJacobianFormSurf.const_coeff := c;
       DefaultJacobianFormSurf.spline_coeff := p;
       DefaultJacobianFormSurf.gt := g1 |} n wt u_ext u v e
  = DefaultJacobianFormSurf.value h
    {| DefaultJacobianFormSurf.base := b; DefaultJacobianFormSurf.idx_j := j;
       DefaultJacobianFormSurf.const_coeff := c;
       DefaultJacobianFormSurf.spline_coeff := p;
       DefaultJacobianFormSurf.gt := g2 |} n wt u_ext u v e.
Proof. reflexivity. Qed.

(** C2.  On the example data about the x axis, [DefaultJacobianFormSurf]
    returns [1*6*1*2 + 2*81*2*1 = 336], its planar value, where the sum of
    weight times geometry factor times integrand is
    [1*5*12 + 2*6*162 = 2004]: the geometry factor is not applied. *)
Theorem DefaultJacobianFormSurf_value_misses_geometry_factor :
  DefaultJacobianFormSurf.value spline_store (jacobian_surf_example HERMES_AXISYM_X)
    2 wt2 (fun _ => u_prev2) u2 v2 geom2 = Some 336
  /\ weighted_sum HERMES_AXISYM_X 2 wt2 geom2
       (surf_jacobian_integrand 1 lam_spline u_prev2 u2 v2) = 2004
  /\ DefaultJacobianFormSurf.value spline_store (jacobian_surf_example HERMES_PLANAR)
       2 wt2 (fun _ => u_prev2) u2 v2 geom2 = Some 336.
Proof. repeat split; reflexivity. Qed.

(** * Advection terms and the geometry mode *)

Section AdvectionConstruction.
Context `{ScalarOps Scalar}.

Lemma DefaultJacobianAdvection_ctor_body_planar (this : DefaultJacobianAdvection.t Scalar)
    c1 c2 (h : gmap nat (CubicSpline.t Scalar)) :
  exists t' h', DefaultJacobianAdvection.ctor_body this c1 c2 HERMES_PLANAR h = Ok (t', h')
                /\ DefaultJacobianAdvection.gt t' = DefaultJacobianAdvection.gt this.
Proof.
  unfold DefaultJacobianAdvection.ctor_body.
  destruct (decide (HERMES_PLANAR <> HERMES_PLANAR)) as [Hne|_]; [by destruct Hne|].
  destruct (decide (c1 = HERMES_DEFAULT_SPLINE)), (decide (c2 = HERMES_DEFAULT_SPLINE));
    simpl; eauto.
Qed.

Lemma DefaultResidualAdvection_ctor_body_planar (this : DefaultResidualAdvection.t Scalar)
    c1 c2 (h : gmap nat (CubicSpline.t Scalar)) :
  exists t' h', DefaultResidualAdvection.ctor_body this c1 c2 HERMES_PLANAR h = Ok (t', h')
                /\ DefaultResidualAdvection.gt t' = DefaultResidualAdvection.gt this.
Proof.
  unfold DefaultResidualAdvection.ctor_body.
  destruct (decide (HERMES_PLANAR <> HERMES_PLANAR)) as [Hne|_]; [by destruct Hne|].
  destruct (decide (c1 = HERMES_DEFAULT_SPLINE)), (decide (c2 = HERMES_DEFAULT_SPLINE));
    simpl; eauto.
Qed.

(** C5.  Each of the four advection constructors stops with the error
    "Axisymmetric advection forms not implemented yet." in both axisymmetric
    modes, so no term exists that could be evaluated with the planar formula,
    and returns a planar term in planar mode. *)
Theorem advection_construction_planar_only
    (i j : Z) (area : string) (areas : list string) (cc1 cc2 : Scalar)
    (c_spline1 c_spline2 : ptr) (h : gmap nat (CubicSpline.t Scalar))
    (rawJ : DefaultJacobianAdvection.t Scalar)
    (rawR : DefaultResidualAdvection.t Scalar) :
  let msg := "Axisymmetric advection forms not implemented yet."%string in
  let axisym g := g = HERMES_AXISYM_X \/ g = HERMES_AXISYM_Y in
  (forall g, axisym g ->
     DefaultJacobianAdvection.ctor_area i j area cc1 cc2 c_spline1 c_spline2 g h = Fatal msg
     /\ DefaultJacobianAdvection.ctor_areas rawJ i j areas cc1 cc2 c_spline1 c_spline2 g h
        = Fatal msg
     /\ DefaultResidualAdvection.ctor_area i area cc1 cc2 c_spline1 c_spline2 g h = Fatal msg
     /\ DefaultResidualAdvection.ctor_areas rawR i areas cc1 cc2 c_spline1 c_spline2 g h
        = Fatal msg)
  /\ (exists t' h', DefaultJacobianAdvection.ctor_area i j area cc1 cc2 c_spline1 c_spline2
                      HERMES_PLANAR h = Ok (t', h')
                    /\ DefaultJacobianAdvection.gt t' = HERMES_PLANAR)
  /\ (exists t' h', DefaultJacobianAdvection.ctor_areas rawJ i j areas cc1 cc2 c_spline1
                      c_spline2 HERMES_PLANAR h = Ok (t', h')
                    /\ DefaultJacobianAdvection.gt t' = HERMES_PLANAR)
  /\ (exists t' h', DefaultResidualAdvection.ctor_area i area cc1 cc2 c_spline1 c_spline2
                      HERMES_PLANAR h = Ok (t', h')
                    /\ DefaultResidualAdvection.gt t' = HERMES_PLANAR)
  /\ (exists t' h', DefaultResidualAdvection.ctor_areas rawR i areas cc1 cc2 c_spline1
                      c_spline2 HERMES_PLANAR h = Ok (t', h')
                    /\ DefaultResidualAdvection.gt t' = HERMES_PLANAR).
Proof.
  intros msg axisym. split.
  - intros g [-> | ->]; repeat split; reflexivity.
  - repeat split.
    + apply DefaultJacobianAdvection_ctor_body_planar.
    + apply DefaultJacobianAdvection_ctor_body_planar.
    + apply DefaultResidualAdvection_ctor_body_planar.
    + apply DefaultResidualAdvection_ctor_body_planar.
Qed.

End AdvectionConstruction.

(** Construction about the y axis on the example store fails; planar
    construction with the default splines allocates them. *)
Lemma advection_construction_planar_only_witness :
  DefaultJacobianAdvection.ctor_area 0 0 "a" 1 1 (Addr 0) Sentinel HERMES_AXISYM_Y spline_store
  = Fatal "Axisymmetric advection forms not implemented yet.".
Proof.
  apply (advection_construction_planar_only 0 0 "a" ["a"%string] 1 1 (Addr 0) Sentinel
           spline_store raw_jacobian_advection raw_residual_advection).
  right. reflexivity.
Defined.

(** * Single-area and area-list constructors *)

Section AreaListConstructors.
Context `{ScalarOps Scalar}.

(** Where the area-list constructor initialises the members from its
    arguments, it builds the term the single-area constructor builds for the
    one-region list. *)
Lemma area_list_ctor_agrees (i j : Z) (area : string) (c : Scalar) (p : ptr)
    (sym : SymFlag) (g : GeomType)
    (hf : gmap nat (DefaultFunction.t Scalar)) (hs : gmap nat (CubicSpline.t Scalar)) :
  DefaultMatrixFormVol.ctor_areas i j [area] c p sym g hf
  = DefaultMatrixFormVol.ctor_area i j area c p sym g hf
  /\ DefaultJacobianDiffusion.ctor_areas i j [area] c p sym g hs
     = DefaultJacobianDiffusion.ctor_area i j area c p sym g hs
  /\ DefaultVectorFormVol.ctor_areas i [area] c p g hf
     = DefaultVectorFormVol.ctor_area i area c p g hf
  /\ DefaultResidualVol.ctor_areas i [area] c p g hf
     = DefaultResidualVol.ctor_area i area c p g hf
  /\ DefaultResidualDiffusion.ctor_areas i [area] c p g hs
     = DefaultResidualDiffusion.ctor_area i area c p g hs
  /\ DefaultMatrixFormSurf.ctor_areas i j [area] c p g hf
     = DefaultMatrixFormSurf.ctor_area i j area c p g hf
  /\ DefaultVectorFormSurf.ctor_areas i [area] c p g hf
     = DefaultVectorFormSurf.ctor_area i area c p g hf
  /\ DefaultResidualSurf.ctor_areas i [area] c p g hf
     = DefaultResidualSurf.ctor_area i area c p g hf.
Proof. repeat split; reflexivity. Qed.

(** The area-list constructors of the two advection terms and of the
    surface Jacobian term, given caller-supplied splines, leave in the spline
    members what the storage held: the arguments [c_spline1], [c_spline2] and
    [c_spline] are not stored ([idx_j] of the surface term neither). *)
Lemma area_list_ctor_keeps_raw (i j : Z) (areas : list string) (c1 c2 : Scalar)
    (a1 a2 : nat) (g : GeomType) (h : gmap nat (CubicSpline.t Scalar))
    (rawJ : DefaultJacobianAdvection.t Scalar)
    (rawR : DefaultResidualAdvection.t Scalar)
    (rawS : DefaultJacobianFormSurf.t Scalar) :
  DefaultJacobianAdvection.ctor_areas rawJ i j areas c1 c2 (Addr a1) (Addr a2) HERMES_PLANAR h
  = Ok ({| DefaultJacobianAdvection.base :=
             {| mfv_i := i; mfv_j := j; mfv_areas := areas; mfv_sym := HERMES_NONSYM |};
           DefaultJacobianAdvection.idx_j := j;
           DefaultJacobianAdvection.const_coeff1 := c1;
           DefaultJacobianAdvection.const_coeff2 := c2;
           DefaultJacobianAdvection.spline_coeff1 := DefaultJacobianAdvection.spline_coeff1 rawJ;
           DefaultJacobianAdvection.spline_coeff2 := DefaultJacobianAdvection.spline_coeff2 rawJ;
           DefaultJacobianAdvection.gt := HERMES_PLANAR |}, h)
  /\ DefaultResidualAdvection.ctor_areas rawR i areas c1 c2 (Addr a1) (Addr a2) HERMES_PLANAR h
     = Ok ({| DefaultResidualAdvection.base := {| vfv_i := i; vfv_areas := areas |};
              DefaultResidualAdvection.idx_i := i;
              DefaultResidualAdvection.const_coeff1 := c1;
              DefaultResidualAdvection.const_coeff2 := c2;
              DefaultResidualAdvection.spline_coeff1 := DefaultResidualAdvection.spline_coeff1 rawR;
              DefaultResidualAdvection.spline_coeff2 := DefaultResidualAdvection.spline_coeff2 rawR;
              DefaultResidualAdvection.gt := HERMES_PLANAR |}, h)
  /\ DefaultJacobianFormSurf.ctor_areas rawS i j areas c1 (Addr a1) g h
     = ({| DefaultJacobianFormSurf.base := {| mfs_i := i; mfs_j := j; mfs_areas := areas |};
           DefaultJacobianFormSurf.idx_j := DefaultJacobianFormSurf.idx_j rawS;
           DefaultJacobianFormSurf.const_coeff := c1;
           DefaultJacobianFormSurf.spline_coeff := DefaultJacobianFormSurf.spline_coeff rawS;
           DefaultJacobianFormSurf.gt := g |}, h).
Proof. repeat split; reflexivity. Qed.

End AreaListConstructors.

(** C8.  With the caller's spline at address 0 for every spline argument
    and storage that held address 1, the single-area constructors give terms
    that evaluate with the caller's spline (318, 80 and 336 on the example
    data) and the area-list constructors, with the same arguments, give terms
    that evaluate with the spline at address 1 (4, 10 and 6). *)
Theorem area_list_ctor_drops_caller_spline :
  value_of_constructed
    (DefaultJacobianAdvection.ctor_area 0 0 "a" 1 1 (Addr 0) (Addr 0) HERMES_PLANAR
       two_spline_store)
    (fun h t => DefaultJacobianAdvection.value h t 2 wt2 (fun _ => u_prev2) u2 v2 geom2)
  = Some 318
  /\ value_of_constructed
       (DefaultJacobianAdvection.ctor_areas raw_jacobian_advection 0 0 ["a"%string] 1 1
          (Addr 0) (Addr 0) HERMES_PLANAR two_spline_store)
       (fun h t => DefaultJacobianAdvection.value h t 2 wt2 (fun _ => u_prev2) u2 v2 geom2)
     = Some 4
  /\ value_of_constructed
       (DefaultResidualAdvection.ctor_area 0 "a" 1 1 (Addr 0) (Addr 0) HERMES_PLANAR
          two_spline_store)
       (fun h t => DefaultResidualAdvection.value h t 2 wt2 (fun _ => u_prev2) v2 geom2)
     = Some 80
  /\ value_of_constructed
       (DefaultResidualAdvection.ctor_areas raw_residual_advection 0 ["a"%string] 1 1
          (Addr 0) (Addr 0) HERMES_PLANAR two_spline_store)
       (fun h t => DefaultResidualAdvection.value h t 2 wt2 (fun _ => u_prev2) v2 geom2)
     = Some 10
  /\ value_of_constructed
       (Ok (DefaultJacobianFormSurf.ctor_area 0 0 "a" 1 (Addr 0) HERMES_PLANAR
              two_spline_store))
       (fun h t => DefaultJacobianFormSurf.value h t 2 wt2 (fun _ => u_prev2) u2 v2 geom2)
     = Some 336
  /\ value_of_constructed
       (Ok (DefaultJacobianFormSurf.ctor_areas raw_jacobian_surf 0 0 ["a"%string] 1
              (Addr 0) HERMES_PLANAR two_spline_store))
       (fun h t => DefaultJacobianFormSurf.value h t 2 wt2 (fun _ => u_prev2) u2 v2 geom2)
     = Some 6.
Proof. repeat split; vm_compute; reflexivity. Qed.

(** * Ownership of the coefficient objects *)

Section Ownership.
Context `{ScalarOps Scalar}.

Lemma new_fresh {A} (o : A) (h : gmap nat A) :
  h !! (new o h).1 = None /\ (new o h).2 !! (new o h).1 = Some o.
Proof.
  unfold new. simpl. split.
  - apply not_elem_of_dom, is_fresh.
  - apply lookup_insert_eq.
Qed.

Lemma delete_new {A} (o : A) (h : gmap nat A) :
  delete_obj (Addr (new o h).1) (new o h).2 = Some h.
Proof.
  destruct (new_fresh o h) as [Hfree Hlive].
  unfold delete_obj. rewrite Hlive. f_equal.
  unfold new. simpl. apply delete_insert_id. exact Hfree.
Qed.

Lemma delete_obj_live {A} (a : nat) (o : A) (h : gmap nat A) :
  h !! a = Some o ->
  delete_obj (Addr a) h = Some (delete a h) /\ released (Addr a) h (delete a h).
Proof.
  intros Hlive. unfold delete_obj, released. simpl. rewrite Hlive.
  split; [done|]. split; [by eexists|apply lookup_delete_eq].
Qed.

(** A term built with the sentinel allocates the constant coefficient at a
    fresh address, and its destructor releases it: the store is the one
    before construction. *)
Lemma sentinel_coefficient_owned (i j : Z) (area : string) (c : Scalar)
    (sym : SymFlag) (g : GeomType)
    (hf : gmap nat (DefaultFunction.t Scalar)) (hs : gmap nat (CubicSpline.t Scalar)) :
  (let '(t, h1) := DefaultMatrixFormVol.ctor_area i j area c HERMES_DEFAULT_FUNCTION sym g hf in
   exists a, DefaultMatrixFormVol.function_coeff t = Addr a /\ hf !! a = None
             /\ h1 !! a = Some (DefaultFunction.const one)
             /\ DefaultMatrixFormVol.dtor t h1 = Some hf)
  /\ (let '(t, h1) := DefaultJacobianDiffusion.ctor_area i j area c HERMES_DEFAULT_SPLINE sym g hs in
      exists a, DefaultJacobianDiffusion.spline_coeff t = Addr a /\ hs !! a = None
                /\ h1 !! a = Some (CubicSpline.const one)
                /\ DefaultJacobianDiffusion.dtor t h1 = Some hs).
Proof.
  split.
  - unfold DefaultMatrixFormVol.ctor_area, DefaultMatrixFormVol.ctor_body.
    simpl. eexists. split; [reflexivity|].
    destruct (new_fresh (DefaultFunction.const one) hf) as [Hfree Hlive].
    repeat split; [exact Hfree|exact Hlive|].
    unfold DefaultMatrixFormVol.dtor. simpl.
    apply (delete_new (DefaultFunction.const one) hf).
  - unfold DefaultJacobianDiffusion.ctor_area, DefaultJacobianDiffusion.ctor_body.
    simpl. eexists. split; [reflexivity|].
    destruct (new_fresh (CubicSpline.const one) hs) as [Hfree Hlive].
    repeat split; [exact Hfree|exact Hlive|].
    unfold DefaultJacobianDiffusion.dtor. simpl.
    apply (delete_new (CubicSpline.const one) hs).
Qed.

(** C6.  A term built on a caller-supplied coefficient object, live at
    address [a], keeps the caller's pointer, allocates nothing, and its
    destructor releases the caller's object: after it the address holds no
    object.  Shown for [DefaultMatrixFormVol] and
    [DefaultJacobianDiffusion]. *)
Theorem dtor_releases_caller_coefficient (i j : Z) (area : string) (c : Scalar)
    (a : nat) (sym : SymFlag) (g : GeomType)
    (hf : gmap nat (DefaultFunction.t Scalar)) (hs : gmap nat (CubicSpline.t Scalar)) :
  is_Some (hf !! a) -> is_Some (hs !! a) ->
  (let '(t, h1) := DefaultMatrixFormVol.ctor_area i j area c (Addr a) sym g hf in
   DefaultMatrixFormVol.function_coeff t = Addr a /\ h1 = hf
   /\ DefaultMatrixFormVol.dtor t h1 = Some (delete a hf)
   /\ released (Addr a) hf (delete a hf))
  /\ (let '(t, h1) := DefaultJacobianDiffusion.ctor_area i j area c (Addr a) sym g hs in
      DefaultJacobianDiffusion.spline_coeff t = Addr a /\ h1 = hs
      /\ DefaultJacobianDiffusion.dtor t h1 = Some (delete a hs)
      /\ released (Addr a) hs (delete a hs)).
Proof.
  intros [f Hf] [s Hs]. split; simpl.
  - destruct (delete_obj_live a f hf Hf) as [Hdel Hrel].
    repeat split; try apply Hrel.
    unfold DefaultMatrixFormVol.dtor. simpl. exact Hdel.
  - destruct (delete_obj_live a s hs Hs) as [Hdel Hrel].
    repeat split; try apply Hrel.
    unfold DefaultJacobianDiffusion.dtor. simpl. exact Hdel.
Qed.

(** A clone shares the coefficient object with the term it was cloned
    from: after the destructor of one, the destructor of the other releases
    an address that holds no object. *)
Lemma clone_shares_coefficient (t : DefaultMatrixFormVol.t Scalar) (a : nat)
    (h : gmap nat (DefaultFunction.t Scalar)) :
  DefaultMatrixFormVol.function_coeff t = Addr a -> is_Some (h !! a) ->
  exists h', DefaultMatrixFormVol.dtor t h = Some h'
             /\ DefaultMatrixFormVol.dtor (DefaultMatrixFormVol.clone t) h' = None.
Proof.
  intros Hp [f Hf]. exists (delete a h).
  unfold DefaultMatrixFormVol.clone, DefaultMatrixFormVol.dtor. rewrite Hp. simpl.
  rewrite Hf, lookup_delete_eq. done.
Qed.

(** [DefaultWeakFormLaplace] hands one caller-supplied spline to its two
    terms: after the destructor of the Jacobian term, the destructor of the
    residual term releases an address that holds no object. *)
Lemma laplace_terms_share_spline (area : string) (c : Scalar) (a : nat) (g : GeomType)
    (h : gmap nat (CubicSpline.t Scalar)) :
  is_Some (h !! a) ->
  exists jac res h',
    DefaultWeakFormLaplace.ctor area c (Addr a) g h
    = ({| DefaultWeakFormLaplace.mfvol := [jac]; DefaultWeakFormLaplace.vfvol := [res] |}, h)
    /\ DefaultJacobianDiffusion.dtor jac h = Some h'
    /\ DefaultResidualDiffusion.dtor res h' = None.
Proof.
  intros [s Hs]. do 2 eexists. exists (delete a h).
  split; [reflexivity|].
  unfold DefaultJacobianDiffusion.dtor, DefaultResidualDiffusion.dtor. simpl.
  rewrite Hs, lookup_delete_eq. done.
Qed.

End Ownership.

(** On the example stores: the caller's function coefficient and the
    caller's spline at address 0 are gone after the destructors. *)
Lemma dtor_releases_caller_coefficient_witness :
  DefaultMatrixFormVol.dtor matrix_vol_example.1 matrix_vol_example.2 = Some ∅
  /\ DefaultJacobianDiffusion.dtor jacobian_diffusion_example.1 jacobian_diffusion_example.2
     = Some ∅.
Proof.
  assert (Hf : is_Some (function_store !! 0%nat)) by (eexists; reflexivity).
  assert (Hs : is_Some (spline_store !! 0%nat)) by (eexists; reflexivity).
  destruct (dtor_releases_caller_coefficient 0 0 "a" 1 0 HERMES_NONSYM HERMES_PLANAR
              function_store spline_store Hf Hs) as [(_ & _ & Hd1 & _) _].
  destruct (dtor_releases_caller_coefficient 0 0 "a" 1 0 HERMES_SYM HERMES_PLANAR
              function_store spline_store Hf Hs) as [_ (_ & _ & Hd2 & _)].
  split.
  - etransitivity; [exact Hd1|]. reflexivity.
  - etransitivity; [exact Hd2|]. reflexivity.
Defined.

(** * The order estimate of the diffusion residual *)

Section ResidualDiffusionOrder.
Context `{ScalarOps Scalar}.

(** Accumulating orders with [+=] from order 0 yields the largest order
    met. *)
Lemma ord_accumulate (k : nat) (F : nat -> Ord.t) :
  for_loop k 0 (fun i r => Ord.add r (F i)) (Ord.of_int 0)
  = Ord.mk (max_below k (fun i => Ord.order (F i))).
Proof.
  induction k as [|k IH]; [reflexivity|].
  rewrite for_loop_snoc, IH. reflexivity.
Qed.

(** C7.  Where the term's spline [kappa] is live in the store, the order
    estimate of [DefaultResidualDiffusion] is the degree of the planar
    summation formula in planar mode and that degree plus one in the two
    axisymmetric modes; the coordinates [e] of the geometry play no part. *)
Theorem DefaultResidualDiffusion_ord_formula
    (h : gmap nat (CubicSpline.t Scalar)) (this : DefaultResidualDiffusion.t Scalar)
    (kappa : CubicSpline.t Scalar) (n : Z) (wt : array Scalar)
    (u_ext : Z -> Func Ord.t) (v : Func Ord.t) (e : Geom Ord.t) :
  deref h (DefaultResidualDiffusion.spline_coeff this) = Some kappa ->
  let planar :=
    planar_residual_order kappa (u_ext (DefaultResidualDiffusion.idx_i this)) v n in
  DefaultResidualDiffusion.ord h this n wt u_ext v e
  = Some (Ord.mk match DefaultResidualDiffusion.gt this with
                 | HERMES_PLANAR => planar
                 | HERMES_AXISYM_X | HERMES_AXISYM_Y => planar + 1
                 end).
Proof.
  intros Hlive planar. unfold DefaultResidualDiffusion.ord.
  rewrite Hlive. simpl.
  rewrite (for_upto_m_defined n (fun i r => Ord.add r _)).
  unfold for_upto. rewrite ord_accumulate. simpl.
  destruct (DefaultResidualDiffusion.gt this); reflexivity.
Qed.

End ResidualDiffusionOrder.

(** On the example spline, whose order overload returns degree 3, and
    gradients of degree 1: degree [0 + 3 + max (1+1) (1+1) = 5] in planar
    mode, 6 about either axis. *)
Lemma DefaultResidualDiffusion_ord_formula_witness :
  DefaultResidualDiffusion.ord spline_store (residual_diffusion_example HERMES_PLANAR)
    2 wt2 (fun _ => quadratic_ord) quadratic_ord geom_ord = Some (Ord.mk 5)
  /\ DefaultResidualDiffusion.ord spline_store (residual_diffusion_example HERMES_AXISYM_X)
       2 wt2 (fun _ => quadratic_ord) quadratic_ord geom_ord = Some (Ord.mk 6)
  /\ DefaultResidualDiffusion.ord spline_store (residual_diffusion_example HERMES_AXISYM_Y)
       2 wt2 (fun _ => quadratic_ord) quadratic_ord geom_ord = Some (Ord.mk 6).
Proof.
  split; [|split];
    (etransitivity;
     [apply (DefaultResidualDiffusion_ord_formula spline_store _ lam_spline); reflexivity
     |reflexivity]).
Defined.

(** * Homogeneity in the constant coefficient *)

Section Homogeneity.
Context `{ScalarOps Scalar}.
Hypothesis mul_one_l : forall a : Scalar, (one * a)%sc = a.

(** The shape shared by the evaluators that end in
    [return const_coeff * result]. *)
Lemma scaled_result_homogeneous (c : Scalar) (loop : option Scalar) :
  (loop ≫= fun result => Some (c * result)%sc)
  = (fun r => c * r)%sc <$> (loop ≫= fun result => Some (one * result)%sc).
Proof. destruct loop as [r|]; simpl; [by rewrite mul_one_l|done]. Qed.

(** Closes [scales_with_constant build eval] for the evaluator [value] of
    such a term, whatever the constructor overload. *)
Ltac scales_by_shape value p g :=
  intros c; split; [|split];
  [ intros n; destruct p, g; unfold value; simpl;
    apply scaled_result_homogeneous
  | destruct p, g; unfold value; simpl; reflexivity
  | intros Hzero; destruct p, g; unfold value; simpl; by rewrite Hzero ].

(** C10.  Given that 1 is a left unit for the product of
    scalars (as it is for [double]), the six terms whose evaluator returns
    [const_coeff * result] ([DefaultMatrixFormVol], [DefaultVectorFormVol],
    [DefaultResidualVol], [DefaultMatrixFormSurf], [DefaultVectorFormSurf],
    [DefaultResidualSurf]), built by either constructor, scale with
    [const_coeff]: the value with constant [c] is [c] times the value with
    constant 1 on every input, and the value on zero quadrature points is
    [c * 0], which is 0 for every [c] with [c * 0 = 0]. *)
Theorem const_coeff_scales_value
    (i j : Z) (area : string) (areas : list string) (p : ptr) (sym : SymFlag)
    (g : GeomType) (h : gmap nat (DefaultFunction.t Scalar))
    (wt : array Scalar) (u_ext : Z -> Func Scalar) (u v : Func Scalar) (e : Geom Scalar) :
  scales_with_constant (fun c => DefaultMatrixFormVol.ctor_area i j area c p sym g h)
              (fun h t n => DefaultMatrixFormVol.value h t n wt u_ext u v e)
  /\ scales_with_constant (fun c => DefaultMatrixFormVol.ctor_areas i j areas c p sym g h)
                 (fun h t n => DefaultMatrixFormVol.value h t n wt u_ext u v e)
  /\ scales_with_constant (fun c => DefaultVectorFormVol.ctor_area i area c p g h)
                 (fun h t n => DefaultVectorFormVol.value h t n wt u_ext v e)
  /\ scales_with_constant (fun c => DefaultVectorFormVol.ctor_areas i areas c p g h)
                 (fun h t n => DefaultVectorFormVol.value h t n wt u_ext v e)
  /\ scales_with_constant (fun c => DefaultResidualVol.ctor_area i area c p g h)
                 (fun h t n => DefaultResidualVol.value h t n wt u_ext v e)
  /\ scales_with_constant (fun c => DefaultResidualVol.ctor_areas i areas c p g h)
                 (fun h t n => DefaultResidualVol.value h t n wt u_ext v e)
  /\ scales_with_constant (fun c => DefaultMatrixFormSurf.ctor_area i j area c p g h)
                 (fun h t n => DefaultMatrixFormSurf.value h t n wt u_ext u v e)
  /\ scales_with_constant (fun c => DefaultMatrixFormSurf.ctor_areas i j areas c p g h)
                 (fun h t n => DefaultMatrixFormSurf.value h t n wt u_ext u v e)
  /\ scales_with_constant (fun c => DefaultVectorFormSurf.ctor_area i area c p g h)
                 (fun h t n => DefaultVectorFormSurf.value h t n wt u_ext v e)
  /\ scales_with_constant (fun c => DefaultVectorFormSurf.ctor_areas i areas c p g h)
                 (fun h t n => DefaultVectorFormSurf.value h t n wt u_ext v e)
  /\ scales_with_constant (fun c => DefaultResidualSurf.ctor_area i area c p g h)
                 (fun h t n => DefaultResidualSurf.value h t n wt u_ext v e)
  /\ scales_with_constant (fun c => DefaultResidualSurf.ctor_areas i areas c p g h)
                 (fun h t n => DefaultResidualSurf.value h t n wt u_ext v e).
Proof.
  split; [|split; [|split; [|split; [|split; [|split; [|split; [|split;
    [|split; [|split; [|split]]]]]]]]]].
  - scales_by_shape (@DefaultMatrixFormVol.value) p g.
  - scales_by_shape (@DefaultMatrixFormVol.value) p g.
  - scales_by_shape (@DefaultVectorFormVol.value) p g.
  - scales_by_shape (@DefaultVectorFormVol.value) p g.
  - scales_by_shape (@DefaultResidualVol.value) p g.
  - scales_by_shape (@DefaultResidualVol.value) p g.
  - scales_by_shape (@DefaultMatrixFormSurf.value) p g.
  - scales_by_shape (@DefaultMatrixFormSurf.value) p g.
  - scales_by_shape (@DefaultVectorFormSurf.value) p g.
  - scales_by_shape (@DefaultVectorFormSurf.value) p g.
  - scales_by_shape (@DefaultResidualSurf.value) p g.
  - scales_by_shape (@DefaultResidualSurf.value) p g.
Qed.

(** Where 0 is right-absorbing, as in exact arithmetic, scaling with the
    constant is homogeneity as the specification words it. *)
Lemma scales_with_constant_homogeneous {T St : Type} (build : Scalar -> T * St)
    (eval : St -> T -> Z -> option Scalar) :
  (forall a : Scalar, (a * zero)%sc = zero) ->
  scales_with_constant build eval -> homogeneous build eval.
Proof.
  intros Hzero Hscales c. destruct (Hscales c) as (Hn & _ & H0).
  split; [exact Hn|]. apply H0, Hzero.
Qed.

End Homogeneity.

(** On the example function coefficient [f(x, y) = x + 2 y] about the x
    axis: with constant 3 the value is [3 * (1*5*13*1*2 + 2*6*16*2*1)], and
    [3 * 0] on no points. *)
Lemma const_coeff_scales_value_witness :
  DefaultMatrixFormVol.value function_store
    (DefaultMatrixFormVol.ctor_area 0 0 "a" 3 (Addr 0) HERMES_NONSYM HERMES_AXISYM_X
       function_store).1 2 wt2 (fun _ => u_prev2) u2 v2 geom2 = Some (3 * 514)
  /\ DefaultMatrixFormVol.value function_store
       (DefaultMatrixFormVol.ctor_area 0 0 "a" 3 (Addr 0) HERMES_NONSYM HERMES_AXISYM_X
          function_store).1 0 wt2 (fun _ => u_prev2) u2 v2 geom2 = Some (3 * 0).
Proof.
  destruct (@const_coeff_scales_value Z Z_ScalarOps Z.mul_1_l
              0 0 "a" ["a"%string] (Addr 0) HERMES_NONSYM HERMES_AXISYM_X function_store
              wt2 (fun _ => u_prev2) u2 v2 geom2) as [Hvol _].
  destruct (Hvol 3) as (Hscaled & Hempty & _).
  split.
  - etransitivity; [exact (Hscaled 2)|]. reflexivity.
  - exact Hempty.
Defined.

(** C10, the value on no points in [double].  The product of an infinite
    constant and the empty sum is NaN: the volume matrix term built with [const_coeff = +inf] on the
    default function evaluates to NaN on zero quadrature points, so the
    term is not homogeneous in the specification's sense. *)
Lemma zero_points_value_is_not_zero :
  DefaultMatrixFormVol.value double_unit_store
    (DefaultMatrixFormVol.ctor_area 0 0 "a" PrimFloat.infinity (Addr 0) HERMES_NONSYM
       HERMES_PLANAR double_unit_store).1 0 double_ones (fun _ => double_unit_func)
    double_unit_func double_unit_func double_unit_geom = Some PrimFloat.nan
  /\ ~ homogeneous
        (fun c => DefaultMatrixFormVol.ctor_area 0 0 "a" c (Addr 0) HERMES_NONSYM
                    HERMES_PLANAR double_unit_store)
        (fun h t n => DefaultMatrixFormVol.value h t n double_ones
                        (fun _ => double_unit_func) double_unit_func double_unit_func
                        double_unit_geom).
Proof.
  split; [reflexivity|].
  intros Hclaim. destruct (Hclaim PrimFloat.infinity) as [_ Hempty].
  apply (f_equal (fun r => match r with
                           | Some a => PrimFloat.is_nan a
                           | None => false
                           end)) in Hempty.
  vm_compute in Hempty. discriminate.
Qed.

(** * The Newton loop *)

Section NewtonFacts.
Context `{ScalarOps Scalar} (Matrix : Type).
Variable assemble : array Scalar -> Matrix * array Scalar.
Variable change_sign : array Scalar -> array Scalar.
Variable get_l2_norm : array Scalar -> Scalar.
Variable lt : Scalar -> Scalar -> bool.
Variable solve : Matrix -> array Scalar -> option (array Scalar).
Variable get_num_dofs : Z.
Variable NEWTON_TOL : Scalar.
Variable NEWTON_MAX_ITER : Z.

Local Abbreviation newton_loop :=
  (Newton.newton_loop Matrix assemble change_sign get_l2_norm lt solve get_num_dofs
     NEWTON_TOL NEWTON_MAX_ITER).
Local Abbreviation main :=
  (Newton.main Matrix assemble change_sign get_l2_norm lt solve get_num_dofs
     NEWTON_TOL NEWTON_MAX_ITER).
Local Abbreviation below_tolerance :=
  (Newton.below_tolerance Matrix assemble change_sign get_l2_norm lt NEWTON_TOL).
Local Abbreviation newton_step :=
  (Newton.newton_step Matrix assemble change_sign solve get_num_dofs).
Local Abbreviation iterate :=
  (Newton.iterate Matrix assemble change_sign solve get_num_dofs).
Local Abbreviation reaches_test :=
  (Newton.reaches_test Matrix assemble change_sign get_l2_norm lt solve get_num_dofs
     NEWTON_TOL).

(** The four ways through one pass of the loop body. *)
Lemma newton_loop_break fuel it success c :
  below_tolerance c = true ->
  newton_loop (S fuel) it success c = Some (Ok (it, success, c)).
Proof.
  unfold Newton.below_tolerance. simpl.
  destruct (assemble c) as [m rhs]. simpl. intros ->. reflexivity.
Qed.

Lemma newton_loop_solver_failure fuel it success c :
  below_tolerance c = false -> it <= NEWTON_MAX_ITER -> newton_step c = None ->
  newton_loop (S fuel) it success c = Some (Fatal Newton.solver_failed_msg).
Proof.
  unfold Newton.below_tolerance, Newton.newton_step. simpl.
  destruct (assemble c) as [m rhs]. simpl. intros -> Hit Hsolve.
  replace (NEWTON_MAX_ITER <? it) with false by (symmetry; apply Z.ltb_ge; lia).
  simpl. destruct (solve m (change_sign rhs)); [discriminate|reflexivity].
Qed.

Lemma newton_loop_continue fuel it success c c' :
  below_tolerance c = false -> it < NEWTON_MAX_ITER -> newton_step c = Some c' ->
  newton_loop (S fuel) it success c = newton_loop fuel (it + 1) true c'.
Proof.
  unfold Newton.below_tolerance, Newton.newton_step. simpl.
  destruct (assemble c) as [m rhs]. simpl. intros -> Hit Hsolve.
  replace (NEWTON_MAX_ITER <? it) with false by (symmetry; apply Z.ltb_ge; lia).
  simpl. destruct (solve m (change_sign rhs)) as [sln|]; [|discriminate].
  simpl in Hsolve. injection Hsolve as <-.
  replace (NEWTON_MAX_ITER <=? it) with false by (symmetry; apply Z.leb_gt; lia).
  reflexivity.
Qed.

Lemma newton_loop_budget fuel success c :
  below_tolerance c = false -> is_Some (newton_step c) ->
  newton_loop (S fuel) NEWTON_MAX_ITER success c = Some (Fatal Newton.not_converged_msg).
Proof.
  unfold Newton.below_tolerance, Newton.newton_step. simpl.
  destruct (assemble c) as [m rhs]. simpl. intros -> [c' Hsolve].
  rewrite Z.ltb_irrefl. simpl.
  destruct (solve m (change_sign rhs)) as [sln|]; [|discriminate].
  rewrite Z.leb_refl. reflexivity.
Qed.

Lemma reaches_test_succ k c :
  reaches_test (S k) c ->
  below_tolerance c = false
  /\ exists c1, newton_step c = Some c1 /\ reaches_test k c1.
Proof.
  intros Hr. destruct (Hr 0%nat) as (c0 & Hc0 & Hbelow & [c1 Hstep]); [lia|].
  simpl in Hc0. injection Hc0 as <-. split; [exact Hbelow|].
  exists c1. split; [exact Hstep|].
  intros j Hj. destruct (Hr (S j)) as (cj & Hcj & Hrest); [lia|].
  exists cj. split; [|exact Hrest].
  simpl in Hcj. rewrite Hstep in Hcj. exact Hcj.
Qed.

(** [k] failed tests followed by [k] successful solves, within the
    budget, are [k] passes of the loop. *)
Lemma newton_loop_run k : forall fuel it success c c',
  reaches_test k c -> iterate k c = Some c' -> it + Z.of_nat k <= NEWTON_MAX_ITER ->
  newton_loop (k + fuel) it success c
  = newton_loop fuel (it + Z.of_nat k) (match k with O => success | S _ => true end) c'.
Proof.
  induction k as [|k IH]; intros fuel it success c c' Hr Hit Hle.
  - simpl in Hit. injection Hit as <-. simpl. by rewrite Z.add_0_r.
  - destruct (reaches_test_succ k c Hr) as (Hbelow & c1 & Hstep & Hr1).
    simpl in Hit. rewrite Hstep in Hit. simpl in Hit.
    change (S k + fuel)%nat with (S (k + fuel)).
    rewrite (newton_loop_continue _ it success c c1 Hbelow) by (try exact Hstep; lia).
    rewrite (IH fuel (it + 1) true c1 c' Hr1 Hit) by lia.
    replace (it + 1 + Z.of_nat k) with (it + Z.of_nat (S k)) by lia.
    by destruct k.
Qed.

(** The loop ends: more fuel than the iterations left in the budget gives
    a result. *)
Lemma newton_loop_total fuel : forall it success c,
  (Z.to_nat (NEWTON_MAX_ITER - it) < fuel)%nat ->
  is_Some (newton_loop fuel it success c).
Proof.
  induction fuel as [|fuel IH]; intros it success c Hfuel; [lia|].
  simpl. destruct (assemble c) as [m rhs].
  destruct (lt _ _ || (NEWTON_MAX_ITER <? it)); [by eexists|].
  destruct (solve m (change_sign rhs)) as [sln|]; [|by eexists].
  destruct (NEWTON_MAX_ITER <=? it) eqn:Hmax; [by eexists|].
  apply IH. apply Z.leb_gt in Hmax. lia.
Qed.

(** [main] ends for every budget: the loop makes at most
    [NEWTON_MAX_ITER] passes (one pass when the budget is below 1). *)
Lemma main_total fuel c :
  (Z.to_nat (NEWTON_MAX_ITER - 1) < fuel)%nat -> is_Some (main fuel c).
Proof.
  intros Hfuel. unfold Newton.main.
  destruct (newton_loop_total fuel 1 false c Hfuel) as [r ->]. by eexists.
Qed.

(** Convergence found at the second test or later is reported as
    success: the flag was set by the solve before it. *)
Lemma later_test_convergence_reports_success k fuel c c' :
  reaches_test (S k) c -> iterate (S k) c = Some c' -> below_tolerance c' = true ->
  1 + Z.of_nat (S k) <= NEWTON_MAX_ITER ->
  main (S k + S fuel) c = Some (Ok (c', Newton.ERR_SUCCESS)).
Proof.
  intros Hr Hit Hbelow Hle. unfold Newton.main.
  rewrite (newton_loop_run (S k) (S fuel) 1 false c c' Hr Hit Hle).
  rewrite newton_loop_break by exact Hbelow. reflexivity.
Qed.



(** Inside the budget the loop is only left by [break] when the residual
    norm is below the tolerance: with [1 <= it <= NEWTON_MAX_ITER] on entry,
    the test [it > NEWTON_MAX_ITER] never holds. *)
Lemma newton_loop_break_converged fuel : forall it success c it' success' c',
  it <= NEWTON_MAX_ITER ->
  newton_loop fuel it success c = Some (Ok (it', success', c')) ->
  below_tolerance c' = true /\ it' <= NEWTON_MAX_ITER.
Proof.
  induction fuel as [|fuel IH]; intros it success c it' success' c' Hle; [discriminate|].
  unfold Newton.below_tolerance. simpl.
  destruct (assemble c) as [m rhs] eqn:Hasm.
  replace (NEWTON_MAX_ITER <? it) with false by (symmetry; apply Z.ltb_ge; lia).
  rewrite orb_false_r.
  destruct (lt (get_l2_norm (change_sign rhs)) NEWTON_TOL) eqn:Htest.
  - intros [= <- <- <-]. rewrite Hasm. simpl. by rewrite Htest.
  - destruct (solve m (change_sign rhs)) as [sln|]; [|discriminate].
    destruct (NEWTON_MAX_ITER <=? it) eqn:Hmax; [discriminate|].
    intros Hrec. apply Z.leb_gt in Hmax.
    eapply (IH (it + 1) true); [lia|exact Hrec].
Qed.

(** A failed solve at pass [k + 1] of the loop, and a successful solve
    at the last pass of the budget. *)
Lemma main_solver_failure k fuel c c_k :
  reaches_test k c -> iterate k c = Some c_k -> below_tolerance c_k = false ->
  newton_step c_k = None -> Z.of_nat k + 1 <= NEWTON_MAX_ITER ->
  main (k + S fuel) c = Some (Fatal Newton.solver_failed_msg).
Proof.
  intros Hr Hit Hbelow Hfail Hle. unfold Newton.main.
  rewrite (newton_loop_run k (S fuel) 1 false c c_k Hr Hit) by lia.
  rewrite newton_loop_solver_failure by (try assumption; lia). reflexivity.
Qed.

Lemma main_budget_exhausted k fuel c c_k :
  reaches_test k c -> iterate k c = Some c_k -> below_tolerance c_k = false ->
  is_Some (newton_step c_k) -> Z.of_nat k + 1 = NEWTON_MAX_ITER ->
  main (k + S fuel) c = Some (Fatal Newton.not_converged_msg).
Proof.
  intros Hr Hit Hbelow Hok Hmax. unfold Newton.main.
  rewrite (newton_loop_run k (S fuel) 1 false c c_k Hr Hit) by lia.
  replace (1 + Z.of_nat k) with NEWTON_MAX_ITER by lia.
  rewrite newton_loop_budget by assumption. reflexivity.
Qed.

(** C4.  Let the first [k] convergence tests fail and the first [k] solves
    succeed, and let test [k + 1] fail at the iterate [c_k].  If the solver
    then fails (iteration [k + 1] being within the budget), [main] aborts
    with "Matrix solver failed."; if it succeeds and iteration [k + 1] is the
    last of the budget, [main] aborts with "Newton method did not converge.".
    The two messages differ, and an aborted run returns no field. *)
Theorem newton_fatal_signals k fuel c c_k :
  reaches_test k c -> iterate k c = Some c_k -> below_tolerance c_k = false ->
  (newton_step c_k = None -> Z.of_nat k + 1 <= NEWTON_MAX_ITER ->
   main (k + S fuel) c = Some (Fatal Newton.solver_failed_msg))
  /\ (is_Some (newton_step c_k) -> Z.of_nat k + 1 = NEWTON_MAX_ITER ->
      main (k + S fuel) c = Some (Fatal Newton.not_converged_msg))
  /\ Newton.solver_failed_msg <> Newton.not_converged_msg
  /\ (forall msg field code,
        @Fatal (array Scalar * Newton.exit_code) msg <> Ok (field, code)).
Proof.
  intros Hr Hit Hbelow. repeat split.
  - intros Hfail Hle. by apply (main_solver_failure k fuel c c_k).
  - intros Hok Hmax. by apply (main_budget_exhausted k fuel c c_k).
  - discriminate.
  - discriminate.
Qed.

End NewtonFacts.

(** The benchmark's budgets.  If the first six tests fail, the six solves
    succeed and the seventh test passes, the run with
    [NEWTON_MAX_ITER = 7] returns the seventh iterate with [ERR_SUCCESS], and
    the run with [NEWTON_MAX_ITER = 6] aborts with "Newton method did not
    converge." without making the seventh test. *)
Lemma budget_seven_versus_six `{ScalarOps Scalar} (Matrix : Type)
    (assemble : array Scalar -> Matrix * array Scalar)
    (change_sign : array Scalar -> array Scalar)
    (get_l2_norm : array Scalar -> Scalar) (lt : Scalar -> Scalar -> bool)
    (solve : Matrix -> array Scalar -> option (array Scalar))
    (get_num_dofs : Z) (NEWTON_TOL : Scalar) (fuel : nat) (c c6 : array Scalar) :
  Newton.reaches_test Matrix assemble change_sign get_l2_norm lt solve get_num_dofs
    NEWTON_TOL 6 c ->
  Newton.iterate Matrix assemble change_sign solve get_num_dofs 6 c = Some c6 ->
  Newton.below_tolerance Matrix assemble change_sign get_l2_norm lt NEWTON_TOL c6 = true ->
  Newton.main Matrix assemble change_sign get_l2_norm lt solve get_num_dofs NEWTON_TOL 7
    (7 + fuel) c = Some (Ok (c6, Newton.ERR_SUCCESS))
  /\ Newton.main Matrix assemble change_sign get_l2_norm lt solve get_num_dofs NEWTON_TOL 6
       (6 + fuel) c = Some (Fatal Newton.not_converged_msg).
Proof.
  intros Hr Hit Hbelow. split.
  - apply (later_test_convergence_reports_success Matrix assemble change_sign get_l2_norm
             lt solve get_num_dofs NEWTON_TOL 7 5 fuel c c6 Hr Hit Hbelow). lia.
  - destruct (Hr 5%nat) as (c5 & Hc5 & Hbelow5 & Hstep5); [lia|].
    assert (Hr5 : Newton.reaches_test Matrix assemble change_sign get_l2_norm lt solve
                    get_num_dofs NEWTON_TOL 5 c).
    { intros j Hj. apply Hr. lia. }
    apply (main_budget_exhausted Matrix assemble change_sign get_l2_norm lt solve
             get_num_dofs NEWTON_TOL 6 5 fuel c c5 Hr5 Hc5 Hbelow5 Hstep5). reflexivity.
Qed.



(** On the toy problem started at [c = 5]: with the failing solver the
    first iteration aborts with the solver message; with the stalled solver
    and a budget of 2 the second iteration aborts with the non-convergence
    message. *)
Lemma newton_fatal_signals_witness :
  toy_main toy_solve_failing 7 1 (fun _ => 5) = Some (Fatal Newton.solver_failed_msg)
  /\ toy_main toy_solve_stalled 2 2 (fun _ => 5) = Some (Fatal Newton.not_converged_msg).
Proof.
  split.
  - assert (Hr : Newton.reaches_test unit toy_assemble toy_change_sign toy_norm Z.ltb
                   toy_solve_failing 1 1 0 (fun _ => 5)).
    { intros j Hj. lia. }
    destruct (newton_fatal_signals unit toy_assemble toy_change_sign toy_norm Z.ltb
                toy_solve_failing 1 1 7 0 0 (fun _ => 5) (fun _ => 5) Hr eq_refl eq_refl)
      as (Hfail & _).
    apply Hfail; [reflexivity|lia].
  - assert (Hr : Newton.reaches_test unit toy_assemble toy_change_sign toy_norm Z.ltb
                   toy_solve_stalled 1 1 1 (fun _ => 5)).
    { intros j Hj. assert (j = 0%nat) as -> by lia.
      eexists. split; [reflexivity|]. split; [reflexivity|]. by eexists. }
    destruct (newton_fatal_signals unit toy_assemble toy_change_sign toy_norm Z.ltb
                toy_solve_stalled 1 1 2 1 0 (fun _ => 5) _ Hr eq_refl eq_refl)
      as (_ & Hbudget & _).
    apply Hbudget; [by eexists|reflexivity].
Defined.

(** * More on the Newton loop *)

Section NewtonBudget.
Context `{ScalarOps Scalar} (Matrix : Type).
Variable assemble : array Scalar -> Matrix * array Scalar.
Variable change_sign : array Scalar -> array Scalar.
Variable get_l2_norm : array Scalar -> Scalar.
Variable lt : Scalar -> Scalar -> bool.
Variable solve : Matrix -> array Scalar -> option (array Scalar).
Variable get_num_dofs : Z.
Variable NEWTON_TOL : Scalar.

Local Abbreviation newton_loop M :=
  (Newton.newton_loop Matrix assemble change_sign get_l2_norm lt solve get_num_dofs
     NEWTON_TOL M).
Local Abbreviation main M :=
  (Newton.main Matrix assemble change_sign get_l2_norm lt solve get_num_dofs
     NEWTON_TOL M).
Local Abbreviation below_tolerance :=
  (Newton.below_tolerance Matrix assemble change_sign get_l2_norm lt NEWTON_TOL).
Local Abbreviation newton_step :=
  (Newton.newton_step Matrix assemble change_sign solve get_num_dofs).
Local Abbreviation iterate :=
  (Newton.iterate Matrix assemble change_sign solve get_num_dofs).
Local Abbreviation reaches_test :=
  (Newton.reaches_test Matrix assemble change_sign get_l2_norm lt solve get_num_dofs
     NEWTON_TOL).

(** The update loop adds the correction to the first [ndof] entries of the
    coefficient vector and leaves the others as they are. *)
Lemma add_correction_prefix (k : nat) (c s : array Scalar) (i : nat) :
  for_loop k 0 (fun i c => Newton.array_set c i (c i + s i)%sc) c i
  = if decide (i < k)%nat then (c i + s i)%sc else c i.
Proof.
  induction k as [|k IH]; [by destruct (decide (i < 0)%nat); [lia|]|].
  rewrite for_loop_snoc. simpl. unfold Newton.array_set at 1.
  destruct (decide (i = k)) as [->|Hne].
  - rewrite IH. destruct (decide (k < k)%nat); [lia|].
    by destruct (decide (k < S k)%nat); [|lia].
  - rewrite IH.
    destruct (decide (i < k)%nat), (decide (i < S k)%nat); try lia; reflexivity.
Qed.

(** Entry [i] of the updated vector is [coeff_vec[i] + solution[i]] for
    [i < ndof] and [coeff_vec[i]] itself from [ndof] on; a non-positive
    [ndof] changes nothing. *)
Theorem add_correction_entries (ndof : Z) (c s : array Scalar) (i : nat) :
  Newton.add_correction ndof c s i
  = if decide (Z.of_nat i < ndof) then (c i + s i)%sc else c i.
Proof.
  unfold Newton.add_correction, for_upto. rewrite add_correction_prefix.
  destruct (decide (i < Z.to_nat ndof)%nat), (decide (Z.of_nat i < ndof));
    try lia; reflexivity.
Qed.

(** Once a solve has succeeded the flag stays set. *)
Lemma newton_loop_keeps_success M fuel : forall it c it' success' c',
  newton_loop M fuel it true c = Some (Ok (it', success', c')) -> success' = true.
Proof.
  induction fuel as [|fuel IH]; intros it c it' success' c'; [discriminate|].
  simpl. destruct (assemble c) as [m rhs].
  destruct (lt _ _ || (M <? it)); [by intros [= _ <- _]|].
  destruct (solve m (change_sign rhs)) as [sln|]; [|discriminate].
  destruct (M <=? it); [discriminate|]. apply IH.
Qed.

(** What a run that leaves the loop by [break] inside the budget has
    done: nothing if the first test passed, at least one solve otherwise. *)
Lemma newton_loop_exit_cases M fuel it success c it' success' c' :
  it <= M ->
  newton_loop M fuel it success c = Some (Ok (it', success', c')) ->
  (below_tolerance c = true /\ success' = success /\ c' = c)
  \/ (below_tolerance c = false /\ success' = true).
Proof.
  intros Hle. destruct fuel as [|fuel]; [discriminate|].
  unfold Newton.below_tolerance. simpl.
  destruct (assemble c) as [m rhs]. simpl.
  replace (M <? it) with false by (symmetry; apply Z.ltb_ge; lia).
  rewrite orb_false_r.
  destruct (lt (get_l2_norm (change_sign rhs)) NEWTON_TOL).
  - intros [= _ <- <-]. by left.
  - destruct (solve m (change_sign rhs)) as [sln|]; [|discriminate].
    destruct (M <=? it); [discriminate|].
    intros Hrec. right. split; [done|].
    by apply newton_loop_keeps_success in Hrec.
Qed.

(** A run that returns normally under a budget of at least 1 returns a
    field that passes the convergence test. *)
Theorem main_returns_converged_field M fuel c field code :
  1 <= M -> main M fuel c = Some (Ok (field, code)) ->
  below_tolerance field = true.
Proof.
  intros HM. unfold Newton.main.
  destruct (newton_loop M fuel 1 false c) as [[[[it' s'] c']|msg]|] eqn:Hloop;
    simpl; [|discriminate..].
  intros [= <- _].
  by destruct (newton_loop_break_converged Matrix assemble change_sign get_l2_norm lt
                 solve get_num_dofs NEWTON_TOL M fuel 1 false c it' s' c' HM Hloop).
Qed.

(** The return code of such a run tells whether a solve was made:
    [ERR_FAILURE] exactly when the initial vector already passed the test, and
    then the field is the initial vector. *)
Theorem main_exit_code_meaning M fuel c field code :
  1 <= M -> main M fuel c = Some (Ok (field, code)) ->
  (code = Newton.ERR_FAILURE <-> below_tolerance c = true)
  /\ (code = Newton.ERR_FAILURE -> field = c).
Proof.
  intros HM. unfold Newton.main.
  destruct (newton_loop M fuel 1 false c) as [[[[it' s'] c']|msg]|] eqn:Hloop;
    simpl; [|discriminate..].
  intros [= <- <-].
  destruct (newton_loop_exit_cases M fuel 1 false c it' s' c' HM Hloop)
    as [(Hb & -> & ->)|(Hb & ->)]; rewrite Hb; simpl.
  - by split.
  - split; [split; discriminate|discriminate].
Qed.

(** With a budget below 1 no solve is made: the run returns the initial
    vector and [ERR_FAILURE], whatever the residual. *)
Theorem main_without_budget M fuel c :
  M <= 0 -> main M (S fuel) c = Some (Ok (c, Newton.ERR_FAILURE)).
Proof.
  intros HM. unfold Newton.main. simpl.
  destruct (assemble c) as [m rhs].
  replace (M <? 1) with true by (symmetry; apply Z.ltb_lt; lia).
  by rewrite orb_true_r.
Qed.

(** Raising the budget does not change a run that did not end in
    non-convergence. *)
Lemma newton_loop_budget_monotone M M' fuel : forall it success c r,
  M <= M' -> it <= M ->
  newton_loop M fuel it success c = Some r -> r <> Fatal Newton.not_converged_msg ->
  newton_loop M' fuel it success c = Some r.
Proof.
  induction fuel as [|fuel IH]; intros it success c r HM Hit; [discriminate|].
  simpl. destruct (assemble c) as [m rhs].
  replace (M <? it) with false by (symmetry; apply Z.ltb_ge; lia).
  replace (M' <? it) with false by (symmetry; apply Z.ltb_ge; lia).
  destruct (lt _ _ || false); [done|].
  destruct (solve m (change_sign rhs)) as [sln|]; [|done].
  destruct (M <=? it) eqn:Hmax.
  - intros [= <-] Hne. by destruct Hne.
  - apply Z.leb_gt in Hmax.
    replace (M' <=? it) with false by (symmetry; apply Z.leb_gt; lia).
    apply IH; lia.
Qed.

(** A run that returns or aborts on a solver failure under a budget
    [M >= 1] gives the same outcome under every larger budget. *)
Theorem main_budget_monotone M M' fuel c r :
  1 <= M -> M <= M' ->
  main M fuel c = Some r -> r <> Fatal Newton.not_converged_msg ->
  main M' fuel c = Some r.
Proof.
  intros H1 HM. unfold Newton.main.
  destruct (newton_loop M fuel 1 false c) as [r0|] eqn:Hloop; [|discriminate].
  simpl. intros [= <-] Hne.
  rewrite (newton_loop_budget_monotone M M' fuel 1 false c r0 HM H1 Hloop); [done|].
  intros ->. by apply Hne.
Qed.

Lemma reaches_test_le k k' c : (k' <= k)%nat -> reaches_test k c -> reaches_test k' c.
Proof. intros Hle Hr j Hj. apply Hr. lia. Qed.

(** The budget a run needs.  If the first [k >= 1] tests fail, the [k]
    solves succeed and test [k + 1] passes at the iterate [c_k], then every
    budget above [k] returns [c_k] with [ERR_SUCCESS], and every budget from 1
    to [k] aborts with the non-convergence message. *)
Theorem budget_threshold k fuel c c_k :
  (1 <= k)%nat -> reaches_test k c -> iterate k c = Some c_k ->
  below_tolerance c_k = true ->
  (forall M, Z.of_nat k + 1 <= M ->
     main M (k + S fuel) c = Some (Ok (c_k, Newton.ERR_SUCCESS)))
  /\ (forall M, 1 <= M <= Z.of_nat k ->
        main M (Z.to_nat M + fuel) c = Some (Fatal Newton.not_converged_msg)).
Proof.
  intros Hk Hr Hit Hbelow. split.
  - intros M HM. destruct k as [|k]; [lia|].
    apply (later_test_convergence_reports_success Matrix assemble change_sign get_l2_norm
             lt solve get_num_dofs NEWTON_TOL M k fuel c c_k Hr Hit Hbelow). lia.
  - intros M HM.
    destruct (Hr (Z.to_nat M - 1)%nat) as (c' & Hc' & Hb' & Hstep'); [lia|].
    replace (Z.to_nat M + fuel)%nat with ((Z.to_nat M - 1) + S fuel)%nat by lia.
    apply (main_budget_exhausted Matrix assemble change_sign get_l2_norm lt solve
             get_num_dofs NEWTON_TOL M (Z.to_nat M - 1) fuel c c'); try done.
    + apply (reaches_test_le k); [lia|exact Hr].
    + lia.
Qed.

End NewtonBudget.

(** The toy problem with the stalled solver and a budget of 7 ends. *)
Lemma main_total_witness :
  is_Some (toy_main toy_solve_stalled 7 7 (fun _ => 5)).
Proof.
  apply (main_total unit toy_assemble toy_change_sign toy_norm Z.ltb toy_solve_stalled
           1 1 7 7 (fun _ => 5)).
  simpl. lia.
Defined.

(** The halving solver started at 4 returns a field that passes the test. *)
Lemma main_returns_converged_field_witness :
  exists field code,
    toy_main toy_solve_halving 7 8 (fun _ => 4) = Some (Ok (field, code))
    /\ Newton.below_tolerance unit toy_assemble toy_change_sign toy_norm Z.ltb 1 field
       = true.
Proof.
  eexists. eexists. split; [reflexivity|].
  apply (main_returns_converged_field unit toy_assemble toy_change_sign toy_norm Z.ltb
           toy_solve_halving 1 1 7 8 (fun _ => 4) _ Newton.ERR_SUCCESS); [lia|reflexivity].
Defined.

(** Started at the solution the run returns [ERR_FAILURE] and the initial
    vector. *)
Lemma main_exit_code_meaning_witness :
  Newton.below_tolerance unit toy_assemble toy_change_sign toy_norm Z.ltb 1 (fun _ => 0)
  = true.
Proof.
  apply (main_exit_code_meaning unit toy_assemble toy_change_sign toy_norm Z.ltb
           toy_solve_exact 1 1 7 8 (fun _ => 0) (fun _ => 0) Newton.ERR_FAILURE);
    [lia|reflexivity|reflexivity].
Defined.

Lemma main_without_budget_witness :
  toy_main toy_solve_exact 0 1 (fun _ => 5) = Some (Ok (fun _ => 5, Newton.ERR_FAILURE)).
Proof.
  apply (main_without_budget unit toy_assemble toy_change_sign toy_norm Z.ltb
           toy_solve_exact 1 1 0 0 (fun _ => 5)).
  lia.
Defined.

(** The halving run that converges under a budget of 4 gives the same
    result under a budget of 7. *)
Lemma main_budget_monotone_witness :
  toy_main toy_solve_halving 7 8 (fun _ => 4) = toy_main toy_solve_halving 4 8 (fun _ => 4).
Proof.
  destruct (toy_main toy_solve_halving 4 8 (fun _ => 4)) as [r|] eqn:Hrun;
    [|discriminate Hrun].
  apply (main_budget_monotone unit toy_assemble toy_change_sign toy_norm Z.ltb
           toy_solve_halving 1 1 4 7 8 (fun _ => 4) r); [lia|lia|exact Hrun|].
  intros ->. discriminate Hrun.
Defined.

(** The halving solver started at 4 passes its fourth test: budgets 4 and
    more succeed, budgets 1 to 3 abort. *)
Lemma budget_threshold_witness :
  (exists field, toy_main toy_solve_halving 4 4 (fun _ => 4)
                 = Some (Ok (field, Newton.ERR_SUCCESS)))
  /\ toy_main toy_solve_halving 3 3 (fun _ => 4) = Some (Fatal Newton.not_converged_msg).
Proof.
  assert (Hr : Newton.reaches_test unit toy_assemble toy_change_sign toy_norm Z.ltb
                 toy_solve_halving 1 1 3 (fun _ => 4)).
  { intros j Hj.
    destruct j as [|[|[|j]]]; [| | |lia];
      (eexists; split; [reflexivity|]; split; [reflexivity|by eexists]). }
  destruct (budget_threshold unit toy_assemble toy_change_sign toy_norm Z.ltb
              toy_solve_halving 1 1 3 0 (fun _ => 4) _ ltac:(lia) Hr eq_refl eq_refl)
    as [Hok Hfail].
  split.
  - eexists. apply (Hok 4). lia.
  - apply (Hfail 3). lia.
Defined.

(** * More on construction and destruction *)

Section StoreFacts.
Context {A : Type}.

Lemma new_frame (o : A) (h : gmap nat A) :
  h !! (new o h).1 = None /\ (new o h).2 !! (new o h).1 = Some o
  /\ forall b, b <> (new o h).1 -> (new o h).2 !! b = h !! b.
Proof.
  destruct (new_fresh o h) as [Hfree Hlive]. repeat split; [done..|].
  intros b Hb. unfold new. simpl. by rewrite lookup_insert_ne.
Qed.

Lemma new_construction_frame {T} (coeff : T -> ptr) (t : T) (o : A) (h : gmap nat A) :
  coeff t = Addr (new o h).1 ->
  construction_frame coeff Sentinel h (t, (new o h).2).
Proof.
  intros Hc. destruct (new_frame o h) as (Hfree & Hlive & Hother).
  split; simpl.
  - intros a o' Ha. rewrite Hother; [done|]. intros ->. congruence.
  - eexists. split; [exact Hc|]. split; [done|]. split; [by eexists|done].
Qed.

(** Two objects allocated one after the other sit at different addresses,
    and releasing both gives the store back. *)
Lemma two_allocations_released (o1 o2 : A) (h : gmap nat A) :
  let a1 := (new o1 h).1 in
  let h1 := (new o1 h).2 in
  let a2 := (new o2 h1).1 in
  let h2 := (new o2 h1).2 in
  a1 <> a2 /\ h !! a1 = None /\ h !! a2 = None
  /\ h2 !! a1 = Some o1 /\ h2 !! a2 = Some o2
  /\ (delete_obj (Addr a1) h2 ≫= delete_obj (Addr a2)) = Some h.
Proof.
  intros a1 h1 a2 h2.
  destruct (new_frame o1 h) as (Hfree1 & Hlive1 & Hother1).
  destruct (new_frame o2 h1) as (Hfree2 & Hlive2 & Hother2).
  fold a1 in Hfree1, Hlive1, Hother1. fold h1 in Hlive1, Hother1.
  fold a2 in Hfree2, Hlive2, Hother2. fold h2 in Hlive2, Hother2.
  assert (Hne : a1 <> a2) by (intros Heq; rewrite <- Heq in Hfree2; congruence).
  assert (Hfree2' : h !! a2 = None) by (rewrite <- Hother1; [done|congruence]).
  assert (Hlive1' : h2 !! a1 = Some o1) by (rewrite Hother2; [done|congruence]).
  repeat split; try done.
  unfold delete_obj. rewrite Hlive1'. simpl.
  rewrite lookup_delete_ne by done. rewrite Hlive2. f_equal.
  apply map_eq. intros b.
  destruct (decide (b = a2)) as [->|Hb2]; [by rewrite lookup_delete_eq|].
  rewrite lookup_delete_ne by done.
  destruct (decide (b = a1)) as [->|Hb1]; [by rewrite lookup_delete_eq|].
  rewrite lookup_delete_ne by done.
  rewrite Hother2 by done. by rewrite Hother1.
Qed.

End StoreFacts.

Section ConstructionFrame.
Context `{ScalarOps Scalar}.

(** Closes [construction_frame coeff p h (ctor ... p ... h)] by cases on
    the coefficient argument [p]; [o] is the default object. *)
Ltac frame_by_cases p o h :=
  destruct p as [|a];
  [ apply (new_construction_frame _ _ o h); reflexivity
  | split; [done | split; reflexivity] ].

(** Every constructor that initialises its coefficient member from the
    argument keeps the objects of the store in place, keeps a caller-supplied
    pointer without allocating, and for the sentinel allocates one object at a
    free address and points the term to it. *)
Theorem construction_keeps_store (i j : Z) (area : string) (areas : list string)
    (c : Scalar) (p : ptr) (sym : SymFlag) (g : GeomType)
    (hf : gmap nat (DefaultFunction.t Scalar)) (hs : gmap nat (CubicSpline.t Scalar)) :
  construction_frame DefaultMatrixFormVol.function_coeff p hf
    (DefaultMatrixFormVol.ctor_area i j area c p sym g hf)
  /\ construction_frame DefaultMatrixFormVol.function_coeff p hf
       (DefaultMatrixFormVol.ctor_areas i j areas c p sym g hf)
  /\ construction_frame DefaultJacobianDiffusion.spline_coeff p hs
       (DefaultJacobianDiffusion.ctor_area i j area c p sym g hs)
  /\ construction_frame DefaultJacobianDiffusion.spline_coeff p hs
       (DefaultJacobianDiffusion.ctor_areas i j areas c p sym g hs)
  /\ construction_frame DefaultVectorFormVol.function_coeff p hf
       (DefaultVectorFormVol.ctor_area i area c p g hf)
  /\ construction_frame DefaultVectorFormVol.function_coeff p hf
       (DefaultVectorFormVol.ctor_areas i areas c p g hf)
  /\ construction_frame DefaultResidualVol.function_coeff p hf
       (DefaultResidualVol.ctor_area i area c p g hf)
  /\ construction_frame DefaultResidualVol.function_coeff p hf
       (DefaultResidualVol.ctor_areas i areas c p g hf)
  /\ construction_frame DefaultResidualDiffusion.spline_coeff p hs
       (DefaultResidualDiffusion.ctor_area i area c p g hs)
  /\ construction_frame DefaultResidualDiffusion.spline_coeff p hs
       (DefaultResidualDiffusion.ctor_areas i areas c p g hs)
  /\ construction_frame DefaultMatrixFormSurf.function_coeff p hf
       (DefaultMatrixFormSurf.ctor_area i j area c p g hf)
  /\ construction_frame DefaultMatrixFormSurf.function_coeff p hf
       (DefaultMatrixFormSurf.ctor_areas i j areas c p g hf)
  /\ construction_frame DefaultJacobianFormSurf.spline_coeff p hs
       (DefaultJacobianFormSurf.ctor_area i j area c p g hs)
  /\ construction_frame DefaultVectorFormSurf.function_coeff p hf
       (DefaultVectorFormSurf.ctor_area i area c p g hf)
  /\ construction_frame DefaultVectorFormSurf.function_coeff p hf
       (DefaultVectorFormSurf.ctor_areas i areas c p g hf)
  /\ construction_frame DefaultResidualSurf.function_coeff p hf
       (DefaultResidualSurf.ctor_area i area c p g hf)
  /\ construction_frame DefaultResidualSurf.function_coeff p hf
       (DefaultResidualSurf.ctor_areas i areas c p g hf).
Proof.
  split; [|split; [|split; [|split; [|split; [|split; [|split; [|split; [|split;
    [|split; [|split; [|split; [|split; [|split; [|split; [|split]]]]]]]]]]]]]]].
  - frame_by_cases p (DefaultFunction.const (one : Scalar)) hf.
  - frame_by_cases p (DefaultFunction.const (one : Scalar)) hf.
  - frame_by_cases p (CubicSpline.const (one : Scalar)) hs.
  - frame_by_cases p (CubicSpline.const (one : Scalar)) hs.
  - frame_by_cases p (DefaultFunction.const (one : Scalar)) hf.
  - frame_by_cases p (DefaultFunction.const (one : Scalar)) hf.
  - frame_by_cases p (DefaultFunction.const (one : Scalar)) hf.
  - frame_by_cases p (DefaultFunction.const (one : Scalar)) hf.
  - frame_by_cases p (CubicSpline.const (one : Scalar)) hs.
  - frame_by_cases p (CubicSpline.const (one : Scalar)) hs.
  - frame_by_cases p (DefaultFunction.const (one : Scalar)) hf.
  - frame_by_cases p (DefaultFunction.const (one : Scalar)) hf.
  - frame_by_cases p (CubicSpline.const (one : Scalar)) hs.
  - frame_by_cases p (DefaultFunction.const (one : Scalar)) hf.
  - frame_by_cases p (DefaultFunction.const (one : Scalar)) hf.
  - frame_by_cases p (DefaultFunction.const (one : Scalar)) hf.
  - frame_by_cases p (DefaultFunction.const (one : Scalar)) hf.
Qed.

(** Built with both splines defaulted, an advection term owns two
    distinct constant splines at addresses that were free, whichever
    constructor built it and whatever the storage held, and its destructor
    gives the store back. *)
Theorem advection_default_splines (i j : Z) (area : string) (areas : list string)
    (c1 c2 : Scalar) (h : gmap nat (CubicSpline.t Scalar))
    (rawJ : DefaultJacobianAdvection.t Scalar)
    (rawR : DefaultResidualAdvection.t Scalar) :
  owns_two_defaults h DefaultJacobianAdvection.spline_coeff1 DefaultJacobianAdvection.spline_coeff2
    DefaultJacobianAdvection.dtor
    (DefaultJacobianAdvection.ctor_area i j area c1 c2 HERMES_DEFAULT_SPLINE
       HERMES_DEFAULT_SPLINE HERMES_PLANAR h)
  /\ owns_two_defaults h DefaultJacobianAdvection.spline_coeff1 DefaultJacobianAdvection.spline_coeff2
       DefaultJacobianAdvection.dtor
       (DefaultJacobianAdvection.ctor_areas rawJ i j areas c1 c2 HERMES_DEFAULT_SPLINE
          HERMES_DEFAULT_SPLINE HERMES_PLANAR h)
  /\ owns_two_defaults h DefaultResidualAdvection.spline_coeff1 DefaultResidualAdvection.spline_coeff2
       DefaultResidualAdvection.dtor
       (DefaultResidualAdvection.ctor_area i area c1 c2 HERMES_DEFAULT_SPLINE
          HERMES_DEFAULT_SPLINE HERMES_PLANAR h)
  /\ owns_two_defaults h DefaultResidualAdvection.spline_coeff1 DefaultResidualAdvection.spline_coeff2
       DefaultResidualAdvection.dtor
       (DefaultResidualAdvection.ctor_areas rawR i areas c1 c2 HERMES_DEFAULT_SPLINE
          HERMES_DEFAULT_SPLINE HERMES_PLANAR h).
Proof.
  unfold owns_two_defaults.
  destruct (two_allocations_released (CubicSpline.const (one : Scalar))
              (CubicSpline.const (one : Scalar)) h)
    as (Hne & Hf1 & Hf2 & Hl1 & Hl2 & Hdel).
  split; [|split; [|split]];
    (do 4 eexists; split; [reflexivity|];
     split; [reflexivity|]; split; [reflexivity|];
     split; [exact Hne|]; split; [exact Hf1|]; split; [exact Hf2|];
     split; [exact Hl1|]; split; [exact Hl2|]; exact Hdel).
Qed.

End ConstructionFrame.

Section SharedCoefficients.
Context `{ScalarOps Scalar}.

(** An advection term given one caller-supplied spline for both
    directions holds it twice: its destructor releases the spline and then
    releases it again, which is undefined. *)
Theorem advection_same_spline_double_delete (i j : Z) (area : string) (c1 c2 : Scalar)
    (a : nat) (h : gmap nat (CubicSpline.t Scalar)) :
  is_Some (h !! a) ->
  (exists t, DefaultJacobianAdvection.ctor_area i j area c1 c2 (Addr a) (Addr a)
               HERMES_PLANAR h = Ok (t, h)
             /\ DefaultJacobianAdvection.spline_coeff1 t = Addr a
             /\ DefaultJacobianAdvection.spline_coeff2 t = Addr a
             /\ DefaultJacobianAdvection.dtor t h = None)
  /\ (exists t, DefaultResidualAdvection.ctor_area i area c1 c2 (Addr a) (Addr a)
                  HERMES_PLANAR h = Ok (t, h)
                /\ DefaultResidualAdvection.spline_coeff1 t = Addr a
                /\ DefaultResidualAdvection.spline_coeff2 t = Addr a
                /\ DefaultResidualAdvection.dtor t h = None).
Proof.
  intros [s Hs]. split; eexists; (split; [reflexivity|]);
    (split; [reflexivity|]); (split; [reflexivity|]).
  - unfold DefaultJacobianAdvection.dtor. simpl. rewrite Hs. simpl.
    by rewrite lookup_delete_eq.
  - unfold DefaultResidualAdvection.dtor. simpl. rewrite Hs. simpl.
    by rewrite lookup_delete_eq.
Qed.

(** [DefaultWeakFormLaplace] built with the sentinel: its two terms own
    two different constant splines at addresses that were free, and the two
    destructors give the store back. *)
Theorem laplace_default_splines_owned (area : string) (c : Scalar) (g : GeomType)
    (h : gmap nat (CubicSpline.t Scalar)) :
  exists jac res h2 a1 a2,
    DefaultWeakFormLaplace.ctor area c HERMES_DEFAULT_SPLINE g h
    = ({| DefaultWeakFormLaplace.mfvol := [jac]; DefaultWeakFormLaplace.vfvol := [res] |}, h2)
    /\ DefaultJacobianDiffusion.spline_coeff jac = Addr a1
    /\ DefaultResidualDiffusion.spline_coeff res = Addr a2
    /\ a1 <> a2 /\ h !! a1 = None /\ h !! a2 = None
    /\ h2 !! a1 = Some (CubicSpline.const one) /\ h2 !! a2 = Some (CubicSpline.const one)
    /\ (DefaultJacobianDiffusion.dtor jac h2 ≫= DefaultResidualDiffusion.dtor res) = Some h.
Proof.
  destruct (two_allocations_released (CubicSpline.const (one : Scalar))
              (CubicSpline.const (one : Scalar)) h)
    as (Hne & Hf1 & Hf2 & Hl1 & Hl2 & Hdel).
  do 5 eexists. split; [reflexivity|].
  split; [reflexivity|]. split; [reflexivity|].
  split; [exact Hne|]. split; [exact Hf1|]. split; [exact Hf2|].
  split; [exact Hl1|]. split; [exact Hl2|]. exact Hdel.
Qed.

(** A clone evaluates like the term it was cloned from, on every store
    and every input: both evaluators give the same result, the value being
    defined while the term is alive.  Once the term's destructor has run,
    evaluating the clone on one or more points reads a released coefficient,
    which is undefined. *)
Theorem clone_dangles_after_dtor (a : nat) (n : Z)
    (tf : DefaultMatrixFormVol.t Scalar) (hf : gmap nat (DefaultFunction.t Scalar))
    (ts : DefaultJacobianDiffusion.t Scalar) (hs : gmap nat (CubicSpline.t Scalar))
    (wt : array Scalar) (u_ext : Z -> Func Scalar) (u v : Func Scalar) (e : Geom Scalar) :
  0 < n ->
  DefaultMatrixFormVol.function_coeff tf = Addr a -> is_Some (hf !! a) ->
  DefaultJacobianDiffusion.spline_coeff ts = Addr a -> is_Some (hs !! a) ->
  ((forall h m wt' u_ext' u' v' e',
      DefaultMatrixFormVol.value h (DefaultMatrixFormVol.clone tf) m wt' u_ext' u' v' e'
      = DefaultMatrixFormVol.value h tf m wt' u_ext' u' v' e')
   /\ (forall h m wt' u_ext' u' v' e',
         DefaultMatrixFormVol.ord h (DefaultMatrixFormVol.clone tf) m wt' u_ext' u' v' e'
         = DefaultMatrixFormVol.ord h tf m wt' u_ext' u' v' e')
   /\ is_Some (DefaultMatrixFormVol.value hf (DefaultMatrixFormVol.clone tf) n wt u_ext
                 u v e)
   /\ exists hf', DefaultMatrixFormVol.dtor tf hf = Some hf'
        /\ DefaultMatrixFormVol.value hf' (DefaultMatrixFormVol.clone tf) n wt u_ext u v e
           = None)
  /\ ((forall h m wt' u_ext' u' v' e',
         DefaultJacobianDiffusion.value h (DefaultJacobianDiffusion.clone ts) m wt' u_ext'
           u' v' e'
         = DefaultJacobianDiffusion.value h ts m wt' u_ext' u' v' e')
      /\ (forall h m wt' u_ext' u' v' e',
            DefaultJacobianDiffusion.ord h (DefaultJacobianDiffusion.clone ts) m wt' u_ext'
              u' v' e'
            = DefaultJacobianDiffusion.ord h ts m wt' u_ext' u' v' e')
      /\ is_Some (DefaultJacobianDiffusion.value hs (DefaultJacobianDiffusion.clone ts) n wt
                    u_ext u v e)
      /\ exists hs', DefaultJacobianDiffusion.dtor ts hs = Some hs'
           /\ DefaultJacobianDiffusion.value hs' (DefaultJacobianDiffusion.clone ts) n wt
                u_ext u v e = None).
Proof.
  intros Hn Hpf [f Hf] Hps [s Hs].
  split; (split; [reflexivity|split; [reflexivity|split]]).
  - unfold DefaultMatrixFormVol.clone, DefaultMatrixFormVol.value. rewrite Hpf. simpl.
    rewrite Hf. destruct (DefaultMatrixFormVol.gt tf); simpl;
      rewrite for_upto_m_defined; by eexists.
  - exists (delete a hf). split.
    + unfold DefaultMatrixFormVol.dtor. rewrite Hpf. simpl. by rewrite Hf.
    + unfold DefaultMatrixFormVol.clone, DefaultMatrixFormVol.value. rewrite Hpf. simpl.
      rewrite lookup_delete_eq.
      destruct (DefaultMatrixFormVol.gt tf); by rewrite for_upto_m_undefined.
  - unfold DefaultJacobianDiffusion.clone, DefaultJacobianDiffusion.value.
    rewrite Hps. simpl. rewrite Hs.
    destruct (DefaultJacobianDiffusion.gt ts); simpl;
      rewrite for_upto_m_defined; by eexists.
  - exists (delete a hs). split.
    + unfold DefaultJacobianDiffusion.dtor. rewrite Hps. simpl. by rewrite Hs.
    + unfold DefaultJacobianDiffusion.clone, DefaultJacobianDiffusion.value.
      rewrite Hps. simpl. rewrite lookup_delete_eq.
      destruct (DefaultJacobianDiffusion.gt ts); by rewrite for_upto_m_undefined.
Qed.

(** For the eight term kinds whose area-list constructor initialises the
    members from the arguments, the two constructors give terms that evaluate
    alike on every input, whatever the list of areas. *)
Theorem area_overloads_same_value (i j : Z) (area : string) (areas : list string)
    (c : Scalar) (p : ptr) (sym : SymFlag) (g : GeomType)
    (hf : gmap nat (DefaultFunction.t Scalar)) (hs : gmap nat (CubicSpline.t Scalar))
    (n : Z) (wt : array Scalar) (u_ext : Z -> Func Scalar) (u v : Func Scalar)
    (e : Geom Scalar) :
  let on_m {T St} (eval : St -> T -> _) (r : T * St) : option Scalar :=
    eval r.2 r.1 n wt u_ext u v e in
  let on_v {T St} (eval : St -> T -> _) (r : T * St) : option Scalar :=
    eval r.2 r.1 n wt u_ext v e in
  on_m DefaultMatrixFormVol.value (DefaultMatrixFormVol.ctor_areas i j areas c p sym g hf)
  = on_m DefaultMatrixFormVol.value (DefaultMatrixFormVol.ctor_area i j area c p sym g hf)
  /\ on_m DefaultJacobianDiffusion.value
       (DefaultJacobianDiffusion.ctor_areas i j areas c p sym g hs)
     = on_m DefaultJacobianDiffusion.value
         (DefaultJacobianDiffusion.ctor_area i j area c p sym g hs)
  /\ on_v DefaultVectorFormVol.value (DefaultVectorFormVol.ctor_areas i areas c p g hf)
     = on_v DefaultVectorFormVol.value (DefaultVectorFormVol.ctor_area i area c p g hf)
  /\ on_v DefaultResidualVol.value (DefaultResidualVol.ctor_areas i areas c p g hf)
     = on_v DefaultResidualVol.value (DefaultResidualVol.ctor_area i area c p g hf)
  /\ on_v DefaultResidualDiffusion.value
       (DefaultResidualDiffusion.ctor_areas i areas c p g hs)
     = on_v DefaultResidualDiffusion.value
         (DefaultResidualDiffusion.ctor_area i area c p g hs)
  /\ on_m DefaultMatrixFormSurf.value (DefaultMatrixFormSurf.ctor_areas i j areas c p g hf)
     = on_m DefaultMatrixFormSurf.value (DefaultMatrixFormSurf.ctor_area i j area c p g hf)
  /\ on_v DefaultVectorFormSurf.value (DefaultVectorFormSurf.ctor_areas i areas c p g hf)
     = on_v DefaultVectorFormSurf.value (DefaultVectorFormSurf.ctor_area i area c p g hf)
  /\ on_v DefaultResidualSurf.value (DefaultResidualSurf.ctor_areas i areas c p g hf)
     = on_v DefaultResidualSurf.value (DefaultResidualSurf.ctor_area i area c p g hf).
Proof.
  simpl. destruct p; repeat split; reflexivity.
Qed.

End SharedCoefficients.

(** On the example store: the spline at address 0 given for both
    directions. *)
Lemma advection_same_spline_double_delete_witness :
  exists t, DefaultJacobianAdvection.ctor_area 0 0 "a" 1 1 (Addr 0) (Addr 0) HERMES_PLANAR
              spline_store = Ok (t, spline_store)
            /\ DefaultJacobianAdvection.dtor t spline_store = None.
Proof.
  assert (Hs : is_Some (spline_store !! 0%nat)) by (eexists; reflexivity).
  destruct (advection_same_spline_double_delete 0 0 "a" 1 1 0 spline_store Hs)
    as [(t & Hctor & _ & _ & Hdtor) _].
  exists t. split; [exact Hctor|exact Hdtor].
Defined.

(** On the example stores, with two quadrature points: the clone of the
    diffusion Jacobian term evaluates to 632 like the term, and to nothing
    after the term's destructor. *)
Lemma clone_dangles_after_dtor_witness :
  DefaultJacobianDiffusion.value spline_store
    (DefaultJacobianDiffusion.clone jacobian_diffusion_example.1)
    2 wt2 (fun _ => u_prev2) u2 v2 geom2 = Some 632
  /\ exists hs',
       DefaultJacobianDiffusion.dtor jacobian_diffusion_example.1 spline_store = Some hs'
       /\ DefaultJacobianDiffusion.value hs'
            (DefaultJacobianDiffusion.clone jacobian_diffusion_example.1)
            2 wt2 (fun _ => u_prev2) u2 v2 geom2 = None.
Proof.
  assert (Hf : is_Some (function_store !! 0%nat)) by (eexists; reflexivity).
  assert (Hs : is_Some (spline_store !! 0%nat)) by (eexists; reflexivity).
  destruct (clone_dangles_after_dtor 0 2 matrix_vol_example.1 function_store
              jacobian_diffusion_example.1 spline_store wt2 (fun _ => u_prev2) u2 v2 geom2
              ltac:(lia) eq_refl Hf eq_refl Hs) as [_ (Hsame & _ & _ & Hdangle)].
  split; [|exact Hdangle].
  etransitivity; [apply Hsame|]. reflexivity.
Defined.

(** On the example store: both terms of the Laplace form hold address 0. *)
Lemma laplace_terms_share_spline_witness :
  exists jac res h',
    DefaultWeakFormLaplace.ctor "a" 1 (Addr 0) HERMES_PLANAR spline_store
    = ({| DefaultWeakFormLaplace.mfvol := [jac]; DefaultWeakFormLaplace.vfvol := [res] |},
       spline_store)
    /\ DefaultJacobianDiffusion.dtor jac spline_store = Some h'
    /\ DefaultResidualDiffusion.dtor res h' = None.
Proof.
  apply (laplace_terms_share_spline "a" 1 0 HERMES_PLANAR spline_store).
  eexists. reflexivity.
Defined.

(** * When an evaluation is defined *)

Section Definedness.
Context {A : Type}.

Lemma for_loop_is_Some (k i0 : nat) (body : nat -> A -> option A) (acc : A) :
  (forall i a, is_Some (body i a)) ->
  is_Some (for_loop k i0 (fun i r => r ≫= body i) (Some acc)).
Proof.
  intros Hb. revert i0 acc. induction k as [|k IH]; intros i0 acc; simpl; [by eexists|].
  destruct (Hb i0 acc) as [a' ->]. apply IH.
Qed.

(** A loop that reads the objects [o] at every pass is defined exactly
    when it makes no pass or the objects are there. *)
Lemma for_upto_m_defined_iff {B} (o : option B) (n : Z) (f : B -> nat -> A -> A) (acc : A) :
  is_Some (for_upto_m n (fun i a => s ← o; Some (f s i a)) acc) <-> n <= 0 \/ is_Some o.
Proof.
  split.
  - intros Hsome. destruct (decide (n <= 0)) as [|Hn]; [by left|]. right.
    destruct o as [s|]; [by eexists|].
    rewrite for_upto_m_undefined in Hsome by (done || lia). by destruct Hsome.
  - intros [Hn|[s ->]].
    + rewrite for_upto_m_nonpos by done. by eexists.
    + apply for_loop_is_Some. intros i a. by eexists.
Qed.

(** Bodies that agree on the indices the loop visits give the same
    result. *)
Lemma for_loop_ext {B} (k i0 : nat) (body1 body2 : nat -> B -> B) (acc : B) :
  (forall i a, (i0 <= i < i0 + k)%nat -> body1 i a = body2 i a) ->
  for_loop k i0 body1 acc = for_loop k i0 body2 acc.
Proof.
  revert i0 acc. induction k as [|k IH]; intros i0 acc Hb; simpl; [done|].
  rewrite Hb by lia. apply IH. intros i a Hi. apply Hb. lia.
Qed.

Lemma for_upto_m_ext (n : Z) (body1 body2 : nat -> A -> option A) (acc : A) :
  (forall i a, (i < Z.to_nat n)%nat -> body1 i a = body2 i a) ->
  for_upto_m n body1 acc = for_upto_m n body2 acc.
Proof.
  intros Hb. unfold for_upto_m, for_upto.
  apply for_loop_ext. intros i [a|] Hi; simpl; [|done]. apply Hb. lia.
Qed.

End Definedness.

Section ValueDefinedness.
Context `{ScalarOps Scalar}.

Lemma scaled_is_Some (c : Scalar) (loop : option Scalar) :
  is_Some (loop ≫= fun result => Some (c * result)%sc) <-> is_Some loop.
Proof. destruct loop; simpl; split; intros [? ?]; by eexists. Qed.

Lemma two_reads_defined_iff {B} (o1 o2 : option B) (n : Z)
    (f : B -> B -> nat -> Scalar -> Scalar) (acc : Scalar) :
  is_Some (for_upto_m n (fun i a => s1 ← o1; s2 ← o2; Some (f s1 s2 i a)) acc)
  <-> n <= 0 \/ (is_Some o1 /\ is_Some o2).
Proof.
  destruct o1 as [s1|], o2 as [s2|]; simpl.
  - rewrite for_upto_m_defined. split.
    + intros _. right. split; by eexists.
    + intros _. by eexists.
  - rewrite (for_upto_m_defined_iff (None : option B) n (fun _ i a => a)).
    split; (intros [Hn|Hs]; [by left|exfalso]).
    + by destruct Hs.
    + destruct Hs as [_ Hs]. by destruct Hs.
  - rewrite (for_upto_m_defined_iff (None : option B) n (fun _ i a => a)).
    split; (intros [Hn|Hs]; [by left|exfalso]).
    + by destruct Hs.
    + destruct Hs as [Hs _]. by destruct Hs.
  - rewrite (for_upto_m_defined_iff (None : option B) n (fun _ i a => a)).
    split; (intros [Hn|Hs]; [by left|exfalso]).
    + by destruct Hs.
    + destruct Hs as [Hs _]. by destruct Hs.
Qed.

(** An evaluation reads the coefficient objects once per quadrature point:
    it is defined exactly when there is no point ([n <= 0]) or every
    coefficient pointer of the term holds a live object. *)
Theorem value_defined_iff (n : Z) (wt : array Scalar) (u_ext : Z -> Func Scalar)
    (u v : Func Scalar) (e : Geom Scalar)
    (hf : gmap nat (DefaultFunction.t Scalar)) (hs : gmap nat (CubicSpline.t Scalar))
    (t1 : DefaultMatrixFormVol.t Scalar) (t2 : DefaultJacobianDiffusion.t Scalar)
    (t3 : DefaultJacobianAdvection.t Scalar) (t4 : DefaultVectorFormVol.t Scalar)
    (t5 : DefaultResidualVol.t Scalar) (t6 : DefaultResidualDiffusion.t Scalar)
    (t7 : DefaultResidualAdvection.t Scalar) (t8 : DefaultMatrixFormSurf.t Scalar)
    (t9 : DefaultJacobianFormSurf.t Scalar) (t10 : DefaultVectorFormSurf.t Scalar)
    (t11 : DefaultResidualSurf.t Scalar) :
  (is_Some (DefaultMatrixFormVol.value hf t1 n wt u_ext u v e)
   <-> n <= 0 \/ is_Some (deref hf (DefaultMatrixFormVol.function_coeff t1)))
  /\ (is_Some (DefaultJacobianDiffusion.value hs t2 n wt u_ext u v e)
      <-> n <= 0 \/ is_Some (deref hs (DefaultJacobianDiffusion.spline_coeff t2)))
  /\ (is_Some (DefaultJacobianAdvection.value hs t3 n wt u_ext u v e)
      <-> n <= 0 \/ (is_Some (deref hs (DefaultJacobianAdvection.spline_coeff1 t3))
                     /\ is_Some (deref hs (DefaultJacobianAdvection.spline_coeff2 t3))))
  /\ (is_Some (DefaultVectorFormVol.value hf t4 n wt u_ext v e)
      <-> n <= 0 \/ is_Some (deref hf (DefaultVectorFormVol.function_coeff t4)))
  /\ (is_Some (DefaultResidualVol.value hf t5 n wt u_ext v e)
      <-> n <= 0 \/ is_Some (deref hf (DefaultResidualVol.function_coeff t5)))
  /\ (is_Some (DefaultResidualDiffusion.value hs t6 n wt u_ext v e)
      <-> n <= 0 \/ is_Some (deref hs (DefaultResidualDiffusion.spline_coeff t6)))
  /\ (is_Some (DefaultResidualAdvection.value hs t7 n wt u_ext v e)
      <-> n <= 0 \/ (is_Some (deref hs (DefaultResidualAdvection.spline_coeff1 t7))
                     /\ is_Some (deref hs (DefaultResidualAdvection.spline_coeff2 t7))))
  /\ (is_Some (DefaultMatrixFormSurf.value hf t8 n wt u_ext u v e)
      <-> n <= 0 \/ is_Some (deref hf (DefaultMatrixFormSurf.function_coeff t8)))
  /\ (is_Some (DefaultJacobianFormSurf.value hs t9 n wt u_ext u v e)
      <-> n <= 0 \/ is_Some (deref hs (DefaultJacobianFormSurf.spline_coeff t9)))
  /\ (is_Some (DefaultVectorFormSurf.value hf t10 n wt u_ext v e)
      <-> n <= 0 \/ is_Some (deref hf (DefaultVectorFormSurf.function_coeff t10)))
  /\ (is_Some (DefaultResidualSurf.value hf t11 n wt u_ext v e)
      <-> n <= 0 \/ is_Some (deref hf (DefaultResidualSurf.function_coeff t11))).
Proof.
  split; [|split; [|split; [|split; [|split; [|split; [|split; [|split; [|split;
    [|split]]]]]]]]].
  - unfold DefaultMatrixFormVol.value. rewrite scaled_is_Some.
    destruct (DefaultMatrixFormVol.gt t1);
      apply (for_upto_m_defined_iff _ n (fun f i result => _)).
  - unfold DefaultJacobianDiffusion.value.
    destruct (DefaultJacobianDiffusion.gt t2);
      apply (for_upto_m_defined_iff _ n (fun f i result => _)).
  - apply (two_reads_defined_iff _ _ n (fun s1 s2 i result => _)).
  - unfold DefaultVectorFormVol.value. rewrite scaled_is_Some.
    destruct (DefaultVectorFormVol.gt t4);
      apply (for_upto_m_defined_iff _ n (fun f i result => _)).
  - unfold DefaultResidualVol.value. rewrite scaled_is_Some.
    destruct (DefaultResidualVol.gt t5);
      apply (for_upto_m_defined_iff _ n (fun f i result => _)).
  - unfold DefaultResidualDiffusion.value.
    destruct (DefaultResidualDiffusion.gt t6);
      apply (for_upto_m_defined_iff _ n (fun f i result => _)).
  - apply (two_reads_defined_iff _ _ n (fun s1 s2 i result => _)).
  - unfold DefaultMatrixFormSurf.value. rewrite scaled_is_Some.
    destruct (DefaultMatrixFormSurf.gt t8);
      apply (for_upto_m_defined_iff _ n (fun f i result => _)).
  - apply (for_upto_m_defined_iff _ n (fun f i result => _)).
  - unfold DefaultVectorFormSurf.value. rewrite scaled_is_Some.
    destruct (DefaultVectorFormSurf.gt t10);
      apply (for_upto_m_defined_iff _ n (fun f i result => _)).
  - unfold DefaultResidualSurf.value. rewrite scaled_is_Some.
    destruct (DefaultResidualSurf.gt t11);
      apply (for_upto_m_defined_iff _ n (fun f i result => _)).
Qed.

End ValueDefinedness.

Section Degenerate.
Context `{ScalarOps Scalar}.
Hypothesis mul_one_r : forall a : Scalar, (a * one)%sc = a.

(** Closes the equality of two evaluations whose loop bodies differ by a
    factor that the hypothesis [Hone] makes 1. *)
Ltac same_loops Hone :=
  try reflexivity;
  first [ apply for_upto_m_ext | f_equal; apply for_upto_m_ext ];
  intros i a Hi; specialize (Hone i Hi); simpl in Hone;
  rewrite Hone, mul_one_r; reflexivity.

(** Where the coordinate that serves as geometry factor is 1 at every
    quadrature point, a term evaluates in the axisymmetric mode as it does in
    planar mode. *)
Theorem axisym_degenerates_to_planar (g : GeomType) (n : Z) (wt : array Scalar)
    (u_ext : Z -> Func Scalar) (u v : Func Scalar) (e : Geom Scalar)
    (hf : gmap nat (DefaultFunction.t Scalar)) (hs : gmap nat (CubicSpline.t Scalar))
    (t1 : DefaultMatrixFormVol.t Scalar) (t2 : DefaultJacobianDiffusion.t Scalar)
    (t4 : DefaultVectorFormVol.t Scalar) (t5 : DefaultResidualVol.t Scalar)
    (t6 : DefaultResidualDiffusion.t Scalar) (t8 : DefaultMatrixFormSurf.t Scalar)
    (t10 : DefaultVectorFormSurf.t Scalar) (t11 : DefaultResidualSurf.t Scalar) :
  (forall i, (i < Z.to_nat n)%nat -> geometry_factor g e i = one) ->
  DefaultMatrixFormVol.value hf (DefaultMatrixFormVol.with_gt t1 g) n wt u_ext u v e
  = DefaultMatrixFormVol.value hf (DefaultMatrixFormVol.with_gt t1 HERMES_PLANAR)
      n wt u_ext u v e
  /\ DefaultJacobianDiffusion.value hs (DefaultJacobianDiffusion.with_gt t2 g) n wt u_ext u v e
     = DefaultJacobianDiffusion.value hs (DefaultJacobianDiffusion.with_gt t2 HERMES_PLANAR)
         n wt u_ext u v e
  /\ DefaultVectorFormVol.value hf (DefaultVectorFormVol.with_gt t4 g) n wt u_ext v e
     = DefaultVectorFormVol.value hf (DefaultVectorFormVol.with_gt t4 HERMES_PLANAR)
         n wt u_ext v e
  /\ DefaultResidualVol.value hf (DefaultResidualVol.with_gt t5 g) n wt u_ext v e
     = DefaultResidualVol.value hf (DefaultResidualVol.with_gt t5 HERMES_PLANAR)
         n wt u_ext v e
  /\ DefaultResidualDiffusion.value hs (DefaultResidualDiffusion.with_gt t6 g) n wt u_ext v e
     = DefaultResidualDiffusion.value hs (DefaultResidualDiffusion.with_gt t6 HERMES_PLANAR)
         n wt u_ext v e
  /\ DefaultMatrixFormSurf.value hf (DefaultMatrixFormSurf.with_gt t8 g) n wt u_ext u v e
     = DefaultMatrixFormSurf.value hf (DefaultMatrixFormSurf.with_gt t8 HERMES_PLANAR)
         n wt u_ext u v e
  /\ DefaultVectorFormSurf.value hf (DefaultVectorFormSurf.with_gt t10 g) n wt u_ext v e
     = DefaultVectorFormSurf.value hf (DefaultVectorFormSurf.with_gt t10 HERMES_PLANAR)
         n wt u_ext v e
  /\ DefaultResidualSurf.value hf (DefaultResidualSurf.with_gt t11 g) n wt u_ext v e
     = DefaultResidualSurf.value hf (DefaultResidualSurf.with_gt t11 HERMES_PLANAR)
         n wt u_ext v e.
Proof.
  intros Hone.
  unfold DefaultMatrixFormVol.value, DefaultJacobianDiffusion.value,
    DefaultVectorFormVol.value, DefaultResidualVol.value, DefaultResidualDiffusion.value,
    DefaultMatrixFormSurf.value, DefaultVectorFormSurf.value, DefaultResidualSurf.value.
  simpl.
  split; [|split; [|split; [|split; [|split; [|split; [|split]]]]]];
    destruct g; same_loops Hone.
Qed.

End Degenerate.

(** * The two evaluators of a term *)

Section EvaluatorPairs.
Context `{ScalarOps Scalar}.

(** In the degree algebra a floating-point factor changes nothing. *)
Lemma Ord_scale_id (d : Scalar) (r : Ord.t) : Ord.scale d r = r.
Proof. by destruct r. Qed.

(** [DefaultJacobianDiffusion]: the numeric evaluator and the order
    estimator are one formula, read in floating-point arithmetic and in the
    degree algebra, in all three geometry modes. *)
Theorem jacobian_diffusion_evaluators_paired
    (h : gmap nat (CubicSpline.t Scalar)) (this : DefaultJacobianDiffusion.t Scalar)
    (kappa : CubicSpline.t Scalar) (n : Z) (wt : array Scalar)
    (u_ext : Z -> Func Scalar) (u v : Func Scalar) (e : Geom Scalar)
    (u_ext_ord : Z -> Func Ord.t) (u_ord v_ord : Func Ord.t) (e_ord : Geom Ord.t) :
  deref h (DefaultJacobianDiffusion.spline_coeff this) = Some kappa ->
  DefaultJacobianDiffusion.value h this n wt u_ext u v e
  = Some (jacobian_diffusion_formula scalar_algebra zero
            (CubicSpline.get_value kappa) (CubicSpline.get_derivative kappa)
            (DefaultJacobianDiffusion.gt this) (DefaultJacobianDiffusion.const_coeff this)
            n wt (u_ext (DefaultJacobianDiffusion.idx_j this)) u v e)
  /\ DefaultJacobianDiffusion.ord h this n wt u_ext_ord u_ord v_ord e_ord
     = Some (jacobian_diffusion_formula order_algebra zero
               (CubicSpline.get_value_ord kappa) (CubicSpline.get_derivative_ord kappa)
               (DefaultJacobianDiffusion.gt this) (DefaultJacobianDiffusion.const_coeff this)
               n wt (u_ext_ord (DefaultJacobianDiffusion.idx_j this)) u_ord v_ord e_ord).
Proof.
  intros Hlive.
  unfold DefaultJacobianDiffusion.value, DefaultJacobianDiffusion.ord,
    jacobian_diffusion_formula, algebra_sum.
  rewrite Hlive.
  destruct (DefaultJacobianDiffusion.gt this); simpl; split;
    apply (for_upto_m_defined n (fun i r => _)).
Qed.

(** The six terms with a function coefficient: the numeric evaluator and
    the order estimator are one formula in the two arithmetics, the mass-like
    formula for the matrix and residual terms (a residual term reads the
    previous iterate where a matrix term reads the trial function) and the
    load-like formula for the vector terms.  The order estimators return the
    sum without the constant, which in the degree algebra is the same order. *)
Theorem function_term_evaluators_paired
    (h : gmap nat (DefaultFunction.t Scalar)) (f : DefaultFunction.t Scalar)
    (n : Z) (wt : array Scalar)
    (u_ext : Z -> Func Scalar) (u v : Func Scalar) (e : Geom Scalar)
    (u_ext_ord : Z -> Func Ord.t) (u_ord v_ord : Func Ord.t) (e_ord : Geom Ord.t)
    (t1 : DefaultMatrixFormVol.t Scalar) (t2 : DefaultMatrixFormSurf.t Scalar)
    (t3 : DefaultResidualVol.t Scalar) (t4 : DefaultResidualSurf.t Scalar)
    (t5 : DefaultVectorFormVol.t Scalar) (t6 : DefaultVectorFormSurf.t Scalar) :
  (deref h (DefaultMatrixFormVol.function_coeff t1) = Some f ->
   DefaultMatrixFormVol.value h t1 n wt u_ext u v e
   = Some (matrix_form_formula scalar_algebra zero (DefaultFunction.value f)
             (DefaultMatrixFormVol.gt t1) (DefaultMatrixFormVol.const_coeff t1) n wt u v e)
   /\ DefaultMatrixFormVol.ord h t1 n wt u_ext_ord u_ord v_ord e_ord
      = Some (matrix_form_formula order_algebra zero (DefaultFunction.ord f)
                (DefaultMatrixFormVol.gt t1) (DefaultMatrixFormVol.const_coeff t1)
                n wt u_ord v_ord e_ord))
  /\ (deref h (DefaultMatrixFormSurf.function_coeff t2) = Some f ->
      DefaultMatrixFormSurf.value h t2 n wt u_ext u v e
      = Some (matrix_form_formula scalar_algebra zero (DefaultFunction.value f)
                (DefaultMatrixFormSurf.gt t2) (DefaultMatrixFormSurf.const_coeff t2)
                n wt u v e)
      /\ DefaultMatrixFormSurf.ord h t2 n wt u_ext_ord u_ord v_ord e_ord
         = Some (matrix_form_formula order_algebra zero (DefaultFunction.ord f)
                   (DefaultMatrixFormSurf.gt t2) (DefaultMatrixFormSurf.const_coeff t2)
                   n wt u_ord v_ord e_ord))
  /\ (deref h (DefaultResidualVol.function_coeff t3) = Some f ->
      DefaultResidualVol.value h t3 n wt u_ext v e
      = Some (matrix_form_formula scalar_algebra zero (DefaultFunction.value f)
                (DefaultResidualVol.gt t3) (DefaultResidualVol.const_coeff t3)
                n wt (u_ext (DefaultResidualVol.idx_i t3)) v e)
      /\ DefaultResidualVol.ord h t3 n wt u_ext_ord v_ord e_ord
         = Some (matrix_form_formula order_algebra zero (DefaultFunction.ord f)
                   (DefaultResidualVol.gt t3) (DefaultResidualVol.const_coeff t3)
                   n wt (u_ext_ord (DefaultResidualVol.idx_i t3)) v_ord e_ord))
  /\ (deref h (DefaultResidualSurf.function_coeff t4) = Some f ->
      DefaultResidualSurf.value h t4 n wt u_ext v e
      = Some (matrix_form_formula scalar_algebra zero (DefaultFunction.value f)
                (DefaultResidualSurf.gt t4) (DefaultResidualSurf.const_coeff t4)
                n wt (u_ext (DefaultResidualSurf.idx_i t4)) v e)
      /\ DefaultResidualSurf.ord h t4 n wt u_ext_ord v_ord e_ord
         = Some (matrix_form_formula order_algebra zero (DefaultFunction.ord f)
                   (DefaultResidualSurf.gt t4) (DefaultResidualSurf.const_coeff t4)
                   n wt (u_ext_ord (DefaultResidualSurf.idx_i t4)) v_ord e_ord))
  /\ (deref h (DefaultVectorFormVol.function_coeff t5) = Some f ->
      DefaultVectorFormVol.value h t5 n wt u_ext v e
      = Some (vector_form_formula scalar_algebra zero (DefaultFunction.value f)
                (DefaultVectorFormVol.gt t5) (DefaultVectorFormVol.const_coeff t5)
                n wt v e)
      /\ DefaultVectorFormVol.ord h t5 n wt u_ext_ord v_ord e_ord
         = Some (vector_form_formula order_algebra zero (DefaultFunction.ord f)
                   (DefaultVectorFormVol.gt t5) (DefaultVectorFormVol.const_coeff t5)
                   n wt v_ord e_ord))
  /\ (deref h (DefaultVectorFormSurf.function_coeff t6) = Some f ->
      DefaultVectorFormSurf.value h t6 n wt u_ext v e
      = Some (vector_form_formula scalar_algebra zero (DefaultFunction.value f)
                (DefaultVectorFormSurf.gt t6) (DefaultVectorFormSurf.const_coeff t6)
                n wt v e)
      /\ DefaultVectorFormSurf.ord h t6 n wt u_ext_ord v_ord e_ord
         = Some (vector_form_formula order_algebra zero (DefaultFunction.ord f)
                   (DefaultVectorFormSurf.gt t6) (DefaultVectorFormSurf.const_coeff t6)
                   n wt v_ord e_ord)).
Proof.
  unfold matrix_form_formula, vector_form_formula, algebra_sum.
  change (nmul (@order_algebra Scalar) (inj order_algebra ?c) ?r) with (Ord.scale c r).
  split; [|split; [|split; [|split; [|split]]]]; intros Hlive.
  - unfold DefaultMatrixFormVol.value, DefaultMatrixFormVol.ord. rewrite Hlive.
    rewrite Ord_scale_id.
    destruct (DefaultMatrixFormVol.gt t1); simpl; split;
      by rewrite (for_upto_m_defined n (fun i r => _)).
  - unfold DefaultMatrixFormSurf.value, DefaultMatrixFormSurf.ord. rewrite Hlive.
    rewrite Ord_scale_id.
    destruct (DefaultMatrixFormSurf.gt t2); simpl; split;
      by rewrite (for_upto_m_defined n (fun i r => _)).
  - unfold DefaultResidualVol.value, DefaultResidualVol.ord. rewrite Hlive.
    rewrite Ord_scale_id.
    destruct (DefaultResidualVol.gt t3); simpl; split;
      by rewrite (for_upto_m_defined n (fun i r => _)).
  - unfold DefaultResidualSurf.value, DefaultResidualSurf.ord. rewrite Hlive.
    rewrite Ord_scale_id.
    destruct (DefaultResidualSurf.gt t4); simpl; split;
      by rewrite (for_upto_m_defined n (fun i r => _)).
  - unfold DefaultVectorFormVol.value, DefaultVectorFormVol.ord. rewrite Hlive.
    rewrite Ord_scale_id.
    destruct (DefaultVectorFormVol.gt t5); simpl; split;
      by rewrite (for_upto_m_defined n (fun i r => _)).
  - unfold DefaultVectorFormSurf.value, DefaultVectorFormSurf.ord. rewrite Hlive.
    rewrite Ord_scale_id.
    destruct (DefaultVectorFormSurf.gt t6); simpl; split;
      by rewrite (for_upto_m_defined n (fun i r => _)).
Qed.

End EvaluatorPairs.

(** * The multi-component surface vector term *)

Section MultiComponent.
Context `{ScalarOps Scalar}.
Variable int_v : Z -> array Scalar -> Func Scalar -> Scalar.
Variable int_y_v : Z -> array Scalar -> Func Scalar -> Geom Scalar -> Scalar.
Variable int_x_v : Z -> array Scalar -> Func Scalar -> Geom Scalar -> Scalar.

Lemma push_back_loop (base : Scalar) (coeffs result : list Scalar) (k : nat) :
  for_loop k 0 (fun i r => r ≫= fun result =>
                  c ← coeffs !! i; Some (result ++ [(base * c)%sc])) (Some result)
  = if decide (k <= length coeffs)%nat
    then Some (result ++ map (fun c => (base * c)%sc) (take k coeffs))
    else None.
Proof.
  induction k as [|k IH].
  - destruct (decide (0 <= length coeffs)%nat); [|lia].
    simpl. by rewrite app_nil_r.
  - rewrite for_loop_snoc, IH. simpl.
    destruct (decide (k <= length coeffs)%nat) as [Hk|Hk].
    + destruct (decide (S k <= length coeffs)%nat) as [HSk|HSk]; simpl.
      * destruct (lookup_lt_is_Some_2 coeffs k) as [c Hc]; [lia|].
        rewrite Hc. simpl. f_equal.
        rewrite (take_S_r coeffs k c Hc), map_app, app_assoc. reflexivity.
      * rewrite lookup_ge_None_2 by lia. reflexivity.
    + destruct (decide (S k <= length coeffs)%nat); [lia|reflexivity].
Qed.

(** [value] appends to the caller's vector, after what it already holds,
    one entry per coordinate: the base integral times the coefficient at the
    same position.  With fewer coefficients than coordinates it reads
    [coeffs] past its end, which is undefined. *)
Theorem multi_component_value_entries
    (this : DefaultMultiComponentVectorFormSurf.t Scalar) (n : Z) (wt : array Scalar)
    (u_ext : Z -> Func Scalar) (v : Func Scalar) (e : Geom Scalar)
    (result : list Scalar) :
  let coords := DefaultMultiComponentVectorFormSurf.coordinates this in
  let coeffs := DefaultMultiComponentVectorFormSurf.coeffs this in
  let base :=
    DefaultMultiComponentVectorFormSurf.result_base int_v int_y_v int_x_v this n wt v e in
  DefaultMultiComponentVectorFormSurf.value int_v int_y_v int_x_v this n wt u_ext v e result
  = if decide (length coords <= length coeffs)%nat
    then Some (result ++ map (fun c => (base * c)%sc) (take (length coords) coeffs))
    else None.
Proof.
  intros coords coeffs base.
  unfold DefaultMultiComponentVectorFormSurf.value, for_upto_m, for_upto.
  rewrite Nat2Z.id. apply push_back_loop.
Qed.

End MultiComponent.

(** * The properties on the example data *)

(** With [y = 1] at both points the axisymmetric value is the planar one. *)
Lemma axisym_degenerates_to_planar_witness :
  DefaultResidualDiffusion.value spline_store (residual_diffusion_example HERMES_AXISYM_X)
    2 wt2 (fun _ => u_prev2) v2 geom_unit_y
  = DefaultResidualDiffusion.value spline_store (residual_diffusion_example HERMES_PLANAR)
      2 wt2 (fun _ => u_prev2) v2 geom_unit_y.
Proof.
  apply (@axisym_degenerates_to_planar Z Z_ScalarOps Z.mul_1_r HERMES_AXISYM_X 2 wt2
           (fun _ => u_prev2) u2 v2 geom_unit_y function_store spline_store
           matrix_vol_example.1 jacobian_diffusion_example.1 vector_vol_example
           residual_vol_example (residual_diffusion_example HERMES_AXISYM_X)
           matrix_surf_example vector_surf_example residual_surf_example).
  intros i Hi. reflexivity.
Defined.

(** On the example spline: value 3774 about the x axis as in the first
    example, and order [1 + max (2 + 2 + 2) (3 + 2) = 7] for quadratic samples
    and a coordinate of degree 1. *)
Lemma jacobian_diffusion_evaluators_paired_witness :
  DefaultJacobianDiffusion.ord spline_store
    (DefaultJacobianDiffusion.with_gt jacobian_diffusion_example.1 HERMES_AXISYM_X)
    2 wt2 (fun _ => quadratic_ord) quadratic_ord quadratic_ord geom_ord = Some (Ord.mk 7).
Proof.
  destruct (jacobian_diffusion_evaluators_paired spline_store
              (DefaultJacobianDiffusion.with_gt jacobian_diffusion_example.1 HERMES_AXISYM_X)
              lam_spline 2 wt2 (fun _ => u_prev2) u2 v2 geom2
              (fun _ => quadratic_ord) quadratic_ord quadratic_ord geom_ord eq_refl)
    as [_ Hord].
  etransitivity; [exact Hord|]. reflexivity.
Defined.

(** On the example function coefficient, whose order is 1: order
    [1 + 1 + 2 + 2 = 6] about the x axis. *)
Lemma function_term_evaluators_paired_witness :
  DefaultMatrixFormVol.ord function_store
    (DefaultMatrixFormVol.with_gt matrix_vol_example.1 HERMES_AXISYM_X)
    2 wt2 (fun _ => quadratic_ord) quadratic_ord quadratic_ord geom_ord = Some (Ord.mk 6).
Proof.
  destruct (function_term_evaluators_paired function_store
              {| DefaultFunction.value := fun a b => a + 2 * b;
                 DefaultFunction.ord := fun _ _ => Ord.of_int 1 |}
              2 wt2 (fun _ => u_prev2) u2 v2 geom2
              (fun _ => quadratic_ord) quadratic_ord quadratic_ord geom_ord
              (DefaultMatrixFormVol.with_gt matrix_vol_example.1 HERMES_AXISYM_X)
              matrix_surf_example residual_vol_example residual_surf_example
              vector_vol_example vector_surf_example) as [Hvol _].
  destruct (Hvol eq_refl) as [_ Hord].
  etransitivity; [exact Hord|]. reflexivity.
Defined.

(** The two sibling formulas on the example data. *)
Lemma DefaultMatrixFormVol_value_geometry_witness :
  DefaultMatrixFormVol.value function_store
    (DefaultMatrixFormVol.with_gt matrix_vol_example.1 HERMES_AXISYM_X)
    2 wt2 (fun _ => u_prev2) u2 v2 geom2 = Some 514.
Proof.
  etransitivity.
  - apply (@DefaultMatrixFormVol_value_geometry Z Z_ScalarOps Z.mul_1_r function_store
             (DefaultMatrixFormVol.with_gt matrix_vol_example.1 HERMES_AXISYM_X)
             {| DefaultFunction.value := fun a b => a + 2 * b;
                DefaultFunction.ord := fun _ _ => Ord.of_int 1 |}).
    reflexivity.
  - reflexivity.
Defined.

Lemma DefaultResidualDiffusion_value_geometry_witness :
  DefaultResidualDiffusion.value spline_store (residual_diffusion_example HERMES_AXISYM_Y)
    2 wt2 (fun _ => u_prev2) v2 geom2 = Some 568.
Proof.
  etransitivity.
  - apply (@DefaultResidualDiffusion_value_geometry Z Z_ScalarOps Z.mul_1_r spline_store
             (residual_diffusion_example HERMES_AXISYM_Y) lam_spline).
    reflexivity.
  - reflexivity.
Defined.

(** * More evaluator pairs and the life of a term *)

Section MorePairs.
Context `{ScalarOps Scalar}.

(** [DefaultJacobianFormSurf] and [DefaultJacobianAdvection]: the numeric
    evaluator and the order estimator are one formula in the two arithmetics;
    neither reads the geometry mode or the coordinates. *)
Theorem spline_term_evaluators_paired
    (h : gmap nat (CubicSpline.t Scalar)) (s1 s2 : CubicSpline.t Scalar)
    (n : Z) (wt : array Scalar)
    (u_ext : Z -> Func Scalar) (u v : Func Scalar) (e : Geom Scalar)
    (u_ext_ord : Z -> Func Ord.t) (u_ord v_ord : Func Ord.t) (e_ord : Geom Ord.t)
    (ts : DefaultJacobianFormSurf.t Scalar) (ta : DefaultJacobianAdvection.t Scalar) :
  (deref h (DefaultJacobianFormSurf.spline_coeff ts) = Some s1 ->
   DefaultJacobianFormSurf.value h ts n wt u_ext u v e
   = Some (jacobian_surf_formula scalar_algebra zero
             (CubicSpline.get_value s1) (CubicSpline.get_derivative s1)
             (DefaultJacobianFormSurf.const_coeff ts) n wt
             (u_ext (DefaultJacobianFormSurf.idx_j ts)) u v)
   /\ DefaultJacobianFormSurf.ord h ts n wt u_ext_ord u_ord v_ord e_ord
      = Some (jacobian_surf_formula order_algebra zero
                (CubicSpline.get_value_ord s1) (CubicSpline.get_derivative_ord s1)
                (DefaultJacobianFormSurf.const_coeff ts) n wt
                (u_ext_ord (DefaultJacobianFormSurf.idx_j ts)) u_ord v_ord))
  /\ (deref h (DefaultJacobianAdvection.spline_coeff1 ta) = Some s1 ->
      deref h (DefaultJacobianAdvection.spline_coeff2 ta) = Some s2 ->
      DefaultJacobianAdvection.value h ta n wt u_ext u v e
      = Some (jacobian_advection_formula scalar_algebra zero
                (CubicSpline.get_value s1) (CubicSpline.get_derivative s1)
                (CubicSpline.get_value s2) (CubicSpline.get_derivative s2)
                (DefaultJacobianAdvection.const_coeff1 ta)
                (DefaultJacobianAdvection.const_coeff2 ta) n wt
                (u_ext (DefaultJacobianAdvection.idx_j ta)) u v)
      /\ DefaultJacobianAdvection.ord h ta n wt u_ext_ord u_ord v_ord e_ord
         = Some (jacobian_advection_formula order_algebra zero
                   (CubicSpline.get_value_ord s1) (CubicSpline.get_derivative_ord s1)
                   (CubicSpline.get_value_ord s2) (CubicSpline.get_derivative_ord s2)
                   (DefaultJacobianAdvection.const_coeff1 ta)
                   (DefaultJacobianAdvection.const_coeff2 ta) n wt
                   (u_ext_ord (DefaultJacobianAdvection.idx_j ta)) u_ord v_ord)).
Proof.
  unfold jacobian_surf_formula, jacobian_advection_formula, algebra_sum. split.
  - intros Hlive.
    unfold DefaultJacobianFormSurf.value, DefaultJacobianFormSurf.ord. rewrite Hlive.
    simpl. split; apply (for_upto_m_defined n (fun i r => _)).
  - intros Hlive1 Hlive2.
    unfold DefaultJacobianAdvection.value, DefaultJacobianAdvection.ord.
    rewrite Hlive1, Hlive2. simpl. split; apply (for_upto_m_defined n (fun i r => _)).
Qed.

(** Closes [lifecycle dtor build h] for a term with one coefficient. *)
Ltac lifecycle_by_cases o h :=
  split;
  [ apply (delete_new o h)
  | intros a [s Hs];
    apply (proj1 (delete_obj_live a s h Hs)) ].

(** Construction followed by destruction, for every term kind with one
    coefficient whose constructor stores its argument: with the sentinel the
    store is left as it was, with a caller's live object the store is left
    without that object. *)
Theorem construct_destroy (i j : Z) (area : string) (areas : list string)
    (c : Scalar) (sym : SymFlag) (g : GeomType)
    (hf : gmap nat (DefaultFunction.t Scalar)) (hs : gmap nat (CubicSpline.t Scalar)) :
  lifecycle DefaultMatrixFormVol.dtor
    (fun p => DefaultMatrixFormVol.ctor_area i j area c p sym g hf) hf
  /\ lifecycle DefaultMatrixFormVol.dtor
       (fun p => DefaultMatrixFormVol.ctor_areas i j areas c p sym g hf) hf
  /\ lifecycle DefaultJacobianDiffusion.dtor
       (fun p => DefaultJacobianDiffusion.ctor_area i j area c p sym g hs) hs
  /\ lifecycle DefaultJacobianDiffusion.dtor
       (fun p => DefaultJacobianDiffusion.ctor_areas i j areas c p sym g hs) hs
  /\ lifecycle DefaultVectorFormVol.dtor
       (fun p => DefaultVectorFormVol.ctor_area i area c p g hf) hf
  /\ lifecycle DefaultVectorFormVol.dtor
       (fun p => DefaultVectorFormVol.ctor_areas i areas c p g hf) hf
  /\ lifecycle DefaultResidualVol.dtor
       (fun p => DefaultResidualVol.ctor_area i area c p g hf) hf
  /\ lifecycle DefaultResidualVol.dtor
       (fun p => DefaultResidualVol.ctor_areas i areas c p g hf) hf
  /\ lifecycle DefaultResidualDiffusion.dtor
       (fun p => DefaultResidualDiffusion.ctor_area i area c p g hs) hs
  /\ lifecycle DefaultResidualDiffusion.dtor
       (fun p => DefaultResidualDiffusion.ctor_areas i areas c p g hs) hs
  /\ lifecycle DefaultMatrixFormSurf.dtor
       (fun p => DefaultMatrixFormSurf.ctor_area i j area c p g hf) hf
  /\ lifecycle DefaultMatrixFormSurf.dtor
       (fun p => DefaultMatrixFormSurf.ctor_areas i j areas c p g hf) hf
  /\ lifecycle DefaultJacobianFormSurf.dtor
       (fun p => DefaultJacobianFormSurf.ctor_area i j area c p g hs) hs
  /\ lifecycle DefaultVectorFormSurf.dtor
       (fun p => DefaultVectorFormSurf.ctor_area i area c p g hf) hf
  /\ lifecycle DefaultVectorFormSurf.dtor
       (fun p => DefaultVectorFormSurf.ctor_areas i areas c p g hf) hf
  /\ lifecycle DefaultResidualSurf.dtor
       (fun p => DefaultResidualSurf.ctor_area i area c p g hf) hf
  /\ lifecycle DefaultResidualSurf.dtor
       (fun p => DefaultResidualSurf.ctor_areas i areas c p g hf) hf.
Proof.
  split; [|split; [|split; [|split; [|split; [|split; [|split; [|split; [|split;
    [|split; [|split; [|split; [|split; [|split; [|split; [|split]]]]]]]]]]]]]]].
  - lifecycle_by_cases (DefaultFunction.const (one : Scalar)) hf.
  - lifecycle_by_cases (DefaultFunction.const (one : Scalar)) hf.
  - lifecycle_by_cases (CubicSpline.const (one : Scalar)) hs.
  - lifecycle_by_cases (CubicSpline.const (one : Scalar)) hs.
  - lifecycle_by_cases (DefaultFunction.const (one : Scalar)) hf.
  - lifecycle_by_cases (DefaultFunction.const (one : Scalar)) hf.
  - lifecycle_by_cases (DefaultFunction.const (one : Scalar)) hf.
  - lifecycle_by_cases (DefaultFunction.const (one : Scalar)) hf.
  - lifecycle_by_cases (CubicSpline.const (one : Scalar)) hs.
  - lifecycle_by_cases (CubicSpline.const (one : Scalar)) hs.
  - lifecycle_by_cases (DefaultFunction.const (one : Scalar)) hf.
  - lifecycle_by_cases (DefaultFunction.const (one : Scalar)) hf.
  - lifecycle_by_cases (CubicSpline.const (one : Scalar)) hs.
  - lifecycle_by_cases (DefaultFunction.const (one : Scalar)) hf.
  - lifecycle_by_cases (DefaultFunction.const (one : Scalar)) hf.
  - lifecycle_by_cases (DefaultFunction.const (one : Scalar)) hf.
  - lifecycle_by_cases (DefaultFunction.const (one : Scalar)) hf.
Qed.

End MorePairs.

(** On the example spline and quadratic samples: order
    [max (2 + 2) 3 + 2 + 2 = 8] for the surface Jacobian, whatever the mode. *)
Lemma spline_term_evaluators_paired_witness :
  DefaultJacobianFormSurf.ord spline_store (jacobian_surf_example HERMES_AXISYM_X)
    2 wt2 (fun _ => quadratic_ord) quadratic_ord quadratic_ord geom_ord = Some (Ord.mk 8).
Proof.
  destruct (spline_term_evaluators_paired spline_store lam_spline lam_spline
              2 wt2 (fun _ => u_prev2) u2 v2 geom2
              (fun _ => quadratic_ord) quadratic_ord quadratic_ord geom_ord
              (jacobian_surf_example HERMES_AXISYM_X) raw_jacobian_advection)
    as [Hsurf _].
  destruct (Hsurf eq_refl) as [_ Hord].
  etransitivity; [exact Hord|]. reflexivity.
Defined.

(** On the example stores: built on the spline at address 0 and
    destroyed, the residual term leaves the store empty. *)
Lemma construct_destroy_witness :
  DefaultResidualDiffusion.dtor
    (DefaultResidualDiffusion.ctor_area 0 "a" 1 (Addr 0) HERMES_PLANAR spline_store).1
    (DefaultResidualDiffusion.ctor_area 0 "a" 1 (Addr 0) HERMES_PLANAR spline_store).2
  = Some (delete 0%nat spline_store).
Proof.
  destruct (construct_destroy 0 0 "a" ["a"%string] 1 HERMES_SYM HERMES_PLANAR
              function_store spline_store)
    as (_ & _ & _ & _ & _ & _ & _ & _ & [_ Hcaller] & _).
  apply (Hcaller 0%nat). eexists. reflexivity.
Defined.
